(** * Seafile FileLink: session acquisition, credential vault and upload
      orchestration

    A shallow embedding of [background.js] (the service worker: input
    validation, the Seafile API client, the session manager and the cloudFile
    event handlers) and of the [loginManager] experiment API
    ([experiment_apis/loginManager/implementation.js]), together with the
    properties the specification states about them.

    JavaScript strings are modelled as [string] (sequences of 8-bit code
    units), numbers as integers ([Z]); asynchronous functions are programs of
    a small free monad whose only suspension point is [fetch]. *)

From Stdlib Require Import ZArith String Ascii List Bool Lia.
From Stdlib Require Import DecimalString DecimalPos DecimalN.
From stdpp Require Import gmap strings.

Local Open Scope string_scope.
Local Open Scope Z_scope.
Local Set Warnings "-register-all".

(** ** JavaScript values *)

Inductive value : Type :=
| VUndefined
| VNull
| VBool (b : bool)
| VNum (z : Z)
| VStr (s : string)
| VArr (l : list value)
| VObj (fields : list (string * value)).

(** [!v] is [negb (truthy v)]. *)
Definition truthy (v : value) : bool :=
  match v with
  | VUndefined | VNull => false
  | VBool b => b
  | VNum z => negb (z =? 0)
  | VStr s => negb (String.eqb s "")
  | VArr _ | VObj _ => true
  end.

(** [o.k] on an object literal or a decoded JSON object; a missing property
    reads as [undefined]. *)
Fixpoint assoc (k : string) (l : list (string * value)) : value :=
  match l with
  | [] => VUndefined
  | (k', v) :: r => if String.eqb k k' then v else assoc k r
  end.

(** The own property [k] of an object, [None] when the object has none. *)
Fixpoint field (k : string) (l : list (string * value)) : option value :=
  match l with
  | [] => None
  | (k', v) :: r => if String.eqb k k' then Some v else field k r
  end.

(** ** Strings *)

Definition is_dot (c : ascii) : bool := Ascii.eqb c ".".
Definition is_slash (c : ascii) : bool := Ascii.eqb c "/".

(** White space and line terminators removed by [String.prototype.trim]
    (within the 8-bit range). *)
Definition is_ws (c : ascii) : bool :=
  let n := nat_of_ascii c in
  ((9 <=? n)%nat && (n <=? 13)%nat) || (n =? 32)%nat || (n =? 160)%nat.

Fixpoint drop_while (p : ascii -> bool) (s : string) : string :=
  match s with
  | String c r => if p c then drop_while p r else s
  | EmptyString => EmptyString
  end.

(** Removes the longest suffix whose characters all satisfy [p]. *)
Fixpoint drop_end (p : ascii -> bool) (s : string) : string :=
  match s with
  | String c r =>
      match drop_end p r with
      | EmptyString => if p c then EmptyString else String c EmptyString
      | r' => String c r'
      end
  | EmptyString => EmptyString
  end.

(** [s.trim()] *)
Definition trim (s : string) : string := drop_end is_ws (drop_while is_ws s).

(** [s.startsWith(p)] *)
Fixpoint startsWith (s p : string) {struct p} : bool :=
  match p with
  | EmptyString => true
  | String a p' =>
      match s with
      | String b s' => Ascii.eqb a b && startsWith s' p'
      | EmptyString => false
      end
  end.

(** [s.includes(sub)] *)
Fixpoint includes (s sub : string) : bool :=
  startsWith s sub ||
  match s with
  | String _ r => includes r sub
  | EmptyString => false
  end.

(** [s.split(sep)] for a one-character separator. *)
Fixpoint split_on (sep : ascii) (s : string) : list string :=
  match s with
  | EmptyString => [EmptyString]
  | String c r =>
      if Ascii.eqb c sep then EmptyString :: split_on sep r
      else match split_on sep r with
           | h :: t => String c h :: t
           | [] => [String c EmptyString]
           end
  end.

(** The path segments of [s]. *)
Definition segments (s : string) : list string := split_on "/" s.

(** The first character exists and satisfies [p]. *)
Definition head_is (p : ascii -> bool) (s : string) : bool :=
  match s with
  | String c _ => p c
  | EmptyString => false
  end.

(** Two neighbouring characters that both satisfy [p]. *)
Fixpoint adjacent (p : ascii -> bool) (s : string) : bool :=
  match s with
  | String c r =>
      match r with
      | String d _ => (p c && p d) || adjacent p r
      | EmptyString => false
      end
  | EmptyString => false
  end.

(** ** Input validation: [sanitizePath] *)

(** [s.replace(/\.\./g, "")]: every match of two dots, scanning left to
    right without overlap, is deleted. *)
Fixpoint remove_dotdot (s : string) : string :=
  match s with
  | EmptyString => EmptyString
  | String c r =>
      match r with
      | String d r' =>
          if is_dot c && is_dot d then remove_dotdot r'
          else String c (remove_dotdot r)
      | EmptyString => String c EmptyString
      end
  end.

(** [s.replace(/\/+/g, "/")]: [collapse_slashes] scans outside a match,
    [in_slashes] consumes the rest of a run of slashes whose replacement has
    been emitted. *)
Fixpoint collapse_slashes (s : string) : string :=
  match s with
  | EmptyString => EmptyString
  | String c r =>
      if is_slash c then String "/" (in_slashes r)
      else String c (collapse_slashes r)
  end
with in_slashes (s : string) : string :=
  match s with
  | EmptyString => EmptyString
  | String c r =>
      if is_slash c then in_slashes r
      else String c (collapse_slashes r)
  end.

Definition sanitizePath (path : value) : string :=
  match path with
  | VStr p =>
      if negb (truthy path) then "/"
      else
        let clean := collapse_slashes (remove_dotdot p) in
        if negb (startsWith clean "/") then "/" +:+ clean else clean
  | _ => "/"
  end.

(** ** Numbers and their decimal text *)

(** A number of the program is modelled by an integer; where the integer
    is not itself a double it stands for the double nearest to it, as a
    literal does.  Fractions and [NaN] are outside this model of numbers. *)

(** The double nearest to the integer [x >= 0], ties going to the even
    significand.  An integer of at most 53 bits is a double; a longer one is
    rounded at the bit where its 53 leading bits end. *)
Definition to_double (x : Z) : Z :=
  let bits := Z.log2 x + 1 in
  if bits <=? 53 then x
  else
    let e := bits - 53 in
    let q := Z.shiftr x e in
    let r := x - Z.shiftl q e in
    let half := Z.shiftl 1 (e - 1) in
    let q' := if (half <? r) || ((r =? half) && Z.odd q) then q + 1 else q in
    Z.shiftl q' e.

(** The decimal digits of [x >= 0]. *)
Definition decimal (x : Z) : string :=
  NilEmpty.string_of_uint (N.to_uint (Z.to_N x)).

(** [m] zeros. *)
Definition zeros (m : Z) : string :=
  string_of_list_ascii (repeat "0"%char (Z.to_nat m)).

(** The smallest [n] from [n0] on with [x < 10 ^ n], looking at most [fuel]
    steps ahead. *)
Fixpoint digits_from (x n0 : Z) (fuel : nat) : Z :=
  match fuel with
  | O => n0
  | S f => if x <? 10 ^ n0 then n0 else digits_from x (n0 + 1) f
  end.

(** The number of decimal digits of a finite double [x >= 1]. *)
Definition digit_count (x : Z) : Z := digits_from x 1 309.

(** Number::toString, the choice of digits: among the numbers [s * 10 ^ (n -
    k)] with [s] of [k] digits that read back as the double [x], those with
    the fewest digits, and of these the one nearest to [x] (the even one of
    two equally near).  [shortest_at x n k] looks for [s] of [k] digits at
    the position [n] of the digits of [x]: only the two multiples of [10 ^ (n
    - k)] that enclose [x] can be nearest. *)
Definition shortest_at (x n k : Z) : option Z :=
  let p := 10 ^ (n - k) in
  let lo := x / p in
  let hi := lo + 1 in
  let lo_ok := to_double (lo * p) =? x in
  let hi_ok := (hi <? 10 ^ k) && (to_double (hi * p) =? x) in
  if lo_ok && hi_ok then
    Some (if x - lo * p <? hi * p - x then lo
          else if hi * p - x <? x - lo * p then hi
          else if Z.even lo then lo else hi)
  else if lo_ok then Some lo
  else if hi_ok then Some hi
  else None.

(** The first [k], from [k] on, with such an [s]; seventeen digits tell any
    two doubles apart, and all the digits of [x] read back as [x]. *)
Fixpoint shortest_from (x n k : Z) (fuel : nat) : Z * Z :=
  match fuel with
  | O => (x, n)
  | S f =>
      match shortest_at x n k with
      | Some s => (s, k)
      | None => if n <=? k then (x, n) else shortest_from x n (k + 1) f
      end
  end.

(** The digits [s], their number [k] and the position [n] of the decimal
    point for the double [x]; the power of ten above [x] is the one number
    with more digits before the point than [x] that can read back as [x]. *)
Definition shortest (x : Z) : Z * Z * Z :=
  let n := digit_count x in
  if to_double (10 ^ n) =? x then (1, 1, n + 1)
  else let '(s, k) := shortest_from x n 1 17 in (s, k, n).

(** Number::toString for a finite integral double [x] of 54 bits or more:
    the digits followed by zeros up to the decimal point while there are
    at most 21 digits before the point, and exponent notation beyond. *)
Definition double_to_string (x : Z) : string :=
  let '(s, k, n) := shortest x in
  if n <=? 21 then decimal s +:+ zeros (n - k)
  else
    match decimal s with
    | String c EmptyString => String c EmptyString
    | String c r => String c ("." +:+ r)
    | EmptyString => EmptyString
    end +:+ "e+" +:+ decimal (n - 1).

(** [String(n)] for an integer [n].  Below [2 ^ 53] every integer is a
    double and all its digits are printed; from there on the digits are
    those of Number::toString, in exponent notation from [1e21] on, and a
    number too large for a double is [Infinity]. *)
Definition number_to_string (z : Z) : string :=
  (if z <? 0 then "-" else "") +:+
  (if Z.abs z <? 9007199254740992
   then decimal (Z.abs z)
   else
     let x := to_double (Z.abs z) in
     if 2 ^ 1024 <=? x then "Infinity" else double_to_string x).

(** [String(v)]; elements of an array are joined with commas, [null] and
    [undefined] elements contributing nothing. *)
Fixpoint ToString (v : value) : string :=
  match v with
  | VUndefined => "undefined"
  | VNull => "null"
  | VBool b => if b then "true" else "false"
  | VNum z => number_to_string z
  | VStr s => s
  | VArr l =>
      (fix join (l : list value) : string :=
         match l with
         | [] => ""
         | x :: r =>
             let e := match x with
                      | VUndefined | VNull => ""
                      | _ => ToString x
                      end in
             match r with
             | [] => e
             | _ :: _ => e +:+ "," +:+ join r
             end
         end) l
  | VObj _ => "[object Object]"
  end.

Definition digit_of (c : ascii) : option nat :=
  let n := nat_of_ascii c in
  if (48 <=? n)%nat && (n <=? 57)%nat then Some (n - 48)%nat else None.

Definition is_digit (c : ascii) : bool :=
  match digit_of c with Some _ => true | None => false end.

(** The value of the longest prefix of decimal digits, continuing from
    [acc]. *)
Fixpoint parse_digits (s : string) (acc : Z) : Z :=
  match s with
  | String c r =>
      match digit_of c with
      | Some d => parse_digits r (10 * acc + Z.of_nat d)
      | None => acc
      end
  | EmptyString => acc
  end.

(** [parseInt(s, 10)]: leading white space is skipped, then an optional
    sign, then the longest run of digits; [None] is [NaN]. *)
Definition parseInt (s : string) : option Z :=
  let s1 := drop_while is_ws s in
  let '(negative, s2) :=
    match s1 with
    | String c r =>
        if Ascii.eqb c "-" then (true, r)
        else if Ascii.eqb c "+" then (false, r)
        else (false, s1)
    | EmptyString => (false, s1)
    end in
  if head_is is_digit s2 then
    let n := parse_digits s2 0 in
    Some (if negative then - n else n)
  else None.

(** [validatePositiveInt(value, max = 365, fallback = 0)] *)
Definition validatePositiveInt (v : value) (max fallback : Z) : Z :=
  match parseInt (ToString v) with
  | None => fallback
  | Some num => if num <? 0 then fallback else Z.min num max
  end.

(** ** Errors *)

Inductive exn : Type :=
| SeafileError (code message : string)   (* [new SeafileError(code, message)] *)
| Error (message : string)               (* [new Error(message)] *)
| TypeError (message : string)           (* thrown by the platform *)
| SyntaxError (message : string).        (* [response.json()] on a bad body *)

Definition exn_message (e : exn) : string :=
  match e with
  | SeafileError _ m | Error m | TypeError m | SyntaxError m => m
  end.

(** [e.code] *)
Definition exn_code (e : exn) : option string :=
  match e with
  | SeafileError c _ => Some c
  | _ => None
  end.

Definition is_SeafileError (e : exn) : bool :=
  match e with SeafileError _ _ => true | _ => false end.

Definition result (A : Type) : Type := exn + A.

(** [v.k]: reading a property of [null] or [undefined] throws. *)
Definition get_prop (v : value) (k : string) : result value :=
  match v with
  | VUndefined | VNull => inl (TypeError ("can't access property " +:+ k))
  | VObj fields => inr (assoc k fields)
  | _ => inr VUndefined
  end.

(** ** The platform *)

(** What the program reads of a parsed [URL]. *)
Record url : Type := {
  protocol : string;   (* scheme followed by a colon *)
  hostname : string;
  port : string;
  origin : string;
}.

(** What the experiment API reads of an [nsIURI]. *)
Record nsIURI : Type := {
  scheme : string;
  prePath : string;
}.

(** The platform services the program calls.  [URL s] is [new URL(s)] and
    [newURI s] is [Services.io.newURI(s)], [None] when they throw;
    [getMessage] is [messenger.i18n.getMessage]; [addDays now d] is the time
    stamp [d] calendar days after [now]; the last two fields tell which
    search methods the login manager offers. *)
Record Platform : Type := {
  URL : string -> option url;
  newURI : string -> option nsIURI;
  encodeURIComponent : string -> string;
  getMessage : string -> list string -> string;
  addDays : Z -> Z -> Z;
  has_searchLoginsAsync : bool;
  has_searchLogins : bool;
}.

(** ** Requests and responses *)

Inductive body : Type :=
| NoBody
| FormBody (params : list (string * string))       (* [URLSearchParams] *)
| JsonBody (json : value)                          (* [JSON.stringify] *)
| MultipartBody (parts : list (string * string))   (* [FormData] *)
           (file_name file_data : string).

(** The argument of a [fetch] call.  [signal] identifies the [AbortSignal]
    handed to the network layer, [None] when the call passes none (or
    [null]). *)
Record request : Type := {
  method : string;
  target : string;
  headers : list (string * string);
  payload : body;
  signal : option nat;
}.

(** A response: its status and its body decoded as JSON, [None] when the
    body is not JSON ([response.json()] then rejects). *)
Record response : Type := {
  status : Z;
  json : option value;
}.

(** [response.ok] *)
Definition ok (r : response) : bool := (200 <=? status r) && (status r <=? 299).

(** How a [fetch] settles: it rejects on a network failure and resolves with
    a response otherwise, whatever the status. *)
Inductive outcome : Type :=
| NetworkError
| Response (r : response).

(** ** Program state *)

(** [REALMS] *)
Definition REALMS_PASSWORD : string := "Seafile FileLink".
Definition REALMS_TOKEN : string := "Seafile FileLink Token".
Definition REALMS_SHARE_PW : string := "Seafile FileLink SharePW".

(** An instance of [class SeafileAPI].  Instances are never modified once
    they are in [apiCache], so they are modelled as values. *)
Record SeafileAPI : Type := {
  serverUrl : string;
  token : value;
}.

(** The account configuration kept in [messenger.storage.local]. *)
Record AccountConfig : Type := {
  cfg_serverUrl : value;
  cfg_username : string;
  cfg_repoId : string;
  cfg_repoName : string;
  cfg_uploadDir : value;
  cfg_shareLinkExpireDays : Z;
  cfg_hasShareLinkPassword : bool;
}.

(** An entry of [uploadedFiles]. *)
Record UploadInfo : Type := {
  up_repoId : string;
  up_filePath : string;
  up_accountId : string;
  up_shareLinkToken : value;
}.

(** An [nsILoginInfo] held by the login manager. *)
Record LoginInfo : Type := {
  li_origin : string;
  li_formActionOrigin : option string;
  li_httpRealm : option string;
  li_username : string;
  li_password : string;
}.

#[global] Instance LoginInfo_eq_dec : EqDecision LoginInfo.
Proof. solve_decision. Defined.

(** The calls made to the login manager service. *)
Inductive lm_call : Type :=
| LmSearch (origin realm : string)
| LmRemove (login : LoginInfo)
| LmAdd (login : LoginInfo).

(** [storage] is [messenger.storage.local], [apiCache] and [uploadedFiles]
    are the two module-level maps, [logins] is the content of the login
    manager and [lm_calls] the calls it has received, latest first. *)
Record State : Type := {
  storage : gmap string AccountConfig;
  apiCache : gmap string SeafileAPI;
  uploadedFiles : gmap Z UploadInfo;
  logins : list LoginInfo;
  lm_calls : list lm_call;
}.

Definition set_apiCache (f : gmap string SeafileAPI -> gmap string SeafileAPI)
    (s : State) : State :=
  {| storage := storage s; apiCache := f (apiCache s);
     uploadedFiles := uploadedFiles s; logins := logins s;
     lm_calls := lm_calls s |}.

Definition set_uploadedFiles (f : gmap Z UploadInfo -> gmap Z UploadInfo)
    (s : State) : State :=
  {| storage := storage s; apiCache := apiCache s;
     uploadedFiles := f (uploadedFiles s); logins := logins s;
     lm_calls := lm_calls s |}.

Definition lm_apply (c : lm_call) (f : list LoginInfo -> list LoginInfo)
    (s : State) : State :=
  {| storage := storage s; apiCache := apiCache s;
     uploadedFiles := uploadedFiles s; logins := f (logins s);
     lm_calls := c :: lm_calls s |}.

(** ** Asynchronous programs *)

(** A program returns, throws, awaits a [fetch], or reads or writes the
    state.  Only [Fetch] suspends the running task: what lies between two
    fetches runs without interruption. *)
Inductive Prog (A : Type) : Type :=
| Ret (a : A)
| Throw (e : exn)
| Fetch (r : request) (k : outcome -> Prog A)
| Get (k : State -> Prog A)
| Put (s : State) (k : Prog A).

Arguments Ret {A} a.
Arguments Throw {A} e.
Arguments Fetch {A} r k.
Arguments Get {A} k.
Arguments Put {A} s k.

Fixpoint bind {A B : Type} (p : Prog A) (f : A -> Prog B) : Prog B :=
  match p with
  | Ret a => f a
  | Throw e => Throw e
  | Fetch r k => Fetch r (fun o => bind (k o) f)
  | Get k => Get (fun s => bind (k s) f)
  | Put s k => Put s (bind k f)
  end.

(** [try { p } catch (e) { h e }] *)
Fixpoint try_catch {A : Type} (p : Prog A) (h : exn -> Prog A) : Prog A :=
  match p with
  | Ret a => Ret a
  | Throw e => h e
  | Fetch r k => Fetch r (fun o => try_catch (k o) h)
  | Get k => Get (fun s => try_catch (k s) h)
  | Put s k => Put s (try_catch k h)
  end.

(** [try { p } finally { f }], for an [f] that completes normally. *)
Definition try_finally {A : Type} (p : Prog A) (f : Prog unit) : Prog A :=
  bind (try_catch (bind p (fun a => Ret (inr a))) (fun e => Ret (inl e)))
       (fun r => bind f (fun _ =>
          match r with inl e => Throw e | inr a => Ret a end)).

Declare Scope prog_scope.
Delimit Scope prog_scope with prog.
Notation "x <- p ;; q" := (bind p (fun x => q))
  (at level 100, p at next level, right associativity) : prog_scope.
Notation "p ;;; q" := (bind p (fun _ => q))
  (at level 100, right associativity) : prog_scope.
Local Open Scope prog_scope.

Definition lift {A : Type} (r : result A) : Prog A :=
  match r with
  | inl e => Throw e
  | inr a => Ret a
  end.

Definition modify (f : State -> State) : Prog unit :=
  Get (fun s => Put (f s) (Ret tt)).

(** [await fetch(r)] *)
Definition fetch (r : request) : Prog response :=
  Fetch r (fun o =>
    match o with
    | NetworkError =>
        Throw (TypeError "NetworkError when attempting to fetch resource.")
    | Response resp => Ret resp
    end).

(** [await response.json()] *)
Definition response_json (r : response) : Prog value :=
  match json r with
  | Some v => Ret v
  | None => Throw (SyntaxError "JSON.parse: unexpected character")
  end.

(** *** Running programs *)

(** The network: how the fetch of a request settles, given the requests
    issued before it (latest first). *)
Definition World : Type := list request -> request -> outcome.

(** Runs a task to completion with no other task in between. *)
Fixpoint run {A : Type} (p : Prog A) (w : World) (s : State)
    (tr : list request) : result A * State * list request :=
  match p with
  | Ret a => (inr a, s, tr)
  | Throw e => (inl e, s, tr)
  | Fetch r k => run (k (w tr r)) w s (r :: tr)
  | Get k => run (k s) w s tr
  | Put s' k => run k w s' tr
  end.

(** Runs task [p]; while its [n]-th fetch (counting from 0) is in flight the
    event handler [ev] runs to completion, then [p] resumes with the
    response to that fetch. *)
Fixpoint run_with_event {A : Type} (p : Prog A) (n : nat) (ev : Prog unit)
    (w : World) (s : State) (tr : list request)
    : result A * State * list request :=
  match p with
  | Ret a => (inr a, s, tr)
  | Throw e => (inl e, s, tr)
  | Fetch r k =>
      match n with
      | O =>
          let '(_, s', tr') := run ev w s (r :: tr) in
          run (k (w tr r)) w s' tr'
      | S n' => run_with_event (k (w tr r)) n' ev w s (r :: tr)
      end
  | Get k => run_with_event (k s) n ev w s tr
  | Put s' k => run_with_event k n ev w s' tr
  end.

Section Program.

Variable pf : Platform.

(** [new SeafileError(code, messenger.i18n.getMessage(key, args))] *)
Definition seafileError (code key : string) (args : list string) : exn :=
  SeafileError code (getMessage pf key args).

(** ** background.js: input validation *)

(** [validateServerUrl(url)].  The console warning for plain http is not
    modelled. *)
Definition validateServerUrl (u : value) : result string :=
  match u with
  | VStr s =>
      if negb (truthy u) then inl (seafileError "INVALID_URL" "errorUrlEmpty" [])
      else
        let trimmed := drop_end is_slash (trim s) in
        match URL pf trimmed with
        | None => inl (seafileError "INVALID_URL" "errorInvalidUrl" [])
        | Some parsed =>
            if negb (String.eqb (protocol parsed) "https:")
               && negb (String.eqb (protocol parsed) "http:")
            then inl (seafileError "INVALID_URL" "errorUrlScheme" [])
            else inr (origin parsed)
        end
  | _ => inl (seafileError "INVALID_URL" "errorUrlEmpty" [])
  end.

(** ** background.js: the Seafile API client *)

(** [new SeafileAPI(serverUrl)] *)
Definition new_SeafileAPI (u : value) : result SeafileAPI :=
  match validateServerUrl u with
  | inl e => inl e
  | inr o => inr {| serverUrl := o; token := VNull |}
  end.

(** [/^\d{6}$/.test(s)] *)
Definition six_digits (s : string) : bool :=
  (String.length s =? 6)%nat && forallb is_digit (list_ascii_of_string s).

(** [this._request(method, path, body, bodyType)] *)
Definition _request (api : SeafileAPI) (m path : string)
    (b : option (list (string * value))) (bodyType : option string)
    : Prog response :=
  let h := [("Authorization", "Token " +:+ ToString (token api));
            ("Accept", "application/json")] in
  match b, bodyType with
  | Some fields, Some "json" =>
      fetch {| method := m; target := serverUrl api +:+ path;
               headers := h ++ [("Content-Type", "application/json")];
               payload := JsonBody (VObj fields); signal := None |}
  | Some fields, Some "form" =>
      fetch {| method := m; target := serverUrl api +:+ path;
               headers := h ++ [("Content-Type", "application/x-www-form-urlencoded")];
               payload := FormBody (map (fun kv => (kv.1, ToString kv.2)) fields);
               signal := None |}
  | _, _ =>
      fetch {| method := m; target := serverUrl api +:+ path;
               headers := h; payload := NoBody; signal := None |}
  end.

(** [errors.some((e) => e.includes(needle))]: [includes] is the string
    method on a string, the array method on an array, and missing on
    anything else. *)
Fixpoint some_includes (errors : list value) (needle : string) : result bool :=
  match errors with
  | [] => inr false
  | e :: r =>
      match e with
      | VStr s => if includes s needle then inr true else some_includes r needle
      | VArr l =>
          if existsb (fun x => match x with
                               | VStr s => String.eqb s needle
                               | _ => false
                               end) l
          then inr true else some_includes r needle
      | _ => inl (TypeError "e.includes is not a function")
      end
  end.

(** [api.authenticate(username, password, otpToken)].  The code assigns
    [this.token] and returns the token; here the result is the instance
    with its token set, a new value.  The program calls [authenticate] on an
    instance it has just made ([getAuthenticatedAPI], [testConnection]), to
    which nothing else refers; an instance that the cache held as well would
    change there too, which this value does not show. *)
Definition authenticate (api : SeafileAPI) (username password : string)
    (otpToken : value) : Prog SeafileAPI :=
  let h := [("Content-Type", "application/x-www-form-urlencoded");
            ("Accept", "application/json")] in
  h' <- (match otpToken with
         | VStr t =>
             if truthy otpToken && six_digits t
             then Ret (h ++ [("X-SEAFILE-OTP", t)])%list
             else if truthy otpToken
                  then Throw (seafileError "2FA_INVALID" "error2faInvalid" [])
                  else Ret h
         | _ =>
             if truthy otpToken
             then Throw (seafileError "2FA_INVALID" "error2faInvalid" [])
             else Ret h
         end) ;;
  resp <- fetch {| method := "POST";
                   target := serverUrl api +:+ "/api2/auth-token/";
                   headers := h';
                   payload := FormBody [("username", username);
                                        ("password", password)];
                   signal := None |} ;;
  if negb (ok resp) then
    errorData <- try_catch (response_json resp) (fun _ => Ret (VObj [])) ;;
    nfe <- lift (get_prop errorData "non_field_errors") ;;
    errors <- (if truthy nfe then
                 match nfe with
                 | VArr l => Ret l
                 | _ => Throw (TypeError "errors.some is not a function")
                 end
               else Ret []) ;;
    missing <- lift (some_includes errors "Two factor auth token is missing") ;;
    if missing then Throw (seafileError "2FA_REQUIRED" "error2faRequired" [])
    else
      invalid <- lift (some_includes errors "Two factor auth token") ;;
      if invalid then Throw (seafileError "2FA_INVALID" "error2faInvalid" [])
      else Throw (seafileError "AUTH_FAILED" "errorAuthFailed"
                               [number_to_string (status resp)])
  else
    data <- response_json resp ;;
    tok <- lift (get_prop data "token") ;;
    Ret {| serverUrl := serverUrl api; token := tok |}.

(** [api.ping()] *)
Definition ping (api : SeafileAPI) : Prog bool :=
  resp <- _request api "GET" "/api2/auth/ping/" None None ;;
  Ret (ok resp).

(** [api.ensureDirectory(repoId, path)] *)
Definition ensureDirectory (api : SeafileAPI) (repoId : string) (path : value)
    : Prog unit :=
  let safePath := sanitizePath path in
  resp <- _request api "POST"
            ("/api/v2.1/repos/" +:+ encodeURIComponent pf repoId +:+ "/dir/?p="
             +:+ encodeURIComponent pf safePath)
            (Some [("operation", VStr "mkdir")]) (Some "form") ;;
  if negb (ok resp) && negb (status resp =? 409) && negb (status resp =? 400)
  then Throw (seafileError "MKDIR_FAILED" "errorCreateDir" [safePath])
  else Ret tt.

(** [api.getUploadLink(repoId, parentDir)] *)
Definition getUploadLink (api : SeafileAPI) (repoId : string)
    (parentDir : value) : Prog string :=
  let safePath := sanitizePath parentDir in
  resp <- _request api "GET"
            ("/api2/repos/" +:+ encodeURIComponent pf repoId
             +:+ "/upload-link/?p=" +:+ encodeURIComponent pf safePath)
            None None ;;
  if negb (ok resp)
  then Throw (seafileError "UPLOAD_LINK_FAILED" "errorUploadLink" [])
  else
    link <- response_json resp ;;
    let linkStr := match link with VStr s => s | _ => ToString link end in
    try_catch
      (match URL pf linkStr with
       | None => Throw (TypeError "URL constructor: not a valid URL.")
       | Some uploadUrl =>
           match URL pf (serverUrl api) with
           | None => Throw (TypeError "URL constructor: not a valid URL.")
           | Some server =>
               if negb (String.eqb (hostname uploadUrl) (hostname server))
               then Throw (seafileError "UPLOAD_LINK_UNTRUSTED"
                                        "errorUploadLinkUntrusted" [])
               else Ret tt
           end
       end)
      (fun e =>
         if is_SeafileError e then Throw e
         else Throw (seafileError "UPLOAD_LINK_INVALID"
                                  "errorUploadLinkInvalid" [])) ;;;
    Ret linkStr.

(** [api.uploadFile(uploadLink, parentDir, file, abortSignal = null)]; the
    file is given by its name and its bytes. *)
Definition uploadFile (api : SeafileAPI) (uploadLink : string)
    (parentDir : value) (file_name file_data : string)
    (abortSignal : option nat) : Prog value :=
  resp <- fetch {| method := "POST";
                   target := uploadLink +:+ "?ret-json=1";
                   headers := [("Authorization",
                                "Token " +:+ ToString (token api))];
                   payload := MultipartBody
                                [("parent_dir", sanitizePath parentDir);
                                 ("replace", "1"); ("ret-json", "1")]
                                file_name file_data;
                   signal := abortSignal |} ;;
  if negb (ok resp)
  then Throw (seafileError "UPLOAD_FAILED" "errorUpload"
                           [number_to_string (status resp)])
  else response_json resp.

(** The [options] argument of [createShareLink]: [password] is any value,
    [expireDays] is a number or missing. *)
Record ShareLinkOptions : Type := {
  opt_password : value;
  opt_expireDays : option Z;
}.

(** The object [createShareLink] sends as JSON. *)
Definition shareLinkBody (repoId : string) (path : value)
    (options : ShareLinkOptions) : list (string * value) :=
  ([("repo_id", VStr repoId); ("path", VStr (sanitizePath path))]
  ++ (match opt_password options with
      | VStr p =>
          if truthy (VStr p) && (0 <? String.length p)%nat
          then [("password", VStr p)] else []
      | _ => []
      end)
  ++ (match opt_expireDays options with
      | Some d =>
          if truthy (VNum d) && (0 <? d)
          then [("expire_days", VNum (validatePositiveInt (VNum d) 365 0))]
          else []
      | None => []
      end))%list.

(** [api.createShareLink(repoId, path, options)] *)
Definition createShareLink (api : SeafileAPI) (repoId : string) (path : value)
    (options : ShareLinkOptions) : Prog value :=
  resp <- _request api "POST" "/api/v2.1/share-links/"
            (Some (shareLinkBody repoId path options)) (Some "json") ;;
  if negb (ok resp)
  then Throw (seafileError "SHARE_LINK_FAILED" "errorShareLink"
                           [number_to_string (status resp)])
  else response_json resp.

(** [api.deleteFile(repoId, path)] *)
Definition deleteFile (api : SeafileAPI) (repoId : string) (path : value)
    : Prog bool :=
  let safePath := sanitizePath path in
  resp <- _request api "DELETE"
            ("/api/v2.1/repos/" +:+ encodeURIComponent pf repoId
             +:+ "/file/?p=" +:+ encodeURIComponent pf safePath)
            None None ;;
  Ret (ok resp).

(** ** The loginManager experiment API *)

Definition ALLOWED_REALMS : list string :=
  ["Seafile FileLink"; "Seafile FileLink Token"; "Seafile FileLink SharePW"].

(** [ALLOWED_REALMS.has(r)] *)
Definition allowed_realm (r : string) : bool :=
  existsb (String.eqb r) ALLOWED_REALMS.

(** [validateHostname(hostname)] *)
Definition validateHostname (h : value) : result string :=
  match h with
  | VStr s =>
      if negb (truthy h) then inl (Error "Hostname must be a non-empty string.")
      else
        let trimmed := drop_end is_slash (trim s) in
        match newURI pf trimmed with
        | None => inl (Error ("Invalid hostname: " +:+ trimmed))
        | Some uri =>
            if negb (String.eqb (scheme uri) "https")
               && negb (String.eqb (scheme uri) "http")
            then inl (Error "Only http(s) origins are supported.")
            else inr (prePath uri)
        end
  | _ => inl (Error "Hostname must be a non-empty string.")
  end.

(** [validateRealm(realm)] *)
Definition validateRealm (realm : value) : result string :=
  match realm with
  | VStr r =>
      if negb (truthy realm) then inl (Error "Realm must be a non-empty string.")
      else if negb (allowed_realm r)
      then inl (Error ("Realm '" +:+ r +:+ "' is not allowed. Allowed: "
                       +:+ String.concat ", " ALLOWED_REALMS))
      else inr r
  | _ => inl (Error "Realm must be a non-empty string.")
  end.

(** The logins a search for [origin] and [httpRealm] returns. *)
Definition login_matches (o realm : string) (l : LoginInfo) : bool :=
  String.eqb (li_origin l) o &&
  match li_httpRealm l with
  | Some r => String.eqb r realm
  | None => false
  end.

Definition lm_search (o realm : string) : Prog (list LoginInfo) :=
  Get (fun s =>
    Put (lm_apply (LmSearch o realm) (fun l => l) s)
        (Ret (List.filter (login_matches o realm) (logins s)))).

(** [lm.searchLoginsAsync(matchData)] and [lm.searchLogins(matchData)] throw
    when the service lacks the method; [lm.findLogins(origin, null, realm)]
    is always there. *)
Definition lm_searchLoginsAsync (o realm : string) : Prog (list LoginInfo) :=
  if has_searchLoginsAsync pf then lm_search o realm
  else Throw (TypeError "lm.searchLoginsAsync is not a function").

Definition lm_searchLogins (o realm : string) : Prog (list LoginInfo) :=
  if has_searchLogins pf then lm_search o realm
  else Throw (TypeError "lm.searchLogins is not a function").

Definition lm_findLogins (o realm : string) : Prog (list LoginInfo) :=
  lm_search o realm.

(** [lm.removeLogin(login)]: the stored login equal to [login] goes. *)
Definition lm_removeLogin (login : LoginInfo) : Prog unit :=
  modify (lm_apply (LmRemove login)
            (List.filter (fun l => negb (bool_decide (l = login))))).

(** [lm.addLoginAsync(login)] *)
Definition lm_addLoginAsync (login : LoginInfo) : Prog unit :=
  modify (lm_apply (LmAdd login) (fun l => (l ++ [login])%list)).

(** [findLoginsForRealm(lm, origin, safeRealm)] *)
Definition findLoginsForRealm (o safeRealm : string) : Prog (list LoginInfo) :=
  try_catch (lm_searchLoginsAsync o safeRealm)
    (fun _ => try_catch (lm_searchLogins o safeRealm)
       (fun _ => lm_findLogins o safeRealm)).

(** The loop [for (const login of existing) if (login.username === username)
    lm.removeLogin(login)]. *)
Fixpoint remove_existing (existing : list LoginInfo) (username : string)
    : Prog unit :=
  match existing with
  | [] => Ret tt
  | login :: r =>
      (if String.eqb (li_username login) username
       then lm_removeLogin login else Ret tt) ;;;
      remove_existing r username
  end.

(** The loop [for (const login of logins) lm.removeLogin(login)]. *)
Fixpoint remove_all (l : list LoginInfo) : Prog unit :=
  match l with
  | [] => Ret tt
  | login :: r => lm_removeLogin login ;;; remove_all r
  end.

(** [loginManager.saveCredentials(hostname, realm, username, password)] *)
Definition saveCredentials (h realm username password : value) : Prog bool :=
  o <- lift (validateHostname h) ;;
  safeRealm <- lift (validateRealm realm) ;;
  match username with
  | VStr u =>
      if negb (truthy username)
      then Throw (Error "Username must be a non-empty string.")
      else
        match password with
        | VStr p =>
            existing <- findLoginsForRealm o safeRealm ;;
            remove_existing existing u ;;;
            lm_addLoginAsync {| li_origin := o; li_formActionOrigin := None;
                                li_httpRealm := Some safeRealm;
                                li_username := u; li_password := p |} ;;;
            Ret true
        | _ => Throw (Error "Password must be a string.")
        end
  | _ => Throw (Error "Username must be a non-empty string.")
  end.

(** [loginManager.getCredentials(hostname, realm)]; [None] is [null]. *)
Definition getCredentials (h realm : value) : Prog (option (string * string)) :=
  o <- lift (validateHostname h) ;;
  safeRealm <- lift (validateRealm realm) ;;
  found <- findLoginsForRealm o safeRealm ;;
  match found with
  | [] => Ret None
  | l :: _ => Ret (Some (li_username l, li_password l))
  end.

(** [loginManager.removeCredentials(hostname, realm)] *)
Definition removeCredentials (h realm : value) : Prog bool :=
  o <- lift (validateHostname h) ;;
  safeRealm <- lift (validateRealm realm) ;;
  found <- findLoginsForRealm o safeRealm ;;
  remove_all found ;;;
  Ret true.

(** ** background.js: secrets, configuration and sessions *)

(** [saveSecret(serverUrl, realm, key, value)] *)
Definition saveSecret (server realm key : string) (v : value) : Prog unit :=
  match v with
  | VStr s =>
      if negb (truthy v) || (String.length s =? 0)%nat then Ret tt
      else saveCredentials (VStr server) (VStr realm) (VStr key) v ;;; Ret tt
  | _ => Ret tt
  end.

(** [getSecret(serverUrl, realm)]; [None] is [null]. *)
Definition getSecret (server realm : string) : Prog (option string) :=
  r <- getCredentials (VStr server) (VStr realm) ;;
  match r with
  | Some (_, p) => Ret (Some p)
  | None => Ret None
  end.

(** [loadAccountConfig(accountId)]; [None] is [null]. *)
Definition loadAccountConfig (accountId : string) : Prog (option AccountConfig) :=
  Get (fun s => Ret (storage s !! ("account_" +:+ accountId))).

(** First tier of [getAuthenticatedAPI]: the instance cached in memory.
    [Some api] stands for [return api]; on [None] the function goes on. *)
Definition cached_session (accountId : string) : Prog (option SeafileAPI) :=
  Get (fun s =>
    match apiCache s !! accountId with
    | Some api =>
        r <- try_catch
               (alive <- ping api ;; Ret (if alive then Some api else None))
               (fun _ => Ret None) ;;
        match r with
        | Some a => Ret (Some a)
        | None => modify (set_apiCache (delete accountId)) ;;; Ret None
        end
    | None => Ret None
    end).

(** Second tier: the token kept by the password manager. *)
Definition stored_token_session (accountId server : string)
    : Prog (option SeafileAPI) :=
  storedToken <- getSecret server REALMS_TOKEN ;;
  match storedToken with
  | Some t =>
      if truthy (VStr t) then
        api0 <- lift (new_SeafileAPI (VStr server)) ;;
        let api := {| serverUrl := serverUrl api0; token := VStr t |} in
        try_catch
          (alive <- ping api ;;
           if alive
           then modify (set_apiCache (insert accountId api)) ;;; Ret (Some api)
           else Ret None)
          (fun _ => Ret None)
      else Ret None
  | None => Ret None
  end.

(** Third tier: authentication with the stored password. *)
Definition reauthenticate (accountId server : string) : Prog SeafileAPI :=
  credentials <- getCredentials (VStr server) (VStr REALMS_PASSWORD) ;;
  match credentials with
  | None => Throw (seafileError "NO_CREDENTIALS" "errorNoCredentials" [])
  | Some (username, password) =>
      api0 <- lift (new_SeafileAPI (VStr server)) ;;
      api <- authenticate api0 username password VNull ;;
      saveSecret server REALMS_TOKEN username (token api) ;;;
      modify (set_apiCache (insert accountId api)) ;;;
      Ret api
  end.

(** [getAuthenticatedAPI(accountId)] *)
Definition getAuthenticatedAPI (accountId : string) : Prog SeafileAPI :=
  config <- loadAccountConfig accountId ;;
  match config with
  | None => Throw (seafileError "NO_CONFIG" "errorNoConfig" [])
  | Some c =>
      if negb (truthy (cfg_serverUrl c))
      then Throw (seafileError "NO_CONFIG" "errorNoConfig" [])
      else
        server <- lift (validateServerUrl (cfg_serverUrl c)) ;;
        r1 <- cached_session accountId ;;
        match r1 with
        | Some api => Ret api
        | None =>
            r2 <- stored_token_session accountId server ;;
            match r2 with
            | Some api => Ret api
            | None => reauthenticate accountId server
            end
        end
  end.

(** ** background.js: cloudFile event handlers *)

(** [templateInfo] *)
Record TemplateInfo : Type := {
  service_url : value;
  download_expiry_date : option Z;         (* the time stamp, when present *)
  download_password_protected : bool;      (* [true] when present *)
}.

(** What the upload listener returns: [{ url, templateInfo }] or
    [{ error }]. *)
Inductive UploadResult : Type :=
| UploadUrl (link : value) (templateInfo : TemplateInfo)
| UploadError (error : string).

(** The [try] block of the [onFileUpload] listener; [now] is the clock
    reading [new Date()] returns. *)
Definition upload_steps (now : Z) (accountId : string) (id : Z)
    (name data : string) : Prog UploadResult :=
  api <- getAuthenticatedAPI accountId ;;
  config <- loadAccountConfig accountId ;;
  match config with
  | None => Throw (TypeError "config is null")
  | Some config =>
      let repoId := cfg_repoId config in
      let uploadDir :=
        sanitizePath (if truthy (cfg_uploadDir config) then cfg_uploadDir config
                      else VStr "/Thunderbird-Attachments") in
      ensureDirectory api repoId (VStr uploadDir) ;;;
      uploadLink <- getUploadLink api repoId (VStr uploadDir) ;;
      uploadFile api uploadLink (VStr uploadDir) name data None ;;;
      let filePath := sanitizePath (VStr (uploadDir +:+ "/" +:+ name)) in
      server <- lift (validateServerUrl (cfg_serverUrl config)) ;;
      sharePw <- getSecret server REALMS_SHARE_PW ;;
      let sharePw_set :=
        match sharePw with Some p => truthy (VStr p) | None => false end in
      let expire_set :=
        truthy (VNum (cfg_shareLinkExpireDays config))
        && (0 <? cfg_shareLinkExpireDays config) in
      let shareLinkOptions :=
        {| opt_password :=
             match sharePw with
             | Some p => if sharePw_set then VStr p else VUndefined
             | None => VUndefined
             end;
           opt_expireDays :=
             if expire_set then Some (cfg_shareLinkExpireDays config)
             else None |} in
      shareLink <- createShareLink api repoId (VStr filePath) shareLinkOptions ;;
      shareLinkToken <- lift (get_prop shareLink "token") ;;
      modify (set_uploadedFiles
                (insert id {| up_repoId := repoId; up_filePath := filePath;
                              up_accountId := accountId;
                              up_shareLinkToken := shareLinkToken |})) ;;;
      let templateInfo :=
        {| service_url := cfg_serverUrl config;
           download_expiry_date :=
             if expire_set
             then Some (addDays pf now (cfg_shareLinkExpireDays config))
             else None;
           download_password_protected := sharePw_set |} in
      link <- lift (get_prop shareLink "link") ;;
      Ret (UploadUrl link templateInfo)
  end.

(** The [onFileUpload] listener. *)
Definition onFileUpload (now : Z) (accountId : string) (id : Z)
    (name data : string) : Prog UploadResult :=
  try_catch (upload_steps now accountId id name data)
    (fun error =>
       Ret (UploadError
              (if truthy (VStr (exn_message error)) then exn_message error
               else getMessage pf "errorUploadGeneric" []))).

(** The [onFileUploadAbort] listener. *)
Definition onFileUploadAbort (accountId : string) (fileId : Z) : Prog unit :=
  modify (set_uploadedFiles (delete fileId)).

(** The [onFileDeleted] listener. *)
Definition onFileDeleted (accountId : string) (fileId : Z) : Prog unit :=
  Get (fun s =>
    match uploadedFiles s !! fileId with
    | None => Ret tt
    | Some fileInfo =>
        try_finally
          (try_catch
             (api <- getAuthenticatedAPI accountId ;;
              deleteFile api (up_repoId fileInfo) (VStr (up_filePath fileInfo)) ;;;
              Ret tt)
             (fun _ => Ret tt))
          (modify (set_uploadedFiles (delete fileId)))
    end).

End Program.

(** ** The rest of background.js and of the experiment API *)

Definition set_storage (f : gmap string AccountConfig -> gmap string AccountConfig)
    (s : State) : State :=
  {| storage := f (storage s); apiCache := apiCache s;
     uploadedFiles := uploadedFiles s; logins := logins s;
     lm_calls := lm_calls s |}.

Section Management.

Variable pf : Platform.

(** [api.listRepos()] *)
Definition listRepos (api : SeafileAPI) : Prog value :=
  resp <- _request api "GET" "/api/v2.1/repos/" None None ;;
  if negb (ok resp)
  then Throw (seafileError pf "LIST_REPOS_FAILED" "errorListRepos" [])
  else
    data <- response_json resp ;;
    repos <- lift (get_prop data "repos") ;;
    Ret (if truthy repos then repos else data).

(** [api.getAccountInfo()] *)
Definition getAccountInfo (api : SeafileAPI) : Prog value :=
  resp <- _request api "GET" "/api2/account/info/" None None ;;
  if negb (ok resp)
  then Throw (seafileError pf "ACCOUNT_INFO_FAILED" "errorAccountInfo" [])
  else response_json resp.

(** [removeSecret(serverUrl, realm)] *)
Definition removeSecret (server realm : string) : Prog unit :=
  removeCredentials pf (VStr server) (VStr realm) ;;; Ret tt.

(** The loop [for (const realm of ALLOWED_REALMS)] of [removeAllForHost]. *)
Fixpoint remove_realms (o : string) (realms : list string) : Prog unit :=
  match realms with
  | [] => Ret tt
  | realm :: r =>
      found <- findLoginsForRealm pf o realm ;;
      remove_all found ;;;
      remove_realms o r
  end.

(** [loginManager.removeAllForHost(hostname)] *)
Definition removeAllForHost (h : value) : Prog bool :=
  o <- lift (validateHostname pf h) ;;
  remove_realms o ALLOWED_REALMS ;;;
  Ret true.

(** The [onAccountDeleted] listener. *)
Definition onAccountDeleted (accountId : string) : Prog unit :=
  config <- loadAccountConfig accountId ;;
  (match config with
   | Some c =>
       if truthy (cfg_serverUrl c)
       then try_catch (removeAllForHost (cfg_serverUrl c) ;;; Ret tt)
                      (fun _ => Ret tt)
       else Ret tt
   | None => Ret tt
   end) ;;;
  modify (set_storage (delete ("account_" +:+ accountId))) ;;;
  modify (set_apiCache (delete accountId)).

(** *** Messages from the management page *)

(** [repos.filter((r) => !r.encrypted && r.permission === "rw")] on the
    elements of an array. *)
Fixpoint filter_writable (repos : list value) : result (list value) :=
  match repos with
  | [] => inr []
  | r :: rest =>
      match get_prop r "encrypted" with
      | inl e => inl e
      | inr encrypted =>
          match (if negb (truthy encrypted) then get_prop r "permission"
                 else inr VUndefined) with
          | inl e => inl e
          | inr permission =>
              let keep :=
                negb (truthy encrypted) &&
                match permission with
                | VStr p => String.eqb p "rw"
                | _ => false
                end in
              match filter_writable rest with
              | inl e => inl e
              | inr kept => inr (if keep then r :: kept else kept)
              end
          end
      end
  end.

(** [(r) => ({ id: r.repo_id, name: r.repo_name || r.name })] *)
Definition repo_entry (r : value) : result value :=
  match get_prop r "repo_id" with
  | inl e => inl e
  | inr id =>
      match get_prop r "repo_name" with
      | inl e => inl e
      | inr repo_name =>
          match (if truthy repo_name then inr repo_name
                 else get_prop r "name") with
          | inl e => inl e
          | inr name => inr (VObj [("id", id); ("name", name)])
          end
      end
  end.

Fixpoint map_entries (repos : list value) : result (list value) :=
  match repos with
  | [] => inr []
  | r :: rest =>
      match repo_entry r with
      | inl e => inl e
      | inr x =>
          match map_entries rest with
          | inl e => inl e
          | inr xs => inr (x :: xs)
          end
      end
  end.

(** [repos.filter(...).map(...)]; anything but an array has no [filter]. *)
Definition writable_repos (repos : value) : result value :=
  match repos with
  | VArr l =>
      match filter_writable l with
      | inl e => inl e
      | inr kept =>
          match map_entries kept with
          | inl e => inl e
          | inr entries => inr (VArr entries)
          end
      end
  | _ => inl (TypeError "repos.filter is not a function")
  end.

(** [{ success: false, error: error.message, code: error.code }] *)
Definition failure_with_code (e : exn) : value :=
  VObj [("success", VBool false); ("error", VStr (exn_message e));
        ("code", match exn_code e with
                 | Some c => VStr c
                 | None => VUndefined
                 end)].

(** [{ success: false, error: error.message }] *)
Definition failure (e : exn) : value :=
  VObj [("success", VBool false); ("error", VStr (exn_message e))].

(** The [testConnection] case of the message listener, for a message whose
    [username] and [password] are strings. *)
Definition testConnection (server : value) (username password : string)
    (otpToken : value) : Prog value :=
  try_catch
    (serverUrl' <- lift (validateServerUrl pf server) ;;
     api0 <- lift (new_SeafileAPI pf (VStr serverUrl')) ;;
     api <- authenticate pf api0 username password
              (if truthy otpToken then otpToken else VNull) ;;
     accountInfo <- getAccountInfo api ;;
     repos <- listRepos api ;;
     email <- lift (get_prop accountInfo "email") ;;
     usage <- lift (get_prop accountInfo "usage") ;;
     total <- lift (get_prop accountInfo "total") ;;
     entries <- lift (writable_repos repos) ;;
     Ret (VObj [("success", VBool true); ("email", email); ("usage", usage);
                ("total", total); ("repos", entries); ("token", token api)]))
    (fun error => Ret (failure_with_code error)).

(** The [config] of a [saveConfig] message, for a message whose [username],
    [repoId] and [repoName] are strings. *)
Record ConfigInput : Type := {
  in_serverUrl : value;
  in_username : string;
  in_password : value;
  in_apiToken : value;
  in_repoId : string;
  in_repoName : string;
  in_uploadDir : value;
  in_shareLinkPassword : value;
  in_shareLinkExpireDays : value;
}.

(** [storageConfig] in the [saveConfig] case. *)
Definition storageConfig (server : string) (config : ConfigInput)
    : AccountConfig :=
  {| cfg_serverUrl := VStr server;
     cfg_username := in_username config;
     cfg_repoId := in_repoId config;
     cfg_repoName := in_repoName config;
     cfg_uploadDir :=
       VStr (sanitizePath (if truthy (in_uploadDir config)
                           then in_uploadDir config
                           else VStr "/Thunderbird-Attachments"));
     cfg_shareLinkExpireDays :=
       validatePositiveInt (in_shareLinkExpireDays config) 365 0;
     cfg_hasShareLinkPassword := truthy (in_shareLinkPassword config) |}.

(** The [saveConfig] case of the message listener; [updateAccount] is how
    the call [messenger.cloudFile.updateAccount(accountId, { configured:
    true })] ends. *)
Definition saveConfig (updateAccount : result unit) (accountId : string)
    (config : ConfigInput) : Prog value :=
  try_catch
    (server <- lift (validateServerUrl pf (in_serverUrl config)) ;;
     saveSecret pf server REALMS_PASSWORD (in_username config)
                (in_password config) ;;;
     (if truthy (in_apiToken config)
      then saveSecret pf server REALMS_TOKEN (in_username config)
                      (in_apiToken config)
      else Ret tt) ;;;
     (if truthy (in_shareLinkPassword config)
      then saveSecret pf server REALMS_SHARE_PW (in_username config)
                      (in_shareLinkPassword config)
      else removeSecret server REALMS_SHARE_PW) ;;;
     modify (set_storage (insert ("account_" +:+ accountId)
                                 (storageConfig server config))) ;;;
     modify (set_apiCache (delete accountId)) ;;;
     lift updateAccount ;;;
     Ret (VObj [("success", VBool true)]))
    (fun error => Ret (failure error)).

(** What [loadConfig] returns besides [null]: the stored configuration
    with the two secrets added. *)
Record LoadedConfig : Type := {
  loaded : AccountConfig;
  loaded_password : string;
  loaded_shareLinkPassword : string;
}.

(** The [loadConfig] case of the message listener; [None] is [null]. *)
Definition loadConfig (accountId : string) : Prog (option LoadedConfig) :=
  try_catch
    (config <- loadAccountConfig accountId ;;
     match config with
     | None => Ret None
     | Some c =>
         server <- lift (validateServerUrl pf (cfg_serverUrl c)) ;;
         credentials <- getCredentials pf (VStr server) (VStr REALMS_PASSWORD) ;;
         sharePw <- getSecret pf server REALMS_SHARE_PW ;;
         Ret (Some {| loaded := c;
                      loaded_password :=
                        match credentials with
                        | Some (_, p) => p
                        | None => ""
                        end;
                      loaded_shareLinkPassword :=
                        match sharePw with
                        | Some p => if truthy (VStr p) then p else ""
                        | None => ""
                        end |})
     end)
    (fun _ => Ret None).

(** The [listRepos] case of the message listener. *)
Definition listRepos_message (server tok : value) : Prog value :=
  try_catch
    (serverUrl' <- lift (validateServerUrl pf server) ;;
     api0 <- lift (new_SeafileAPI pf (VStr serverUrl')) ;;
     let api := {| serverUrl := serverUrl api0; token := tok |} in
     repos <- listRepos api ;;
     entries <- lift (writable_repos repos) ;;
     Ret (VObj [("success", VBool true); ("repos", entries)]))
    (fun error => Ret (failure error)).

(** A message the listener receives, by its [type]; [OtherMessage] is
    [null] or a message whose [type] is not among [ALLOWED_ACTIONS]. *)
Inductive message : Type :=
| TestConnection (server : value) (username password : string) (otpToken : value)
| SaveConfig (accountId : string) (config : ConfigInput)
| LoadConfig (accountId : string)
| ListRepos (server tok : value)
| OtherMessage.

(** What the listener answers. *)
Inductive reply : Type :=
| ReplyNull
| ReplyObject (v : value)
| ReplyConfig (c : LoadedConfig).

(** The [runtime.onMessage] listener; [runtime_id] is
    [messenger.runtime.id]. *)
Definition onMessage (runtime_id : string) (updateAccount : result unit)
    (m : message) (sender_id : string) : Prog reply :=
  if negb (String.eqb sender_id runtime_id) then Ret ReplyNull
  else
    match m with
    | OtherMessage => Ret ReplyNull
    | TestConnection server username password otpToken =>
        v <- testConnection server username password otpToken ;;
        Ret (ReplyObject v)
    | SaveConfig accountId config =>
        v <- saveConfig updateAccount accountId config ;; Ret (ReplyObject v)
    | LoadConfig accountId =>
        r <- loadConfig accountId ;;
        Ret (match r with Some c => ReplyConfig c | None => ReplyNull end)
    | ListRepos server tok =>
        v <- listRepos_message server tok ;; Ret (ReplyObject v)
    end.

End Management.

(** ** A reference platform *)

(** A platform on which the program can be run: a URL parser for the
    [http] and [https] schemes with ASCII host names, the message catalogue
    reduced to the message keys, and calendar days of 24 hours.  Inputs the
    parser does not cover (IPv6 literals, percent-encoded or non-ASCII
    hosts) are reported as malformed. *)
Module Reference.

Definition in_range (lo hi : nat) (c : ascii) : bool :=
  (lo <=? nat_of_ascii c)%nat && (nat_of_ascii c <=? hi)%nat.

Definition is_upper : ascii -> bool := in_range 65 90.
Definition is_alpha (c : ascii) : bool := is_upper c || in_range 97 122 c.

Definition lower (c : ascii) : ascii :=
  if is_upper c then ascii_of_nat (nat_of_ascii c + 32) else c.

Fixpoint map_string (f : ascii -> ascii) (s : string) : string :=
  match s with
  | String c r => String (f c) (map_string f r)
  | EmptyString => EmptyString
  end.

Fixpoint take_while (p : ascii -> bool) (s : string) : string :=
  match s with
  | String c r => if p c then String c (take_while p r) else EmptyString
  | EmptyString => EmptyString
  end.

Fixpoint forall_string (p : ascii -> bool) (s : string) : bool :=
  match s with
  | String c r => p c && forall_string p r
  | EmptyString => true
  end.

Definition one_of (chars : string) (c : ascii) : bool :=
  existsb (Ascii.eqb c) (list_ascii_of_string chars).

Definition is_scheme_char (c : ascii) : bool :=
  is_alpha c || is_digit c || one_of "+-." c.

(** The scheme in lower case and what follows its colon. *)
Definition parse_scheme (s : string) : option (string * string) :=
  if head_is is_alpha s then
    match drop_while is_scheme_char s with
    | String c rest =>
        if Ascii.eqb c ":"
        then Some (map_string lower (take_while is_scheme_char s), rest)
        else None
    | EmptyString => None
    end
  else None.

(** Leading and trailing C0 controls and spaces are ignored. *)
Definition is_c0_or_space : ascii -> bool := in_range 0 32.

Definition forbidden_host_char (c : ascii) : bool :=
  in_range 0 32 c || in_range 127 255 c || one_of "#%/:<>?@[\]^|" c.

Definition ends_authority : ascii -> bool := one_of "/\?#".

(** What follows the last [@], if there is one. *)
Fixpoint after_last_at (s : string) : option string :=
  match s with
  | EmptyString => None
  | String c r =>
      match after_last_at r with
      | Some t => Some t
      | None => if Ascii.eqb c "@" then Some r else None
      end
  end.

(** The user information with its [@], or nothing. *)
Definition userinfo_of (s : string) : string :=
  match after_last_at s with
  | Some t => String.substring 0 (String.length s - String.length t) s
  | None => EmptyString
  end.

Definition default_port (sch : string) : string :=
  if String.eqb sch "http" then "80" else "443".

(** The port in canonical decimal, empty for none or the default one;
    [None] for a malformed or too large port. *)
Definition parse_port (sch port_part : string) : option string :=
  match port_part with
  | EmptyString => Some EmptyString
  | String _ digits =>
      if forall_string is_digit digits then
        match drop_while (Ascii.eqb "0") digits with
        | EmptyString =>
            Some (if (String.length digits =? 0)%nat then "" else "0")
        | canonical =>
            if (String.length canonical <=? 5)%nat
               && (parse_digits canonical 0 <=? 65535)
            then Some (if String.eqb canonical (default_port sch)
                       then "" else canonical)
            else None
        end
      else None
  end.

Record parts : Type := {
  p_scheme : string;
  p_userinfo : string;
  p_host : string;
  p_port : string;
}.

Definition parse (input : string) : option parts :=
  match parse_scheme (drop_end is_c0_or_space (drop_while is_c0_or_space input)) with
  | None => None
  | Some (sch, rest) =>
      if String.eqb sch "https" || String.eqb sch "http" then
        let authority :=
          take_while (fun c => negb (ends_authority c))
                     (drop_while (one_of "/\") rest) in
        let hostport :=
          match after_last_at authority with
          | Some t => t
          | None => authority
          end in
        let host :=
          map_string lower (take_while (fun c => negb (Ascii.eqb c ":")) hostport) in
        if (String.length host =? 0)%nat
           || negb (forall_string (fun c => negb (forbidden_host_char c)) host)
        then None
        else
          match parse_port sch (drop_while (fun c => negb (Ascii.eqb c ":")) hostport) with
          | None => None
          | Some p =>
              Some {| p_scheme := sch; p_userinfo := userinfo_of authority;
                      p_host := host; p_port := p |}
          end
      else Some {| p_scheme := sch; p_userinfo := ""; p_host := ""; p_port := "" |}
  end.

Definition is_http (p : parts) : bool :=
  String.eqb (p_scheme p) "https" || String.eqb (p_scheme p) "http".

Definition host_port (p : parts) : string :=
  p_host p +:+ (if (String.length (p_port p) =? 0)%nat then ""
                else ":" +:+ p_port p).

Definition parse_URL (input : string) : option url :=
  match parse input with
  | None => None
  | Some p =>
      Some {| protocol := p_scheme p +:+ ":";
              hostname := p_host p;
              port := p_port p;
              origin := if is_http p
                        then p_scheme p +:+ "://" +:+ host_port p
                        else "null" |}
  end.

Definition parse_URI (input : string) : option nsIURI :=
  match parse input with
  | None => None
  | Some p =>
      Some {| scheme := p_scheme p;
              prePath := if is_http p
                         then p_scheme p +:+ "://" +:+ p_userinfo p
                              +:+ host_port p
                         else p_scheme p +:+ ":" |}
  end.

Definition hex_digit (n : nat) : ascii :=
  ascii_of_nat (if (n <? 10)%nat then 48 + n else 55 + n).

Definition unreserved (c : ascii) : bool :=
  is_alpha c || is_digit c || one_of "-_.!~*'()" c.

Fixpoint percent_encode (s : string) : string :=
  match s with
  | EmptyString => EmptyString
  | String c r =>
      if unreserved c then String c (percent_encode r)
      else String "%" (String (hex_digit (nat_of_ascii c / 16))
                         (String (hex_digit (nat_of_ascii c mod 16))
                            (percent_encode r)))
  end.

Definition platform : Platform :=
  {| URL := parse_URL;
     newURI := parse_URI;
     encodeURIComponent := percent_encode;
     getMessage := fun key args => String.concat " " (key :: args);
     addDays := fun now d => now + d * 86400000;
     has_searchLoginsAsync := true;
     has_searchLogins := true |}.

End Reference.

(** ** The requests of the API client *)

(** The request [_request] sends, for each kind of body. *)
Definition request_of (api : SeafileAPI) (m path : string) (b : body)
    (content_type : list (string * string)) : request :=
  {| method := m; target := serverUrl api +:+ path;
     headers := [("Authorization", "Token " +:+ ToString (token api));
                 ("Accept", "application/json")] ++ content_type;
     payload := b; signal := None |}.

Definition ping_request (api : SeafileAPI) : request :=
  request_of api "GET" "/api2/auth/ping/" NoBody [].

(** Whether the liveness probe of [api] finds the session alive: the fetch
    settles with a response whose status is in the 2xx range. *)
Definition probe_alive (w : World) (tr : list request) (api : SeafileAPI)
    : bool :=
  match w tr (ping_request api) with
  | NetworkError => false
  | Response resp => ok resp
  end.

(** The request for an upload ticket. *)
Definition upload_link_request (pf : Platform) (api : SeafileAPI)
    (repoId : string) (parentDir : value) : request :=
  request_of api "GET"
    ("/api2/repos/" +:+ encodeURIComponent pf repoId +:+ "/upload-link/?p="
     +:+ encodeURIComponent pf (sanitizePath parentDir))
    NoBody [].

(** The text [getUploadLink] takes for the upload URL in a decoded
    response body. *)
Definition link_text (link : value) : string :=
  match link with
  | VStr s => s
  | _ => ToString link
  end.

(** A state with nothing stored. *)
Definition empty_state : State :=
  {| storage := ∅; apiCache := ∅; uploadedFiles := ∅; logins := [];
     lm_calls := [] |}.

(** ** The content of the password manager *)

(** The logins stored for an origin and realm, in order. *)
Definition found (o realm : string) (s : State) : list LoginInfo :=
  List.filter (login_matches o realm) (logins s).

(** The state once a search has been recorded. *)
Definition searched (o realm : string) (s : State) : State :=
  lm_apply (LmSearch o realm) (fun l => l) s.

(** The login [saveCredentials] creates. *)
Definition new_login (o realm username password : string) : LoginInfo :=
  {| li_origin := o; li_formActionOrigin := None; li_httpRealm := Some realm;
     li_username := username; li_password := password |}.

(** A login stored for the given origin, realm and user name. *)
Definition same_entry (o realm username : string) (l : LoginInfo) : bool :=
  login_matches o realm l && String.eqb (li_username l) username.

(** What [getCredentials] answers from the logins found. *)
Definition first_credentials (l : list LoginInfo) : option (string * string) :=
  match l with
  | [] => None
  | x :: _ => Some (li_username x, li_password x)
  end.

(** Two states that differ at most in the password manager. *)
Definition same_maps (s s' : State) : Prop :=
  storage s' = storage s /\ apiCache s' = apiCache s /\
  uploadedFiles s' = uploadedFiles s.

(** The message of an error thrown by [validateHostname] or
    [validateRealm]. *)
Definition validation_message (m : string) : Prop :=
  m = "Hostname must be a non-empty string." \/
  (exists t, m = "Invalid hostname: " +:+ t) \/
  m = "Only http(s) origins are supported." \/
  m = "Realm must be a non-empty string." \/
  (exists r, m = "Realm '" +:+ r +:+ "' is not allowed. Allowed: "
                 +:+ String.concat ", " ALLOWED_REALMS).

(** ** Examples *)

Definition example_api : SeafileAPI :=
  {| serverUrl := "https://cloud.example.com"; token := VStr "0123abcd" |}.

(** A network that is down. *)
Definition offline : World := fun _ _ => NetworkError.

(** ** What the program relies on in the platform's URL parser *)

(** The origin of an [http] or [https] URL is a text that [trim] and the
    removal of trailing slashes leave alone, and parsing it gives a URL of
    the same protocol and origin (URL Standard: the serialization of a tuple
    origin is scheme, [://], host and, unless it is the default one, the
    port). *)
Definition origin_stable (pf : Platform) : Prop :=
  forall (s : string) (u : url),
    URL pf s = Some u ->
    protocol u = "https:" \/ protocol u = "http:" ->
    origin u <> "" /\
    trim (origin u) = origin u /\
    drop_end is_slash (origin u) = origin u /\
    exists u', URL pf (origin u) = Some u' /\
               protocol u' = protocol u /\ origin u' = origin u.

(** ** The tiers of session acquisition *)

(** The request [authenticate] sends without a one-time code. *)
Definition auth_request (server username password : string) : request :=
  {| method := "POST"; target := server +:+ "/api2/auth-token/";
     headers := [("Content-Type", "application/x-www-form-urlencoded");
                 ("Accept", "application/json")];
     payload := FormBody [("username", username); ("password", password)];
     signal := None |}.

(** A session of [server] with bearer token [t]. *)
Definition session (server t : string) : SeafileAPI :=
  {| serverUrl := server; token := VStr t |}.

(** No instance is cached for the account, or the cached one fails its
    probe. *)
Definition cache_miss (accountId : string) (w : World) (s : State)
    (tr : list request) : bool :=
  match apiCache s !! accountId with
  | Some api => negb (probe_alive w tr api)
  | None => true
  end.

(** The state and the requests after a first tier that has missed: the
    dead instance is evicted and its probe is on record. *)
Definition after_cache_miss (accountId : string) (s : State)
    (tr : list request) : State * list request :=
  match apiCache s !! accountId with
  | Some api => (set_apiCache (delete accountId) s, ping_request api :: tr)
  | None => (s, tr)
  end.

(** The token stored for origin [o]: the secret of the first login of the
    token realm. *)
Definition stored_token (o : string) (s : State) : option string :=
  snd <$> first_credentials (found o REALMS_TOKEN s).

(** No usable token is stored, or the session built from it fails its
    probe. *)
Definition token_miss (server o : string) (w : World) (s : State)
    (tr : list request) : bool :=
  match stored_token o s with
  | Some t =>
      if truthy (VStr t) then negb (probe_alive w tr (session server t))
      else true
  | None => true
  end.

(** The state and the requests after a second tier that has missed. *)
Definition after_token_miss (server o : string) (s : State)
    (tr : list request) : State * list request :=
  (searched o REALMS_TOKEN s,
   match stored_token o s with
   | Some t =>
       if truthy (VStr t) then ping_request (session server t) :: tr else tr
   | None => tr
   end).

(** The requests to the authentication endpoint among [tr]. *)
Definition auth_calls (tr : list request) : list request :=
  List.filter (fun r => String.eqb (method r) "POST"
                        && includes (target r) "/api2/auth-token/") tr.

(** ** The steps of an upload *)

(** [uploadDir] in the upload listener. *)
Definition upload_dir (c : AccountConfig) : string :=
  sanitizePath (if truthy (cfg_uploadDir c) then cfg_uploadDir c
                else VStr "/Thunderbird-Attachments").

(** [filePath] in the upload listener. *)
Definition file_path (c : AccountConfig) (name : string) : string :=
  sanitizePath (VStr (upload_dir c +:+ "/" +:+ name)).

(** [shareLinkOptions] in the upload listener, for the share password read
    from the password manager. *)
Definition share_options (c : AccountConfig) (sharePw : option string)
    : ShareLinkOptions :=
  {| opt_password :=
       match sharePw with
       | Some p => if truthy (VStr p) then VStr p else VUndefined
       | None => VUndefined
       end;
     opt_expireDays :=
       if truthy (VNum (cfg_shareLinkExpireDays c))
          && (0 <? cfg_shareLinkExpireDays c)
       then Some (cfg_shareLinkExpireDays c) else None |}.

(** The [error] the upload listener reports for a caught exception. *)
Definition error_text (pf : Platform) (e : exn) : string :=
  if truthy (VStr (exn_message e)) then exn_message e
  else getMessage pf "errorUploadGeneric" [].

(** The request that creates a share link. *)
Definition share_link_request (api : SeafileAPI) (repoId : string)
    (path : value) (options : ShareLinkOptions) : request :=
  request_of api "POST" "/api/v2.1/share-links/"
    (JsonBody (VObj (shareLinkBody repoId path options)))
    [("Content-Type", "application/json")].

(** The request that uploads the file. *)
Definition upload_request (api : SeafileAPI) (uploadLink : string)
    (parentDir : value) (file_name file_data : string)
    (abortSignal : option nat) : request :=
  {| method := "POST"; target := uploadLink +:+ "?ret-json=1";
     headers := [("Authorization", "Token " +:+ ToString (token api))];
     payload := MultipartBody [("parent_dir", sanitizePath parentDir);
                               ("replace", "1"); ("ret-json", "1")]
                              file_name file_data;
     signal := abortSignal |}.

(** A program that leaves the table of uploaded files as it finds it. *)
Definition keeps_uploads {A : Type} (p : Prog A) : Prop :=
  forall (w : World) (s : State) (tr : list request),
    uploadedFiles (run p w s tr).1.2 = uploadedFiles s.

(** ** A scenario *)

(** An account configured for [https://cloud.example.com], its password in
    the password manager, nothing cached and no token stored. *)
Definition example_config : AccountConfig :=
  {| cfg_serverUrl := VStr "https://cloud.example.com";
     cfg_username := "alice";
     cfg_repoId := "lib1";
     cfg_repoName := "My Library";
     cfg_uploadDir := VStr "/Thunderbird-Attachments";
     cfg_shareLinkExpireDays := 7;
     cfg_hasShareLinkPassword := false |}.

Definition example_state : State :=
  {| storage := {[ "account_account1" := example_config ]};
     apiCache := ∅;
     uploadedFiles := ∅;
     logins := [new_login "https://cloud.example.com" REALMS_PASSWORD
                  "alice" "correct horse"];
     lm_calls := [] |}.

Definition json_response (code : Z) (v : value) : outcome :=
  Response {| status := code; json := Some v |}.

(** A server that accepts the password, knows the token [tok-1], and
    answers every other call with success. *)
Definition example_server : World := fun _ r =>
  if includes (target r) "/api2/auth-token/" then
    json_response 200 (VObj [("token", VStr "tok-1")])
  else if negb (existsb (fun h => String.eqb h.1 "Authorization"
                                  && String.eqb h.2 "Token tok-1")
                        (headers r)) then
    json_response 401 (VObj [("detail", VStr "Invalid token")])
  else if includes (target r) "/api2/auth/ping/" then
    json_response 200 (VStr "pong")
  else if includes (target r) "/upload-link/" then
    json_response 200 (VStr "https://cloud.example.com/seafhttp/upload-api/7c1f")
  else if includes (target r) "/api/v2.1/share-links/" then
    json_response 200 (VObj [("token", VStr "d41d8");
                             ("link", VStr "https://cloud.example.com/f/d41d8/")])
  else json_response 200 (VObj [("success", VBool true)]).

(** A server whose upload tickets point to another host. *)
Definition foreign_ticket_server : World := fun _ _ =>
  json_response 200 (VStr "https://files.example.net/seafhttp/upload-api/7c1f").

(** A password manager that holds two old tokens of [alice] and one of
    [bob]. *)
Definition crowded_state : State :=
  {| storage := ∅; apiCache := ∅; uploadedFiles := ∅;
     logins := [new_login "https://cloud.example.com" REALMS_TOKEN "alice" "old-1";
                new_login "https://cloud.example.com" REALMS_TOKEN "bob" "b-1";
                new_login "https://cloud.example.com" REALMS_TOKEN "alice" "old-2"];
     lm_calls := [] |}.

(** The upload of scenario B, with an abort event delivered while the
    fourth fetch of the listener, the upload itself, is in flight. *)
Definition aborted_upload : result UploadResult * State * list request :=
  run_with_event
    (onFileUpload Reference.platform 0 "account1" 42 "report.pdf" "0123456789")
    3 (onFileUploadAbort "account1" 42)
    example_server example_state [].

(** The delete event for the same file that follows it. *)
Definition delete_after_abort : result unit * State * list request :=
  run (onFileDeleted Reference.platform "account1" 42)
      example_server aborted_upload.1.2 aborted_upload.2.

(** ** The text of an origin *)

(** The characters of an origin past its scheme: those of a host name, the
    digits and the colon. *)
Definition origin_char (c : ascii) : bool :=
  negb (Reference.forbidden_host_char c) || Ascii.eqb c ":".

Definition canonical_port (sch p : string) : Prop :=
  p = "" \/
  (p <> "" /\ Reference.forall_string is_digit p = true /\
   Reference.parse_port sch (String ":" p) = Some p).

Definition port_suffix (p : string) : string :=
  if (String.length p =? 0)%nat then "" else ":" +:+ p.

(** ** Requests without an abort signal *)

Definition no_signal (tr : list request) : Prop :=
  Forall (fun r => signal r = None) tr.

(** A program none of whose requests carries an abort signal. *)
Definition unsignalled {A : Type} (p : Prog A) : Prop :=
  forall (w : World) (s : State) (tr : list request),
    no_signal tr -> no_signal (run p w s tr).2.

(** ** Clean paths *)

(** The last character exists and satisfies [p]. *)
Fixpoint last_is (p : ascii -> bool) (s : string) : bool :=
  match s with
  | EmptyString => false
  | String c r =>
      match r with
      | EmptyString => p c
      | String _ _ => last_is p r
      end
  end.

(** A path as [sanitizePath] produces them: it begins with a slash and has
    neither two dots nor two slashes in a row. *)
Definition clean_path (s : string) : Prop :=
  head_is is_slash s = true /\
  adjacent is_dot s = false /\ adjacent is_slash s = false.

(** The directory with the separator that ends it. *)
Definition with_separator (dir : string) : string :=
  if last_is is_slash dir then dir else dir +:+ "/".

(** ** More requests of the API client *)

(** The request that creates a directory. *)
Definition mkdir_request (pf : Platform) (api : SeafileAPI) (repoId : string)
    (path : value) : request :=
  request_of api "POST"
    ("/api/v2.1/repos/" +:+ encodeURIComponent pf repoId +:+ "/dir/?p="
     +:+ encodeURIComponent pf (sanitizePath path))
    (FormBody [("operation", "mkdir")])
    [("Content-Type", "application/x-www-form-urlencoded")].

(** The request [authenticate] sends with a one-time code. *)
Definition auth_request_otp (server username password otp : string) : request :=
  {| method := "POST"; target := server +:+ "/api2/auth-token/";
     headers := [("Content-Type", "application/x-www-form-urlencoded");
                 ("Accept", "application/json");
                 ("X-SEAFILE-OTP", otp)];
     payload := FormBody [("username", username); ("password", password)];
     signal := None |}.

(** The one-time code passes the check of [authenticate]: there is none
    (any falsy value), or it is a string of six digits. *)
Definition otp_accepted (otp : value) : bool :=
  match otp with
  | VStr t => negb (truthy otp) || six_digits t
  | _ => negb (truthy otp)
  end.

(** The header that carries the one-time code, when there is one. *)
Definition otp_header (otp : value) : list (string * string) :=
  match otp with
  | VStr t => if truthy otp then [("X-SEAFILE-OTP", t)] else []
  | _ => []
  end.

(** The request [authenticate] sends for a one-time code that passes the
    check. *)
Definition sign_in_request (server username password : string) (otp : value)
    : request :=
  {| method := "POST"; target := server +:+ "/api2/auth-token/";
     headers := [("Content-Type", "application/x-www-form-urlencoded");
                 ("Accept", "application/json")] ++ otp_header otp;
     payload := FormBody [("username", username); ("password", password)];
     signal := None |}.

(** The request that deletes a file. *)
Definition delete_request (pf : Platform) (api : SeafileAPI) (repoId : string)
    (path : value) : request :=
  request_of api "DELETE"
    ("/api/v2.1/repos/" +:+ encodeURIComponent pf repoId +:+ "/file/?p="
     +:+ encodeURIComponent pf (sanitizePath path))
    NoBody [].

(** The error [fetch] rejects with when the network fails. *)
Definition network_error : exn :=
  TypeError "NetworkError when attempting to fetch resource.".

(** ** The logins of the extension *)

(** A login of one of the three realms of the extension, stored for origin
    [o]. *)
Definition extension_login (o : string) (l : LoginInfo) : bool :=
  String.eqb (li_origin l) o &&
  match li_httpRealm l with
  | Some r => allowed_realm r
  | None => false
  end.

(** The logins of another user among those found. *)
Definition other_users (u : string) (l : list LoginInfo) : list LoginInfo :=
  List.filter (fun x => negb (String.eqb (li_username x) u)) l.

(** ** What a program leaves alone *)

(** Every run of [p] takes a state to one related to it by [R]. *)
Definition preserves {A : Type} (R : State -> State -> Prop) (p : Prog A)
    : Prop :=
  forall (w : World) (s : State) (tr : list request),
    R s (run p w s tr).1.2.

(** Two states that differ at most in the log of calls to the password
    manager. *)
Definition same_but_calls (s s' : State) : Prop :=
  same_maps s s' /\ logins s' = logins s.

(** ** Libraries offered for upload *)

(** A library that is not encrypted and that the account may write to. *)
Definition writable (r : value) : bool :=
  match r with
  | VObj f =>
      negb (truthy (assoc "encrypted" f)) &&
      match assoc "permission" f with
      | VStr p => String.eqb p "rw"
      | _ => false
      end
  | _ => false
  end.

(** The entry offered for a library. *)
Definition entry_of (r : value) : value :=
  match r with
  | VObj f =>
      VObj [("id", assoc "repo_id" f);
            ("name", if truthy (assoc "repo_name" f) then assoc "repo_name" f
                     else assoc "name" f)]
  | _ => VUndefined
  end.

(** [null] or [undefined]. *)
Definition nullish (v : value) : bool :=
  match v with
  | VUndefined | VNull => true
  | _ => false
  end.

(** ** What a program sends *)

(** Every run of [p] adds to the requests made only requests that
    satisfy [P]. *)
Definition sends_only {A : Type} (P : request -> Prop) (p : Prog A) : Prop :=
  forall (w : World) (s : State) (tr : list request),
    exists sent, (run p w s tr).2 = (sent ++ tr)%list /\ Forall P sent.

(** A request to a URL of the server of [api]. *)
Definition to_server (api : SeafileAPI) (r : request) : Prop :=
  startsWith (target r) (serverUrl api) = true.

(** A request that no program sends. *)
Definition no_request (r : request) : Prop := False.

(** ** More of the reference scenario *)

(** A server that finds the one-time code wrong. *)
Definition wrong_code_response : response :=
  {| status := 400;
     json := Some (VObj [("non_field_errors",
                          VArr [VStr "Two factor auth token is invalid."])]) |}.

Definition wrong_code_server : World := fun _ _ => Response wrong_code_response.


(** An expiry of more than 53 bits that [String] still prints digit by
    digit. *)
Definition long_expiry : ShareLinkOptions :=
  {| opt_password := VUndefined; opt_expireDays := Some (2 ^ 60) |}.

(** What the management page sends for the account of the scenario. *)
Definition example_input : ConfigInput :=
  {| in_serverUrl := VStr " https://Cloud.Example.com/ ";
     in_username := "alice";
     in_password := VStr "correct horse";
     in_apiToken := VStr "tok-1";
     in_repoId := "lib1";
     in_repoName := "My Library";
     in_uploadDir := VStr "Mail/../Attachments//2026";
     in_shareLinkPassword := VStr "";
     in_shareLinkExpireDays := VStr "1000" |}.
(** * Properties *)

(** ** The path sanitizer *)

Example sanitizePath_traversal :
  sanitizePath (VStr "a/../..//b///c") = "/a/b/c".
Proof. reflexivity. Qed.

Example sanitizePath_dots :
  sanitizePath (VStr ".../x/....") = "/./x/".
Proof. reflexivity. Qed.

(** *** Facts about the two replacements *)

Lemma remove_dotdot_step (c : ascii) (r : string) :
  remove_dotdot (String c r) =
  match r with
  | String d r' =>
      if is_dot c && is_dot d then remove_dotdot r'
      else String c (remove_dotdot r)
  | EmptyString => String c EmptyString
  end.
Proof. destruct r; reflexivity. Qed.

Lemma adjacent_cons (p : ascii -> bool) (c : ascii) (s : string) :
  adjacent p (String c s) =
  match s with
  | String d _ => (p c && p d) || adjacent p s
  | EmptyString => false
  end.
Proof. reflexivity. Qed.

Lemma adjacent_cons_false (p : ascii -> bool) (c : ascii) (s : string) :
  p c = false -> adjacent p (String c s) = adjacent p s.
Proof.
  intros Hc. rewrite adjacent_cons, Hc. destruct s as [|d r]; reflexivity.
Qed.

(** After the first replacement a dot is never followed by a dot; the
    statement is proved for a string and its tail together. *)
Lemma remove_dotdot_no_adjacent_aux (n : nat) :
  forall s : string, (String.length s <= n)%nat ->
    adjacent is_dot (remove_dotdot s) = false /\
    forall c, is_dot c = true ->
      adjacent is_dot (String c (remove_dotdot s)) = true ->
      exists r, s = String "." r.
Proof.
  induction n as [|n IH]; intros s Hlen.
  - destruct s; [|simpl in Hlen; lia]. simpl. split; [reflexivity|].
    intros c _ H; discriminate.
  - destruct s as [|c r]; [split; [reflexivity|intros c _ H; discriminate]|].
    simpl in Hlen. rewrite remove_dotdot_step.
    destruct r as [|d r'].
    + split; [reflexivity|]. intros c0 Hc0. rewrite adjacent_cons.
      rewrite Hc0, orb_false_r. simpl. unfold is_dot at 1.
      intros H. apply Ascii.eqb_eq in H. subst c. eauto.
    + destruct (is_dot c && is_dot d) eqn:Hcd.
      * simpl in Hlen.
        destruct (IH r' ltac:(lia)) as [H1 H2]. split; [exact H1|].
        intros c0 Hc0 H. apply andb_prop in Hcd as [Hc _].
        apply Ascii.eqb_eq in Hc. subst c. eauto.
      * destruct (IH (String d r') ltac:(lia)) as [H1 H2].
        assert (Hadj : adjacent is_dot (String c (remove_dotdot (String d r'))) = false).
        { destruct (is_dot c) eqn:Hc.
          - destruct (adjacent is_dot (String c (remove_dotdot (String d r'))))
              eqn:Hadj; [|reflexivity].
            destruct (H2 c Hc Hadj) as [r0 Hr0]. inversion Hr0; subst d.
            discriminate Hcd.
          - rewrite adjacent_cons_false by exact Hc. exact H1. }
        split; [exact Hadj|].
        intros c0 Hc0 H. rewrite adjacent_cons, Hc0, Hadj, orb_false_r in H.
        unfold is_dot in H. simpl in H. apply Ascii.eqb_eq in H. subst c. eauto.
Qed.

Lemma remove_dotdot_no_adjacent (s : string) :
  adjacent is_dot (remove_dotdot s) = false.
Proof. exact (proj1 (remove_dotdot_no_adjacent_aux (String.length s) s (le_n _))). Qed.

Lemma adjacent_head (p : ascii -> bool) (c : ascii) (s : string) :
  adjacent p (String c s) = (p c && head_is p s) || adjacent p s.
Proof. destruct s as [|d r]; simpl; [now rewrite andb_false_r|reflexivity]. Qed.

Lemma collapse_slashes_head (p : ascii -> bool) (s : string) :
  p "/"%char = false -> head_is p (collapse_slashes s) = head_is p s.
Proof.
  intros Hp. destruct s as [|c r]; [reflexivity|]. simpl.
  destruct (is_slash c) eqn:Hc; [|reflexivity].
  apply Ascii.eqb_eq in Hc. subst c. simpl. now rewrite Hp.
Qed.

(** The second replacement leaves no run of two slashes. *)
Lemma collapse_slashes_no_adjacent (s : string) :
  adjacent is_slash (collapse_slashes s) = false /\
  adjacent is_slash (String "/" (in_slashes s)) = false.
Proof.
  induction s as [|c r [IH1 IH2]]; [split; reflexivity|].
  simpl collapse_slashes. simpl in_slashes.
  destruct (is_slash c) eqn:Hc.
  - split; exact IH2.
  - split.
    + rewrite adjacent_cons_false by exact Hc. exact IH1.
    + rewrite adjacent_head. simpl head_is. rewrite Hc, andb_false_r.
      rewrite adjacent_cons_false by exact Hc. exact IH1.
Qed.

(** It only deletes slashes that follow a slash, so it brings no two dots
    together. *)
Lemma collapse_slashes_keeps_dots_apart (s : string) :
  adjacent is_dot s = false ->
  adjacent is_dot (collapse_slashes s) = false /\
  adjacent is_dot (in_slashes s) = false.
Proof.
  induction s as [|c r IH]; [split; reflexivity|].
  rewrite adjacent_head. intros H. apply orb_false_elim in H as [Hh Hr].
  destruct (IH Hr) as [IH1 IH2].
  simpl collapse_slashes. simpl in_slashes.
  destruct (is_slash c) eqn:Hc.
  - split; [|exact IH2]. rewrite adjacent_cons_false by reflexivity. exact IH2.
  - assert (H : adjacent is_dot (String c (collapse_slashes r)) = false).
    { rewrite adjacent_head, collapse_slashes_head by reflexivity.
      now rewrite Hh, IH1. }
    split; exact H.
Qed.

Lemma split_on_head (sep d : ascii) (r h h' : string) (t : list string) :
  split_on sep r = h :: t -> h = String d h' -> exists r', r = String d r'.
Proof.
  intros Hs Hh. subst h. destruct r as [|c r']; [discriminate|].
  simpl in Hs. destruct (Ascii.eqb c sep); [discriminate|].
  destruct (split_on sep r'); inversion Hs; eauto.
Qed.

Lemma split_on_nonempty (sep : ascii) (s : string) : split_on sep s <> [].
Proof.
  destruct s as [|c r]; [discriminate|]. simpl.
  destruct (Ascii.eqb c sep); [discriminate|].
  destruct (split_on sep r); discriminate.
Qed.

(** A [..] segment is in particular two neighbouring dots. *)
Lemma dotdot_segment_adjacent (s : string) :
  In ".." (segments s) -> adjacent is_dot s = true.
Proof.
  unfold segments. induction s as [|c r IH]; simpl split_on.
  - intros [H|[]]; discriminate.
  - rewrite adjacent_head. destruct (Ascii.eqb c "/") eqn:Hc.
    + intros [H|H]; [discriminate|]. rewrite (IH H). apply orb_true_r.
    + destruct (split_on "/" r) as [|h t] eqn:Hs;
        [now apply split_on_nonempty in Hs|].
      intros [H|H].
      * inversion H; subst c h.
        destruct (split_on_head _ _ _ _ _ _ Hs eq_refl) as [r' ->].
        reflexivity.
      * rewrite IH; [apply orb_true_r|now right].
Qed.

Lemma includes_two_adjacent (a : ascii) (s : string) :
  adjacent (Ascii.eqb a) s = false ->
  includes s (String a (String a EmptyString)) = false.
Proof.
  induction s as [|c r IH]; [reflexivity|].
  rewrite adjacent_head. intros H. apply orb_false_elim in H as [Hh Hr].
  simpl includes. rewrite (IH Hr), orb_false_r.
  simpl. destruct (Ascii.eqb a c); [|reflexivity].
  destruct r as [|d r']; [reflexivity|].
  simpl in Hh |- *. rewrite Hh. reflexivity.
Qed.

Lemma adjacent_ext (p q : ascii -> bool) (s : string) :
  (forall c, p c = q c) -> adjacent p s = adjacent q s.
Proof.
  intros E. induction s as [|c r IH]; [reflexivity|].
  now rewrite !adjacent_head, IH, E; destruct r; simpl; rewrite ?E.
Qed.

Lemma startsWith_slash_head (s : string) :
  startsWith s "/" = head_is is_slash s.
Proof.
  destruct s as [|c r]; [reflexivity|]. simpl. unfold is_slash.
  now rewrite andb_true_r, Ascii.eqb_sym.
Qed.

Lemma no_double_slash (s : string) :
  adjacent is_slash s = false -> includes s "//" = false.
Proof.
  intros H. apply includes_two_adjacent.
  rewrite (adjacent_ext (Ascii.eqb "/") is_slash); [exact H|].
  intros c. apply Ascii.eqb_sym.
Qed.

(** C2. Whatever the input (in particular one that contains [..] segments or
    repeated separators), the output of [sanitizePath] has no [..] segment,
    has no two separators in a row, and begins with exactly one separator. *)
Theorem sanitizePath_no_traversal (path : value) :
  ~ In ".." (segments (sanitizePath path)) /\
  includes (sanitizePath path) "//" = false /\
  exists rest, sanitizePath path = String "/" rest /\ startsWith rest "/" = false.
Proof.
  assert (Hroot : ~ In ".." (segments "/") /\ includes "/" "//" = false /\
                  exists rest, "/" = String "/" rest /\ startsWith rest "/" = false).
  { split; [|split; [reflexivity|exists ""; split; reflexivity]].
    simpl. intros [H|[H|[]]]; discriminate. }
  destruct path as [| |b|z|p|l|f]; try exact Hroot.
  unfold sanitizePath. destruct (negb (truthy (VStr p))); [exact Hroot|].
  set (clean := collapse_slashes (remove_dotdot p)).
  assert (Hdots : adjacent is_dot clean = false).
  { apply collapse_slashes_keeps_dots_apart, remove_dotdot_no_adjacent. }
  assert (Hsl : adjacent is_slash clean = false).
  { apply collapse_slashes_no_adjacent. }
  cbv zeta. rewrite startsWith_slash_head.
  destruct clean as [|c r] eqn:Hclean.
  - exact Hroot.
  - simpl head_is. destruct (is_slash c) eqn:Hc; simpl negb; cbv iota.
    + apply Ascii.eqb_eq in Hc. subst c. split; [|split].
      * intros H. apply dotdot_segment_adjacent in H. congruence.
      * now apply no_double_slash.
      * exists r. split; [reflexivity|]. rewrite startsWith_slash_head.
        rewrite adjacent_head in Hsl. apply orb_false_elim in Hsl as [Hh _].
        exact Hh.
    + change ("/" +:+ String c r) with (String "/" (String c r)).
      split; [|split].
      * intros H. apply dotdot_segment_adjacent in H.
        rewrite adjacent_cons_false in H by reflexivity. congruence.
      * apply no_double_slash. rewrite adjacent_head.
        simpl head_is. rewrite Hc, andb_false_r. exact Hsl.
      * exists (String c r). split; [reflexivity|].
        rewrite startsWith_slash_head. exact Hc.
Qed.

(** ** Decimal text of numbers *)

Lemma append_empty (s : string) : s +:+ "" = s.
Proof.
  induction s as [|c r IH]; [reflexivity|].
  change (String c r +:+ "") with (String c (r +:+ "")). now rewrite IH.
Qed.






Lemma drop_while_head (p : ascii -> bool) (s : string) :
  head_is p s = false -> drop_while p s = s.
Proof. destruct s as [|c r]; simpl; [reflexivity|]. now intros ->. Qed.




(** *** Numbers of 54 bits and more *)


(** Rounding does not take a number of 54 bits or more below [2 ^ 53]. *)
Lemma to_double_large (x : Z) : 2 ^ 53 <= x -> 2 ^ 53 <= to_double x.
Proof.
  intros H. unfold to_double.
  assert (Hlog : 53 <= Z.log2 x) by (apply Z.log2_le_pow2; lia).
  replace (Z.log2 x + 1 <=? 53) with false by (symmetry; apply Z.leb_gt; lia).
  cbv zeta. set (e := Z.log2 x + 1 - 53).
  assert (He : 0 < e) by (unfold e; lia).
  assert (Hq : 2 ^ 52 <= Z.shiftr x e).
  { rewrite Z.shiftr_div_pow2 by lia.
    apply Z.div_le_lower_bound; [apply Z.pow_pos_nonneg; lia|].
    rewrite <- Z.pow_add_r by lia.
    replace (e + 52) with (Z.log2 x) by (unfold e; lia).
    apply Z.log2_spec. lia. }
  set (q := Z.shiftr x e) in *.
  match goal with
  | |- _ <= Z.shiftl ?t e => set (q' := t); assert (Hq' : 2 ^ 52 <= q')
  end.
  { unfold q'. destruct (_ || _); lia. }
  rewrite Z.shiftl_mul_pow2 by lia.
  assert (2 <= 2 ^ e).
  { change 2 with (2 ^ 1) at 1. apply Z.pow_le_mono_r; lia. }
  change (2 ^ 53) with (2 ^ 52 * 2). nia.
Qed.









Example validatePositiveInt_above : validatePositiveInt (VNum 400) 365 0 = 365.
Proof. reflexivity. Qed.

Example validatePositiveInt_text : validatePositiveInt (VStr " 12 days") 365 0 = 12.
Proof. reflexivity. Qed.

Example validatePositiveInt_not_a_number :
  validatePositiveInt VUndefined 365 0 = 0.
Proof. reflexivity. Qed.

(** ** More on the path sanitizer *)

Lemma sanitizePath_clean (path : value) : clean_path (sanitizePath path).
Proof.
  assert (Hroot : clean_path "/") by (repeat split).
  destruct path as [| |b|z|p|l|f]; try exact Hroot.
  unfold sanitizePath. destruct (negb (truthy (VStr p))); [exact Hroot|].
  cbv zeta. rewrite startsWith_slash_head.
  pose proof (proj1 (collapse_slashes_keeps_dots_apart _
                       (remove_dotdot_no_adjacent p))) as Hdots.
  pose proof (proj1 (collapse_slashes_no_adjacent (remove_dotdot p))) as Hsl.
  destruct (head_is is_slash (collapse_slashes (remove_dotdot p))) eqn:Hh;
    cbn [negb]; [repeat split; assumption|].
  change ("/" +:+ ?t) with (String "/" t).
  repeat split.
  - now rewrite adjacent_cons_false.
  - now rewrite adjacent_head, Hh, Hsl.
Qed.

Lemma remove_dotdot_app (a b : string) :
  adjacent is_dot a = false -> head_is is_dot b = false ->
  remove_dotdot (a +:+ b) = a +:+ remove_dotdot b.
Proof.
  induction a as [|c a IH]; [reflexivity|].
  rewrite adjacent_head. intros H Hb. apply orb_false_elim in H as [Hh Ha].
  change (String c a +:+ b) with (String c (a +:+ b)).
  rewrite remove_dotdot_step.
  destruct (a +:+ b) as [|d r] eqn:E.
  - destruct a; [|discriminate E]. change (b = "") in E. now subst b.
  - assert (Hd : is_dot c && is_dot d = false).
    { destruct a as [|d' a'].
      - change (EmptyString +:+ b) with b in E. rewrite E in Hb.
        simpl in Hb. now rewrite Hb, andb_false_r.
      - change (String d' a' +:+ b) with (String d' (a' +:+ b)) in E.
        inversion E; subst d'. exact Hh. }
    rewrite Hd, (IH Ha Hb). reflexivity.
Qed.

Lemma remove_dotdot_id (s : string) :
  adjacent is_dot s = false -> remove_dotdot s = s.
Proof.
  induction s as [|c r IH]; [reflexivity|].
  rewrite adjacent_head. intros H. apply orb_false_elim in H as [Hh Hr].
  rewrite remove_dotdot_step. destruct r as [|d r']; [reflexivity|].
  simpl in Hh. now rewrite Hh, (IH Hr).
Qed.

(** What is left to do after a slash-free-of-runs prefix [a]: the rest of a
    run if [a] ends in a slash, an ordinary scan otherwise. *)
Lemma collapse_slashes_app (a b : string) :
  adjacent is_slash a = false -> a <> "" ->
  let rest := if last_is is_slash a then in_slashes b else collapse_slashes b in
  collapse_slashes (a +:+ b) = a +:+ rest /\
  (head_is is_slash a = false -> in_slashes (a +:+ b) = a +:+ rest).
Proof.
  induction a as [|c a IH]; [congruence|].
  rewrite adjacent_head. intros H _. apply orb_false_elim in H as [Hh Ha].
  change (String c a +:+ b) with (String c (a +:+ b)).
  cbn [collapse_slashes in_slashes head_is].
  destruct a as [|d a'].
  - change (EmptyString +:+ b) with b. cbn [last_is].
    destruct (is_slash c) eqn:Hc.
    + apply Ascii.eqb_eq in Hc. subst c. split; [reflexivity|discriminate].
    + split; reflexivity.
  - destruct (IH Ha ltac:(discriminate)) as [IH1 IH2].
    change (last_is is_slash (String c (String d a')))
      with (last_is is_slash (String d a')).
    destruct (is_slash c) eqn:Hc.
    + apply Ascii.eqb_eq in Hc. subst c. simpl in Hh.
      split; [|discriminate]. rewrite IH2 by exact Hh. reflexivity.
    + rewrite IH1. split; reflexivity.
Qed.

Lemma collapse_slashes_id (s : string) :
  adjacent is_slash s = false -> collapse_slashes s = s.
Proof.
  intros H. destruct s as [|c r]; [reflexivity|].
  destruct (collapse_slashes_app (String c r) "" H ltac:(discriminate)) as [E _].
  rewrite append_empty in E. rewrite E.
  destruct (last_is is_slash (String c r)); apply append_empty.
Qed.

(** X1. A path that already begins with a slash and has neither two dots
    nor two slashes in a row is returned as it is. *)
Theorem sanitizePath_keeps_clean_path (p : string) :
  clean_path p -> sanitizePath (VStr p) = p.
Proof.
  intros (Hh & Hd & Hs). unfold sanitizePath.
  destruct p as [|c r]; [discriminate Hh|]. cbn [truthy String.eqb negb].
  cbv zeta. rewrite remove_dotdot_id, collapse_slashes_id by assumption.
  now rewrite startsWith_slash_head, Hh.
Qed.

(** X2. Sanitizing is idempotent: a sanitized path passes through a second
    sanitization unchanged, so the paths the listeners sanitize before they
    hand them to the API client are not altered there. *)
Theorem sanitizePath_idempotent (path : value) :
  sanitizePath (VStr (sanitizePath path)) = sanitizePath path.
Proof.
  pose proof (sanitizePath_clean path) as (Hh & Hd & Hs).
  unfold sanitizePath at 1.
  destruct (sanitizePath path) as [|c r]; [discriminate Hh|].
  cbn [truthy String.eqb negb]. cbv zeta.
  rewrite remove_dotdot_id, collapse_slashes_id by assumption.
  now rewrite startsWith_slash_head, Hh.
Qed.

Lemma startsWith_app (a b : string) : startsWith (a +:+ b) a = true.
Proof.
  induction a as [|c a IH]; [reflexivity|].
  change (String c a +:+ b) with (String c (a +:+ b)). cbn [startsWith].
  now rewrite Ascii.eqb_refl, IH.
Qed.

Lemma append_assoc (a b c : string) : (a +:+ b) +:+ c = a +:+ b +:+ c.
Proof.
  induction a as [|x a IH]; [reflexivity|].
  change ((String x a +:+ b) +:+ c) with (String x ((a +:+ b) +:+ c)).
  now rewrite IH.
Qed.

(** X3. The path of an uploaded file lies in the upload directory: it is
    the directory, a separator, and what sanitizing leaves of the file
    name, and none of its segments is [..], whatever the file name. *)
Theorem file_path_in_upload_dir (c : AccountConfig) (name : string) :
  startsWith (file_path c name) (with_separator (upload_dir c)) = true /\
  ~ In ".." (segments (file_path c name)).
Proof.
  split.
  - unfold file_path.
    pose proof (sanitizePath_clean
                  (if truthy (cfg_uploadDir c) then cfg_uploadDir c
                   else VStr "/Thunderbird-Attachments")) as (Hh & Hd & Hs).
    fold (upload_dir c) in Hh, Hd, Hs. set (u := upload_dir c) in *.
    assert (Hu : u <> "") by (destruct u; [discriminate Hh|discriminate]).
    unfold sanitizePath.
    replace (negb (truthy (VStr (u +:+ "/" +:+ name)))) with false
      by (destruct u; [congruence|reflexivity]).
    cbv zeta. rewrite (remove_dotdot_app u) by (exact Hd || reflexivity).
    destruct (collapse_slashes_app u (remove_dotdot ("/" +:+ name)) Hs Hu)
      as [E _]. rewrite E.
    assert (Hrd : exists m, remove_dotdot ("/" +:+ name) = String "/" m).
    { change ("/" +:+ name) with (String "/" name). rewrite remove_dotdot_step.
      destruct name as [|d n]; [eauto|]. cbn [is_dot]. simpl. eauto. }
    destruct Hrd as [m Hm]. rewrite Hm.
    assert (Hstart : startsWith
                       (u +:+ (if last_is is_slash u
                               then in_slashes (String "/" m)
                               else collapse_slashes (String "/" m))) "/"
                     = true).
    { rewrite startsWith_slash_head. destruct u as [|x u']; [congruence|].
      exact Hh. }
    rewrite Hstart. cbn [negb]. unfold with_separator.
    destruct (last_is is_slash u).
    + apply startsWith_app.
    + cbn [collapse_slashes]. change (is_slash "/") with true. cbv iota.
      change (String "/" (in_slashes m)) with ("/" +:+ in_slashes m).
      rewrite <- append_assoc. apply startsWith_app.
  - intros H. apply dotdot_segment_adjacent in H.
    pose proof (sanitizePath_clean
                  (VStr (upload_dir c +:+ "/" +:+ name))) as (_ & Hd & _).
    unfold file_path in H. congruence.
Qed.

(** X4. Whatever value it is given, [validatePositiveInt] returns a
    number between 0 and the maximum, provided the fallback is one; with the
    defaults (365 and 0) the result lies between 0 and 365. *)
Theorem validatePositiveInt_in_bounds (v : value) (max fallback : Z) :
  0 <= fallback <= max ->
  0 <= validatePositiveInt v max fallback <= max.
Proof.
  intros H. unfold validatePositiveInt.
  destruct (parseInt (ToString v)) as [num|]; [|exact H].
  destruct (num <? 0) eqn:Hn; [exact H|]. apply Z.ltb_ge in Hn. lia.
Qed.

(** ** Running programs *)

Lemma run_bind {A B : Type} (p : Prog A) (f : A -> Prog B)
    (w : World) (s : State) (tr : list request) :
  run (bind p f) w s tr =
  match run p w s tr with
  | (inr a, s', tr') => run (f a) w s' tr'
  | (inl e, s', tr') => (inl e, s', tr')
  end.
Proof.
  revert s tr.
  induction p as [a|e|r k IH|k IH|s0 k IH]; intros s tr; simpl; auto.
Qed.

Lemma run_try_catch {A : Type} (p : Prog A) (h : exn -> Prog A)
    (w : World) (s : State) (tr : list request) :
  run (try_catch p h) w s tr =
  match run p w s tr with
  | (inr a, s', tr') => (inr a, s', tr')
  | (inl e, s', tr') => run (h e) w s' tr'
  end.
Proof.
  revert s tr.
  induction p as [a|e|r k IH|k IH|s0 k IH]; intros s tr; simpl; auto.
Qed.

Lemma run_lift {A : Type} (r : result A) (w : World) (s : State)
    (tr : list request) :
  run (lift r) w s tr = (r, s, tr).
Proof. destruct r; reflexivity. Qed.

Lemma run_fetch (r : request) (w : World) (s : State) (tr : list request) :
  run (fetch r) w s tr =
  match w tr r with
  | NetworkError =>
      (inl (TypeError "NetworkError when attempting to fetch resource."),
       s, r :: tr)
  | Response resp => (inr resp, s, r :: tr)
  end.
Proof. simpl. destruct (w tr r); reflexivity. Qed.

Lemma run_modify (f : State -> State) (w : World) (s : State)
    (tr : list request) :
  run (modify f) w s tr = (inr tt, f s, tr).
Proof. reflexivity. Qed.

Section Properties.

Variable pf : Platform.

(** ** The API client *)

Lemma run_request_plain (api : SeafileAPI) (m path : string)
    (w : World) (s : State) (tr : list request) :
  run (_request api m path None None) w s tr =
  run (fetch (request_of api m path NoBody [])) w s tr.
Proof. reflexivity. Qed.

Lemma run_request_json (api : SeafileAPI) (m path : string)
    (fields : list (string * value)) (w : World) (s : State)
    (tr : list request) :
  run (_request api m path (Some fields) (Some "json")) w s tr =
  run (fetch (request_of api m path (JsonBody (VObj fields))
                [("Content-Type", "application/json")])) w s tr.
Proof. reflexivity. Qed.





Lemma run_ping (api : SeafileAPI) (w : World) (s : State) (tr : list request) :
  run (ping api) w s tr =
  match w tr (ping_request api) with
  | NetworkError =>
      (inl (TypeError "NetworkError when attempting to fetch resource."),
       s, ping_request api :: tr)
  | Response resp => (inr (ok resp), s, ping_request api :: tr)
  end.
Proof.
  unfold ping. rewrite run_bind, run_request_plain, run_fetch.
  fold (ping_request api). destruct (w tr (ping_request api)); reflexivity.
Qed.

(** The guarded probe of both tiers: [try { if (await api.ping()) ... }
    catch {}] goes on normally whether the probe answers no or throws. *)
Lemma run_guarded_probe {A : Type} (api : SeafileAPI) (alive : Prog (option A))
    (w : World) (s : State) (tr : list request) :
  run (try_catch (bind (ping api) (fun b => if b then alive else Ret None))
                 (fun _ => Ret None)) w s tr =
  if probe_alive w tr api
  then run (try_catch alive (fun _ => Ret None)) w s (ping_request api :: tr)
  else (inr None, s, ping_request api :: tr).
Proof.
  rewrite run_try_catch, run_bind, run_ping. unfold probe_alive.
  destruct (w tr (ping_request api)) as [|resp]; [reflexivity|].
  destruct (ok resp); [|reflexivity].
  now rewrite run_try_catch.
Qed.

(** The first tier. *)
Lemma run_cached_session (accountId : string) (w : World) (s : State)
    (tr : list request) :
  run (cached_session accountId) w s tr =
  match apiCache s !! accountId with
  | None => (inr None, s, tr)
  | Some api =>
      if probe_alive w tr api
      then (inr (Some api), s, ping_request api :: tr)
      else (inr None, set_apiCache (delete accountId) s,
            ping_request api :: tr)
  end.
Proof.
  unfold cached_session. cbn [run].
  destruct (apiCache s !! accountId) as [api|]; [|reflexivity].
  rewrite run_bind, run_try_catch, run_bind, run_ping. unfold probe_alive.
  destruct (w tr (ping_request api)) as [|resp]; [reflexivity|].
  destruct (ok resp); reflexivity.
Qed.

(** ** The loginManager experiment API *)

Lemma run_lm_search (o realm : string) (w : World) (s : State)
    (tr : list request) :
  run (lm_search o realm) w s tr = (inr (found o realm s), searched o realm s, tr).
Proof. reflexivity. Qed.

(** Whatever search methods the service offers, exactly one search reaches
    it. *)
Lemma run_findLoginsForRealm (o realm : string) (w : World) (s : State)
    (tr : list request) :
  run (findLoginsForRealm pf o realm) w s tr =
  (inr (found o realm s), searched o realm s, tr).
Proof.
  unfold findLoginsForRealm, lm_searchLoginsAsync, lm_searchLogins, lm_findLogins.
  rewrite run_try_catch.
  destruct (has_searchLoginsAsync pf); [now rewrite run_lm_search|].
  cbn [run]. rewrite run_try_catch.
  destruct (has_searchLogins pf); [now rewrite run_lm_search|].
  cbn [run]. now rewrite run_lm_search.
Qed.

Lemma validateHostname_error (h : value) (e : exn) :
  validateHostname pf h = inl e -> exists m, e = Error m /\ validation_message m.
Proof.
  unfold validateHostname, validation_message.
  destruct h as [| |b|z|s|l|f]; try (intros [= <-]; eauto 6).
  destruct (negb (truthy (VStr s))); [intros [= <-]; eauto 6|].
  destruct (newURI pf _) as [uri|]; [|intros [= <-]; eauto 8].
  destruct (_ && _); [intros [= <-]; eauto 8|discriminate].
Qed.

Lemma validateRealm_error (realm : value) (e : exn) :
  validateRealm realm = inl e -> exists m, e = Error m /\ validation_message m.
Proof.
  unfold validateRealm, validation_message.
  destruct realm as [| |b|z|s|l|f]; try (intros [= <-]; eauto 8).
  destruct (negb (truthy (VStr s))); [intros [= <-]; eauto 8|].
  destruct (negb (allowed_realm s)); [intros [= <-]; eauto 10|discriminate].
Qed.

Lemma validateRealm_rejects (realm : value) :
  (forall r, realm = VStr r -> allowed_realm r = false) ->
  exists e, validateRealm realm = inl e.
Proof.
  intros H. unfold validateRealm.
  destruct realm as [| |b|z|s|l|f]; eauto.
  destruct (negb (truthy (VStr s))); [eauto|].
  rewrite (H s eq_refl). simpl. eauto.
Qed.

Lemma validateRealm_accepts (r : string) :
  allowed_realm r = true -> validateRealm (VStr r) = inr r.
Proof.
  intros H. unfold validateRealm. rewrite H.
  destruct r as [|c r']; [discriminate H|reflexivity].
Qed.

(** Both checks come first in each operation: when one fails the operation
    throws its error with the state as it was. *)
Lemma run_validation_failure {A : Type} (h realm : value)
    (k : string -> string -> Prog A) (w : World) (s : State)
    (tr : list request) :
  (forall r, realm = VStr r -> allowed_realm r = false) ->
  exists m,
    run (o <- lift (validateHostname pf h) ;;
         safeRealm <- lift (validateRealm realm) ;; k o safeRealm) w s tr
    = (inl (Error m), s, tr) /\ validation_message m.
Proof.
  intros Hr. rewrite run_bind, run_lift.
  destruct (validateHostname pf h) as [e|o] eqn:Hh.
  - destruct (validateHostname_error _ _ Hh) as (m & -> & Hm). eauto.
  - rewrite run_bind, run_lift.
    destruct (validateRealm_rejects realm Hr) as [e He]. rewrite He.
    destruct (validateRealm_error _ _ He) as (m & -> & Hm). eauto.
Qed.

(** C7. With a realm outside the three allowed ones, [saveCredentials],
    [getCredentials] and [removeCredentials] each throw an error of
    [validateHostname] or [validateRealm] and leave the state as it was: the
    logins are untouched and the password manager has received no call. *)
Theorem unknown_realm_rejected_before_vault (h realm username password : value)
    (w : World) (s : State) (tr : list request) :
  (forall r, realm = VStr r -> allowed_realm r = false) ->
  (exists m, run (saveCredentials pf h realm username password) w s tr
             = (inl (Error m), s, tr) /\ validation_message m) /\
  (exists m, run (getCredentials pf h realm) w s tr
             = (inl (Error m), s, tr) /\ validation_message m) /\
  (exists m, run (removeCredentials pf h realm) w s tr
             = (inl (Error m), s, tr) /\ validation_message m).
Proof.
  intros Hr. repeat split; apply run_validation_failure; exact Hr.
Qed.

Lemma run_lm_removeLogin (login : LoginInfo) (w : World) (s : State)
    (tr : list request) :
  run (lm_removeLogin login) w s tr =
  (inr tt,
   lm_apply (LmRemove login)
     (List.filter (fun l => negb (bool_decide (l = login)))) s, tr).
Proof. reflexivity. Qed.

Lemma filter_filter_same {A : Type} (p q : A -> bool) (l : list A) :
  List.filter p (List.filter q l) = List.filter (fun x => q x && p x) l.
Proof.
  induction l as [|x l IH]; [reflexivity|]. cbn [List.filter].
  destruct (q x); cbn [List.filter andb]; [destruct (p x)|]; now rewrite IH.
Qed.

Lemma filter_ext_in {A : Type} (p q : A -> bool) (l : list A) :
  (forall x, In x l -> p x = q x) -> List.filter p l = List.filter q l.
Proof.
  induction l as [|x l IH]; intros H; [reflexivity|]. cbn [List.filter].
  rewrite (H x (or_introl eq_refl)), IH; [reflexivity|].
  intros y Hy. apply H. now right.
Qed.

Lemma filter_none {A : Type} (p : A -> bool) (l : list A) :
  (forall x, In x l -> p x = false) -> List.filter p l = [].
Proof.
  induction l as [|x l IH]; intros H; [reflexivity|]. cbn [List.filter].
  rewrite (H x (or_introl eq_refl)). apply IH. intros y Hy. apply H. now right.
Qed.

(** The removal loop of [saveCredentials]: the stored logins equal to one of
    [existing] with the given user name go, one removal call for each such
    element of [existing], and nothing else changes. *)
Lemma run_remove_existing (existing : list LoginInfo) (u : string)
    (w : World) (s : State) (tr : list request) :
  exists s',
    run (remove_existing existing u) w s tr = (inr tt, s', tr) /\
    logins s' =
      List.filter (fun l => negb (existsb (fun e =>
                     String.eqb (li_username e) u && bool_decide (l = e))
                     existing)) (logins s) /\
    lm_calls s' =
      (rev (map LmRemove
              (List.filter (fun e => String.eqb (li_username e) u) existing))
       ++ lm_calls s)%list /\
    same_maps s s'.
Proof.
  revert s. induction existing as [|e ex IH]; intros s.
  - exists s. cbn [remove_existing run existsb negb List.filter map rev app].
    repeat split. induction (logins s) as [|l ls IHl]; [reflexivity|].
    cbn [List.filter]. now rewrite <- IHl.
  - cbn [remove_existing]. rewrite run_bind.
    destruct (String.eqb (li_username e) u) eqn:Hu.
    + rewrite run_lm_removeLogin.
      destruct (IH (lm_apply (LmRemove e)
                      (List.filter (fun l => negb (bool_decide (l = e)))) s))
        as (s' & Hrun & Hlog & Hcalls & Hmaps).
      exists s'. split; [exact Hrun|]. split; [|split].
      * rewrite Hlog. cbn [lm_apply logins]. rewrite filter_filter_same.
        apply filter_ext_in. intros l _. cbn [existsb]. rewrite Hu.
        cbn [andb]. now destruct (bool_decide (l = e)).
      * rewrite Hcalls. cbn [lm_apply lm_calls List.filter]. rewrite Hu.
        cbn [map rev]. now rewrite <- app_assoc.
      * exact Hmaps.
    + cbn [run].
      destruct (IH s) as (s' & Hrun & Hlog & Hcalls & Hmaps).
      exists s'. split; [exact Hrun|]. split; [|split].
      * rewrite Hlog. cbn [existsb]. rewrite Hu. reflexivity.
      * rewrite Hcalls. cbn [List.filter]. rewrite Hu. reflexivity.
      * exact Hmaps.
Qed.

(** A stored login equals one of those found for its origin and realm
    exactly when it is one of them. *)
Lemma removed_iff_same_entry (o realm u : string) (ls : list LoginInfo)
    (l : LoginInfo) :
  In l ls ->
  existsb (fun e => String.eqb (li_username e) u && bool_decide (l = e))
          (List.filter (login_matches o realm) ls)
  = same_entry o realm u l.
Proof.
  intros Hin. unfold same_entry.
  destruct (login_matches o realm l && String.eqb (li_username l) u) eqn:H.
  - apply andb_prop in H as [Hm Hu]. apply existsb_exists. exists l.
    split; [apply filter_In; auto|]. rewrite Hu. cbn [andb].
    now apply bool_decide_eq_true.
  - destruct (existsb _ _) eqn:He; [|reflexivity].
    apply existsb_exists in He as (e & He & Hp).
    apply andb_prop in Hp as [Hu Heq]. apply bool_decide_eq_true in Heq.
    subst e. apply filter_In in He as [_ Hm]. rewrite Hm, Hu in H.
    discriminate H.
Qed.

(** What a successful [saveCredentials] does to the state. *)
Lemma run_saveCredentials (h realm : value) (o r u p : string)
    (w : World) (s : State) (tr : list request) :
  validateHostname pf h = inr o -> validateRealm realm = inr r -> u <> "" ->
  exists s' removals,
    run (saveCredentials pf h realm (VStr u) (VStr p)) w s tr
      = (inr true, s', tr) /\
    logins s' =
      (List.filter (fun l => negb (same_entry o r u l)) (logins s)
       ++ [new_login o r u p])%list /\
    lm_calls s' =
      (LmAdd (new_login o r u p) :: removals
       ++ LmSearch o r :: lm_calls s)%list /\
    (forall c, In c removals <->
               exists l, c = LmRemove l /\ In l (logins s) /\
                         same_entry o r u l = true) /\
    same_maps s s'.
Proof.
  intros Hh Hr Hu. unfold saveCredentials.
  rewrite run_bind, run_lift, Hh, run_bind, run_lift, Hr.
  assert (Ht : negb (truthy (VStr u)) = false).
  { destruct u; [congruence|reflexivity]. }
  rewrite Ht. rewrite run_bind, run_findLoginsForRealm, run_bind.
  destruct (run_remove_existing (found o r s) u w (searched o r s) tr)
    as (s1 & Hrun & Hlog & Hcalls & Hst & Hca & Hup).
  rewrite Hrun. rewrite run_bind. unfold lm_addLoginAsync. rewrite run_modify.
  cbn [run]. fold (new_login o r u p).
  eexists. exists (rev (map LmRemove
                     (List.filter (fun e => String.eqb (li_username e) u)
                        (found o r s)))).
  split; [reflexivity|]. cbn [lm_apply logins lm_calls storage apiCache uploadedFiles].
  split; [|split; [|split]].
  - rewrite Hlog. f_equal. cbn [searched lm_apply logins].
    apply filter_ext_in. intros l Hl. f_equal.
    now apply removed_iff_same_entry.
  - rewrite Hcalls. reflexivity.
  - intros c. rewrite <- in_rev, in_map_iff. unfold found.
    rewrite filter_filter_same. split.
    + intros (l & <- & Hl). apply filter_In in Hl as [Hin Hs].
      exists l. auto.
    + intros (l & -> & Hin & Hs). exists l. split; [reflexivity|].
      apply filter_In. auto.
  - repeat split; assumption.
Qed.

Lemma same_entry_new_login (o r u p : string) :
  same_entry o r u (new_login o r u p) = true.
Proof.
  unfold same_entry, login_matches, new_login. cbn.
  now rewrite !String.eqb_refl.
Qed.

(** C10. A [saveCredentials] call with a valid host name, realm and user
    name removes every stored login of the same origin, realm and user name,
    then adds the new one: afterwards the logins of that origin, realm and
    user name are exactly the new login, and the other logins are those
    stored before. *)
Theorem saveCredentials_replaces_entry (h realm : value) (o r u p : string)
    (w : World) (s : State) (tr : list request) :
  validateHostname pf h = inr o -> validateRealm realm = inr r -> u <> "" ->
  exists s' removals,
    run (saveCredentials pf h realm (VStr u) (VStr p)) w s tr
      = (inr true, s', tr) /\
    List.filter (same_entry o r u) (logins s') = [new_login o r u p] /\
    List.filter (fun l => negb (same_entry o r u l)) (logins s')
      = List.filter (fun l => negb (same_entry o r u l)) (logins s) /\
    lm_calls s' =
      (LmAdd (new_login o r u p) :: removals
       ++ LmSearch o r :: lm_calls s)%list /\
    (forall l, In l (logins s) -> same_entry o r u l = true ->
               In (LmRemove l) removals).
Proof.
  intros Hh Hr Hu.
  destruct (run_saveCredentials h realm o r u p w s tr Hh Hr Hu)
    as (s' & removals & Hrun & Hlog & Hcalls & Hrem & _).
  exists s', removals. split; [exact Hrun|]. rewrite Hlog, !List.filter_app.
  cbn [List.filter]. rewrite same_entry_new_login. cbn [negb].
  rewrite !filter_filter_same. split; [|split; [|split]].
  - rewrite filter_none; [reflexivity|].
    intros l _. now destruct (same_entry o r u l).
  - rewrite app_nil_r. apply filter_ext_in. intros l _.
    now destruct (same_entry o r u l).
  - exact Hcalls.
  - intros l Hin Hs. apply Hrem. eauto.
Qed.

Lemma run_getCredentials (h realm : value) (o r : string) (w : World)
    (s : State) (tr : list request) :
  validateHostname pf h = inr o -> validateRealm realm = inr r ->
  run (getCredentials pf h realm) w s tr =
  (inr (first_credentials (found o r s)), searched o r s, tr).
Proof.
  intros Hh Hr. unfold getCredentials.
  rewrite run_bind, run_lift, Hh, run_bind, run_lift, Hr.
  rewrite run_bind, run_findLoginsForRealm.
  destruct (found o r s); reflexivity.
Qed.

Lemma run_getSecret (server realm o : string) (w : World) (s : State)
    (tr : list request) :
  validateHostname pf (VStr server) = inr o -> allowed_realm realm = true ->
  run (getSecret pf server realm) w s tr =
  (inr (snd <$> first_credentials (found o realm s)), searched o realm s, tr).
Proof.
  intros Hh Hr. unfold getSecret.
  rewrite run_bind, (run_getCredentials _ _ o realm) by
    (auto using validateRealm_accepts).
  destruct (first_credentials (found o realm s)) as [[u p]|]; reflexivity.
Qed.

(** The second tier, for a server whose origin both validators accept. *)
Lemma run_stored_token_session (accountId server o : string) (api0 : SeafileAPI)
    (w : World) (s : State) (tr : list request) :
  validateHostname pf (VStr server) = inr o ->
  new_SeafileAPI pf (VStr server) = inr api0 ->
  run (stored_token_session pf accountId server) w s tr =
  match snd <$> first_credentials (found o REALMS_TOKEN s) with
  | Some t =>
      if truthy (VStr t) then
        let api := {| serverUrl := serverUrl api0; token := VStr t |} in
        if probe_alive w tr api
        then (inr (Some api),
              set_apiCache (insert accountId api) (searched o REALMS_TOKEN s),
              ping_request api :: tr)
        else (inr None, searched o REALMS_TOKEN s, ping_request api :: tr)
      else (inr None, searched o REALMS_TOKEN s, tr)
  | None => (inr None, searched o REALMS_TOKEN s, tr)
  end.
Proof.
  intros Hh Hnew. unfold stored_token_session.
  rewrite run_bind, (run_getSecret _ _ o) by (exact Hh || reflexivity).
  destruct (snd <$> first_credentials (found o REALMS_TOKEN s)) as [t|];
    [|reflexivity].
  destruct (truthy (VStr t)); [|reflexivity].
  rewrite run_bind, run_lift, Hnew. cbv zeta.
  rewrite run_try_catch, run_bind, run_ping. unfold probe_alive.
  destruct (w tr (ping_request _)) as [|resp]; [reflexivity|].
  destruct (ok resp); reflexivity.
Qed.

(** C6, as the code has it.  [ping] answers [response.ok] when the fetch
    settles with a response, so a 401 gives [false], and throws when the
    fetch fails on the network.  In [getAuthenticatedAPI] a probe that
    throws and a probe that answers [false] are treated alike: the first
    tier evicts the cached instance and goes on, the second tier goes on,
    neither throws. *)
Theorem ping_result_and_guarded_probe (accountId server o : string)
    (api api0 : SeafileAPI) (w : World) (s : State) (tr : list request) :
  (forall resp, w tr (ping_request api) = Response resp ->
     run (ping api) w s tr = (inr (ok resp), s, ping_request api :: tr) /\
     (status resp = 401 -> ok resp = false)) /\
  (w tr (ping_request api) = NetworkError ->
     exists m, run (ping api) w s tr
               = (inl (TypeError m), s, ping_request api :: tr)) /\
  (apiCache s !! accountId = Some api -> probe_alive w tr api = false ->
     run (cached_session accountId) w s tr
     = (inr None, set_apiCache (delete accountId) s, ping_request api :: tr)) /\
  (validateHostname pf (VStr server) = inr o ->
   new_SeafileAPI pf (VStr server) = inr api0 ->
   serverUrl api = serverUrl api0 ->
   forall t, token api = VStr t -> t <> "" ->
     snd <$> first_credentials (found o REALMS_TOKEN s) = Some t ->
     probe_alive w tr api = false ->
     run (stored_token_session pf accountId server) w s tr
     = (inr None, searched o REALMS_TOKEN s, ping_request api :: tr)).
Proof.
  split; [|split; [|split]].
  - intros resp H. rewrite run_ping, H. split; [reflexivity|].
    unfold ok. now intros ->.
  - intros H. rewrite run_ping, H. eauto.
  - intros Hc Hp. now rewrite run_cached_session, Hc, Hp.
  - intros Hh Hnew Hurl t Ht Hne Hsec Hp.
    rewrite (run_stored_token_session _ _ o api0) by assumption.
    rewrite Hsec.
    assert (Htr : truthy (VStr t) = true) by (destruct t; [congruence|reflexivity]).
    rewrite Htr. cbv zeta.
    assert (Hapi : {| serverUrl := serverUrl api0; token := VStr t |} = api).
    { destruct api as [su tk]. cbn in *. now subst. }
    now rewrite Hapi, Hp.
Qed.

(** ** The upload ticket *)

(** [getUploadLink] when the server answers with a URL that parses: the
    host names decide. *)
Lemma run_getUploadLink (api : SeafileAPI) (repoId : string)
    (parentDir link : value) (resp : response) (uploadUrl server : url)
    (w : World) (s : State) (tr : list request) :
  w tr (upload_link_request pf api repoId parentDir) = Response resp ->
  ok resp = true -> json resp = Some link ->
  URL pf (link_text link) = Some uploadUrl ->
  URL pf (serverUrl api) = Some server ->
  run (getUploadLink pf api repoId parentDir) w s tr =
  if negb (String.eqb (hostname uploadUrl) (hostname server))
  then (inl (seafileError pf "UPLOAD_LINK_UNTRUSTED"
               "errorUploadLinkUntrusted" []),
        s, upload_link_request pf api repoId parentDir :: tr)
  else (inr (link_text link), s,
        upload_link_request pf api repoId parentDir :: tr).
Proof.
  intros Hw Hok Hjson Hup Hsrv.
  unfold getUploadLink. rewrite run_bind, run_request_plain, run_fetch.
  fold (upload_link_request pf api repoId parentDir). rewrite Hw, Hok.
  cbn [negb]. rewrite run_bind. unfold response_json. rewrite Hjson.
  cbn [run]. fold (link_text link). rewrite run_bind, run_try_catch.
  rewrite Hup, Hsrv.
  destruct (negb (String.eqb (hostname uploadUrl) (hostname server)));
    reflexivity.
Qed.

(** ** Origin normalization *)

Lemma validateServerUrl_accepts (x : value) (o : string) :
  validateServerUrl pf x = inr o ->
  exists s u, URL pf s = Some u /\
              (protocol u = "https:" \/ protocol u = "http:") /\ origin u = o.
Proof.
  unfold validateServerUrl. destruct x as [| |b|z|s|l|f]; try discriminate.
  destruct (negb (truthy (VStr s))); [discriminate|].
  destruct (URL pf _) as [u|] eqn:Hu; [|discriminate].
  destruct (String.eqb (protocol u) "https:") eqn:H1.
  - intros [= <-]. apply String.eqb_eq in H1. eauto 6.
  - destruct (String.eqb (protocol u) "http:") eqn:H2; [|discriminate].
    intros [= <-]. apply String.eqb_eq in H2. eauto 6.
Qed.

(** Normalizing an origin the normalizer has produced gives it back. *)
Lemma validateServerUrl_fixpoint (x : value) (o : string) :
  origin_stable pf ->
  validateServerUrl pf x = inr o -> validateServerUrl pf (VStr o) = inr o.
Proof.
  intros Hst Hx.
  destruct (validateServerUrl_accepts x o Hx) as (s & u & Hu & Hp & <-).
  destruct (Hst s u Hu Hp) as (Hne & Htrim & Hslash & u' & Hu' & Hp' & Ho').
  unfold validateServerUrl.
  assert (Ht : negb (truthy (VStr (origin u))) = false).
  { destruct (origin u); [congruence|reflexivity]. }
  rewrite Ht, Htrim, Hslash, Hu', Hp', Ho'.
  destruct Hp as [-> | ->]; reflexivity.
Qed.

(** C9. On a platform whose URL parser keeps origins stable, origin
    normalization is idempotent: whenever [validateServerUrl] accepts [x],
    it accepts its own output and returns it unchanged. *)
Theorem validateServerUrl_idempotent (x : value) (o : string) :
  origin_stable pf ->
  validateServerUrl pf x = inr o ->
  validateServerUrl pf (VStr o) = validateServerUrl pf x.
Proof.
  intros Hst Hx. rewrite Hx. exact (validateServerUrl_fixpoint x o Hst Hx).
Qed.

(** ** Session acquisition *)

Lemma validateServerUrl_truthy (x : value) (o : string) :
  validateServerUrl pf x = inr o -> truthy x = true.
Proof.
  unfold validateServerUrl. destruct x as [| |b|z|s|l|f]; try discriminate.
  destruct (truthy (VStr s)); [reflexivity|discriminate].
Qed.

Lemma new_SeafileAPI_origin (x : value) (server : string) :
  origin_stable pf -> validateServerUrl pf x = inr server ->
  new_SeafileAPI pf (VStr server) = inr {| serverUrl := server; token := VNull |}.
Proof.
  intros Hst Hx. unfold new_SeafileAPI.
  now rewrite (validateServerUrl_fixpoint x server Hst Hx).
Qed.

(** [getAuthenticatedAPI] is its three tiers in order. *)
Lemma run_getAuthenticatedAPI (accountId server : string) (c : AccountConfig)
    (w : World) (s : State) (tr : list request) :
  storage s !! ("account_" +:+ accountId) = Some c ->
  validateServerUrl pf (cfg_serverUrl c) = inr server ->
  run (getAuthenticatedAPI pf accountId) w s tr =
  match run (cached_session accountId) w s tr with
  | (inr (Some api), s1, tr1) => (inr api, s1, tr1)
  | (inr None, s1, tr1) =>
      match run (stored_token_session pf accountId server) w s1 tr1 with
      | (inr (Some api), s2, tr2) => (inr api, s2, tr2)
      | (inr None, s2, tr2) => run (reauthenticate pf accountId server) w s2 tr2
      | (inl e, s2, tr2) => (inl e, s2, tr2)
      end
  | (inl e, s1, tr1) => (inl e, s1, tr1)
  end.
Proof.
  intros Hc Hv. unfold getAuthenticatedAPI, loadAccountConfig.
  cbn [bind run]. rewrite Hc. rewrite (validateServerUrl_truthy _ _ Hv).
  cbn [negb]. rewrite run_bind, run_lift, Hv, run_bind.
  destruct (run (cached_session accountId) w s tr) as [[[e|[api|]] s1] tr1];
    try reflexivity.
  rewrite run_bind.
  destruct (run (stored_token_session pf accountId server) w s1 tr1)
    as [[[e|[api|]] s2] tr2]; reflexivity.
Qed.

Lemma run_cache_miss (accountId : string) (w : World) (s : State)
    (tr : list request) :
  cache_miss accountId w s tr = true ->
  run (cached_session accountId) w s tr
  = (inr None, (after_cache_miss accountId s tr).1,
     (after_cache_miss accountId s tr).2).
Proof.
  unfold cache_miss, after_cache_miss. rewrite run_cached_session.
  destruct (apiCache s !! accountId) as [api|]; [|reflexivity].
  intros H. apply negb_true_iff in H. now rewrite H.
Qed.

Lemma run_token_miss (accountId server o : string) (x : value) (w : World)
    (s : State) (tr : list request) :
  origin_stable pf -> validateServerUrl pf x = inr server ->
  validateHostname pf (VStr server) = inr o ->
  token_miss server o w s tr = true ->
  run (stored_token_session pf accountId server) w s tr
  = (inr None, (after_token_miss server o s tr).1,
     (after_token_miss server o s tr).2).
Proof.
  intros Hst Hx Hh. unfold token_miss, after_token_miss, stored_token.
  rewrite (run_stored_token_session _ _ o _ w s tr Hh
             (new_SeafileAPI_origin x server Hst Hx)).
  destruct (snd <$> first_credentials (found o REALMS_TOKEN s)) as [t|];
    [|reflexivity].
  destruct (truthy (VStr t)); [|reflexivity].
  cbv zeta. cbn [serverUrl]. fold (session server t).
  intros H. apply negb_true_iff in H. now rewrite H.
Qed.

(** A successful authentication without a one-time code. *)
Lemma run_authenticate (api0 : SeafileAPI) (u p : string) (resp : response)
    (data tok : value) (w : World) (s : State) (tr : list request) :
  w tr (auth_request (serverUrl api0) u p) = Response resp ->
  ok resp = true -> json resp = Some data ->
  get_prop data "token" = inr tok ->
  run (authenticate pf api0 u p VNull) w s tr
  = (inr {| serverUrl := serverUrl api0; token := tok |}, s,
     auth_request (serverUrl api0) u p :: tr).
Proof.
  intros Hw Hok Hjson Htok. unfold authenticate. cbn [truthy].
  rewrite run_bind. cbn [run]. rewrite run_bind, run_fetch.
  fold (auth_request (serverUrl api0) u p). rewrite Hw, Hok. cbn [negb].
  rewrite run_bind. unfold response_json. rewrite Hjson. cbn [run].
  now rewrite run_bind, run_lift, Htok.
Qed.

Lemma run_saveSecret (server realm o u t : string) (w : World) (s : State)
    (tr : list request) :
  validateHostname pf (VStr server) = inr o -> allowed_realm realm = true ->
  u <> "" -> t <> "" ->
  exists s',
    run (saveSecret pf server realm u (VStr t)) w s tr = (inr tt, s', tr) /\
    List.filter (same_entry o realm u) (logins s') = [new_login o realm u t] /\
    same_maps s s'.
Proof.
  intros Hh Hr Hu Ht. unfold saveSecret.
  assert (H0 : negb (truthy (VStr t)) || (String.length t =? 0)%nat = false).
  { destruct t; [congruence|reflexivity]. }
  rewrite H0, run_bind.
  destruct (run_saveCredentials (VStr server) (VStr realm) o realm u t w s tr
              Hh (validateRealm_accepts realm Hr) Hu)
    as (s' & removals & Hrun & Hlog & _ & _ & Hmaps).
  rewrite Hrun. exists s'. split; [reflexivity|]. split; [|exact Hmaps].
  rewrite Hlog, List.filter_app, filter_filter_same.
  cbn [List.filter]. rewrite same_entry_new_login.
  rewrite filter_none; [reflexivity|].
  intros l _. now destruct (same_entry o realm u l).
Qed.

Lemma run_reauthenticate_no_credentials (accountId server o : string)
    (w : World) (s : State) (tr : list request) :
  validateHostname pf (VStr server) = inr o ->
  first_credentials (found o REALMS_PASSWORD s) = None ->
  run (reauthenticate pf accountId server) w s tr
  = (inl (seafileError pf "NO_CREDENTIALS" "errorNoCredentials" []),
     searched o REALMS_PASSWORD s, tr).
Proof.
  intros Hh Hnone. unfold reauthenticate.
  rewrite run_bind, (run_getCredentials _ _ o REALMS_PASSWORD) by
    (exact Hh || reflexivity).
  now rewrite Hnone.
Qed.

Lemma run_reauthenticate (accountId server o u p t : string) (x : value)
    (resp : response) (data : value) (w : World) (s : State)
    (tr : list request) :
  origin_stable pf -> validateServerUrl pf x = inr server ->
  validateHostname pf (VStr server) = inr o ->
  first_credentials (found o REALMS_PASSWORD s) = Some (u, p) -> u <> "" ->
  w tr (auth_request server u p) = Response resp ->
  ok resp = true -> json resp = Some data ->
  get_prop data "token" = inr (VStr t) -> t <> "" ->
  exists s',
    run (reauthenticate pf accountId server) w s tr
    = (inr (session server t), s', auth_request server u p :: tr) /\
    List.filter (same_entry o REALMS_TOKEN u) (logins s')
    = [new_login o REALMS_TOKEN u t] /\
    apiCache s' = <[accountId := session server t]> (apiCache s) /\
    storage s' = storage s /\ uploadedFiles s' = uploadedFiles s.
Proof.
  intros Hst Hx Hh Hcred Hu Hw Hok Hjson Htok Ht. unfold reauthenticate.
  rewrite run_bind, (run_getCredentials _ _ o REALMS_PASSWORD) by
    (exact Hh || reflexivity).
  rewrite Hcred, run_bind, run_lift, (new_SeafileAPI_origin x server Hst Hx).
  rewrite run_bind.
  rewrite (run_authenticate {| serverUrl := server; token := VNull |} u p resp
             data (VStr t)) by assumption.
  cbn [serverUrl token]. fold (session server t). rewrite run_bind.
  destruct (run_saveSecret server REALMS_TOKEN o u t w
              (searched o REALMS_PASSWORD s)
              (auth_request server u p :: tr) Hh eq_refl Hu Ht)
    as (s1 & Hrun & Hlog & Hsto & Hcache & Hup).
  rewrite Hrun, run_bind, run_modify. cbn [run].
  eexists. split; [reflexivity|].
  cbn [set_apiCache logins apiCache storage uploadedFiles].
  rewrite Hcache, Hsto, Hup. auto.
Qed.

Lemma startsWith_refl (s : string) : startsWith s s = true.
Proof.
  induction s as [|c r IH]; [reflexivity|]. simpl.
  now rewrite Ascii.eqb_refl, IH.
Qed.

Lemma includes_suffix (a b : string) : includes (a +:+ b) b = true.
Proof.
  induction a as [|c a IH].
  - destruct b; simpl; [reflexivity|].
    now rewrite Ascii.eqb_refl, startsWith_refl.
  - change (String c a +:+ b) with (String c (a +:+ b)).
    change (includes (String c (a +:+ b)) b)
      with (startsWith (String c (a +:+ b)) b || includes (a +:+ b) b).
    rewrite IH. apply orb_true_r.
Qed.

Lemma auth_calls_ping (api : SeafileAPI) (tr : list request) :
  auth_calls (ping_request api :: tr) = auth_calls tr.
Proof. reflexivity. Qed.

Lemma auth_calls_auth (server u p : string) (tr : list request) :
  auth_calls (auth_request server u p :: tr)
  = auth_request server u p :: auth_calls tr.
Proof.
  unfold auth_calls. cbn [List.filter method target auth_request].
  now rewrite includes_suffix.
Qed.

Lemma auth_calls_after_cache_miss (accountId : string) (s : State)
    (tr : list request) :
  auth_calls (after_cache_miss accountId s tr).2 = auth_calls tr.
Proof.
  unfold after_cache_miss. now destruct (apiCache s !! accountId).
Qed.

Lemma auth_calls_after_token_miss (server o : string) (s : State)
    (tr : list request) :
  auth_calls (after_token_miss server o s tr).2 = auth_calls tr.
Proof.
  unfold after_token_miss. cbn [snd].
  destruct (stored_token o s) as [t|]; [|reflexivity].
  now destruct (truthy (VStr t)).
Qed.

(** C1. Session acquisition follows the three tiers in order.  Without a
    configuration (or with one that has no server URL) it throws
    [NO_CONFIG] before anything else happens.  Otherwise: a cached instance
    whose probe succeeds is returned as it is; if there is none, or its
    probe fails, a stored token whose session passes the probe is cached
    and returned, with no call to the authentication endpoint; if that
    misses too, the stored password is used for exactly one authentication
    call, the token obtained is stored in the token realm, the session is
    cached and returned; and with no stored password the call throws
    [NO_CREDENTIALS]. *)
Theorem getAuthenticatedAPI_three_tiers (accountId : string) (w : World)
    (s : State) (tr : list request) :
  origin_stable pf ->
  let acquire := run (getAuthenticatedAPI pf accountId) w s tr in
  (storage s !! ("account_" +:+ accountId) = None ->
     acquire = (inl (seafileError pf "NO_CONFIG" "errorNoConfig" []), s, tr)) /\
  (forall c, storage s !! ("account_" +:+ accountId) = Some c ->
     truthy (cfg_serverUrl c) = false ->
     acquire = (inl (seafileError pf "NO_CONFIG" "errorNoConfig" []), s, tr)) /\
  (forall c server,
     storage s !! ("account_" +:+ accountId) = Some c ->
     validateServerUrl pf (cfg_serverUrl c) = inr server ->
     (forall api, apiCache s !! accountId = Some api ->
        probe_alive w tr api = true ->
        acquire = (inr api, s, ping_request api :: tr)) /\
     (forall o, validateHostname pf (VStr server) = inr o ->
      cache_miss accountId w s tr = true ->
      let s1 := (after_cache_miss accountId s tr).1 in
      let tr1 := (after_cache_miss accountId s tr).2 in
      (forall t, stored_token o s1 = Some t -> t <> "" ->
         probe_alive w tr1 (session server t) = true ->
         acquire = (inr (session server t),
                    set_apiCache (insert accountId (session server t))
                      (searched o REALMS_TOKEN s1),
                    ping_request (session server t) :: tr1) /\
         auth_calls (ping_request (session server t) :: tr1) = auth_calls tr) /\
      (token_miss server o w s1 tr1 = true ->
       let s2 := (after_token_miss server o s1 tr1).1 in
       let tr2 := (after_token_miss server o s1 tr1).2 in
       (first_credentials (found o REALMS_PASSWORD s2) = None ->
          acquire = (inl (seafileError pf "NO_CREDENTIALS" "errorNoCredentials" []),
                     searched o REALMS_PASSWORD s2, tr2) /\
          auth_calls tr2 = auth_calls tr) /\
       (forall u p resp data t,
          first_credentials (found o REALMS_PASSWORD s2) = Some (u, p) ->
          u <> "" ->
          w tr2 (auth_request server u p) = Response resp ->
          ok resp = true -> json resp = Some data ->
          get_prop data "token" = inr (VStr t) -> t <> "" ->
          exists s',
            acquire = (inr (session server t), s',
                       auth_request server u p :: tr2) /\
            auth_calls (auth_request server u p :: tr2)
            = auth_request server u p :: auth_calls tr /\
            List.filter (same_entry o REALMS_TOKEN u) (logins s')
            = [new_login o REALMS_TOKEN u t] /\
            apiCache s' !! accountId = Some (session server t))))).
Proof.
  intros Hst acquire. subst acquire. split; [|split].
  - intros Hnone. unfold getAuthenticatedAPI, loadAccountConfig.
    cbn [bind run]. now rewrite Hnone.
  - intros c Hc Hfalsy. unfold getAuthenticatedAPI, loadAccountConfig.
    cbn [bind run]. now rewrite Hc, Hfalsy.
  - intros c server Hc Hv.
    rewrite (run_getAuthenticatedAPI accountId server c w s tr Hc Hv).
    split.
    + intros api Hapi Halive. now rewrite run_cached_session, Hapi, Halive.
    + intros o Hh Hmiss s1 tr1. rewrite (run_cache_miss _ _ _ _ Hmiss).
      fold s1 tr1. split.
      * intros t Htok Hne Halive. split.
        -- rewrite (run_stored_token_session _ _ o _ w s1 tr1 Hh
                      (new_SeafileAPI_origin _ server Hst Hv)).
           fold (stored_token o s1). rewrite Htok.
           assert (Htr : truthy (VStr t) = true)
             by (destruct t; [congruence|reflexivity]).
           rewrite Htr. cbv zeta. cbn [serverUrl]. fold (session server t).
           now rewrite Halive.
        -- rewrite auth_calls_ping. apply auth_calls_after_cache_miss.
      * intros Hmiss2 s2 tr2.
        rewrite (run_token_miss _ _ o _ w s1 tr1 Hst Hv Hh Hmiss2).
        fold s2 tr2.
        assert (Hcalls : auth_calls tr2 = auth_calls tr).
        { unfold tr2. rewrite auth_calls_after_token_miss.
          apply auth_calls_after_cache_miss. }
        split.
        -- intros Hnone. split; [|exact Hcalls].
           now apply run_reauthenticate_no_credentials.
        -- intros u p resp data t Hcred Hu Hw Hok Hjson Htok Ht.
           destruct (run_reauthenticate accountId server o u p t _ resp data
                       w s2 tr2 Hst Hv Hh Hcred Hu Hw Hok Hjson Htok Ht)
             as (s' & Hrun & Hlog & Hcache & _).
           exists s'. split; [exact Hrun|]. split; [|split].
           ++ now rewrite auth_calls_auth, Hcalls.
           ++ exact Hlog.
           ++ rewrite Hcache. apply lookup_insert_eq.
Qed.

(** ** The upload listener *)

(** *** What leaves the table of uploaded files alone *)

Lemma keeps_ret {A : Type} (a : A) : keeps_uploads (Ret a).
Proof. intros w s tr. reflexivity. Qed.

Lemma keeps_throw {A : Type} (e : exn) : keeps_uploads (@Throw A e).
Proof. intros w s tr. reflexivity. Qed.

Lemma keeps_lift {A : Type} (r : result A) : keeps_uploads (lift r).
Proof. intros w s tr. now rewrite run_lift. Qed.

Lemma keeps_fetch (r : request) : keeps_uploads (fetch r).
Proof. intros w s tr. rewrite run_fetch. now destruct (w tr r). Qed.

Lemma keeps_bind {A B : Type} (p : Prog A) (f : A -> Prog B) :
  keeps_uploads p -> (forall a, keeps_uploads (f a)) ->
  keeps_uploads (bind p f).
Proof.
  intros Hp Hf w s tr. rewrite run_bind. specialize (Hp w s tr).
  destruct (run p w s tr) as [[[e|a] s1] tr1]; cbn in Hp |- *; [exact Hp|].
  now rewrite Hf.
Qed.

Lemma keeps_try_catch {A : Type} (p : Prog A) (h : exn -> Prog A) :
  keeps_uploads p -> (forall e, keeps_uploads (h e)) ->
  keeps_uploads (try_catch p h).
Proof.
  intros Hp Hh w s tr. rewrite run_try_catch. specialize (Hp w s tr).
  destruct (run p w s tr) as [[[e|a] s1] tr1]; cbn in Hp |- *; [|exact Hp].
  now rewrite Hh.
Qed.

Lemma keeps_get {A : Type} (k : State -> Prog A) :
  (forall s, keeps_uploads (k s)) -> keeps_uploads (Get k).
Proof. intros Hk w s tr. exact (Hk s w s tr). Qed.

Lemma keeps_modify (f : State -> State) :
  (forall s, uploadedFiles (f s) = uploadedFiles s) ->
  keeps_uploads (modify f).
Proof. intros Hf w s tr. exact (Hf s). Qed.

Lemma keeps_lm_search (o realm : string) : keeps_uploads (lm_search o realm).
Proof. intros w s tr. reflexivity. Qed.

Create HintDb keeps.

#[local] Hint Resolve keeps_ret keeps_throw keeps_lift keeps_fetch
  keeps_lm_search : keeps.

(** Decomposes a program along its binds, handlers and case distinctions. *)
Ltac keeps_step :=
  match goal with
  | |- keeps_uploads (bind _ _) => apply keeps_bind; [|intros ?]
  | |- keeps_uploads (try_catch _ _) => apply keeps_try_catch; [|intros ?]
  | |- keeps_uploads (Get _) => apply keeps_get; intros ?
  | |- keeps_uploads (modify _) => apply keeps_modify; intros ?; reflexivity
  | |- keeps_uploads (if ?b then _ else _) => destruct b
  | |- keeps_uploads (match ?x with _ => _ end) => destruct x
  | |- keeps_uploads _ => solve [auto with keeps]
  end.

Ltac keeps := repeat keeps_step.

Lemma keeps_request (api : SeafileAPI) (m path : string)
    (b : option (list (string * value))) (bodyType : option string) :
  keeps_uploads (_request api m path b bodyType).
Proof.
  unfold _request. keeps.
Qed.

#[local] Hint Resolve keeps_request : keeps.

Lemma keeps_response_json (r : response) : keeps_uploads (response_json r).
Proof. unfold response_json. keeps. Qed.

#[local] Hint Resolve keeps_response_json : keeps.

Lemma keeps_ping (api : SeafileAPI) : keeps_uploads (ping api).
Proof. unfold ping. keeps. Qed.

Lemma keeps_authenticate (api : SeafileAPI) (u p : string) (otp : value) :
  keeps_uploads (authenticate pf api u p otp).
Proof. unfold authenticate. keeps. Qed.

Lemma keeps_ensureDirectory (api : SeafileAPI) (repoId : string) (path : value) :
  keeps_uploads (ensureDirectory pf api repoId path).
Proof. unfold ensureDirectory. keeps. Qed.

Lemma keeps_getUploadLink (api : SeafileAPI) (repoId : string) (dir : value) :
  keeps_uploads (getUploadLink pf api repoId dir).
Proof. unfold getUploadLink. keeps. Qed.

Lemma keeps_uploadFile (api : SeafileAPI) (link : string) (dir : value)
    (name data : string) (sig : option nat) :
  keeps_uploads (uploadFile pf api link dir name data sig).
Proof. unfold uploadFile. keeps. Qed.

Lemma keeps_createShareLink (api : SeafileAPI) (repoId : string) (path : value)
    (options : ShareLinkOptions) :
  keeps_uploads (createShareLink pf api repoId path options).
Proof. unfold createShareLink. keeps. Qed.

Lemma keeps_deleteFile (api : SeafileAPI) (repoId : string) (path : value) :
  keeps_uploads (deleteFile pf api repoId path).
Proof. unfold deleteFile. keeps. Qed.

#[local] Hint Resolve keeps_ping keeps_authenticate keeps_ensureDirectory
  keeps_getUploadLink keeps_uploadFile keeps_createShareLink
  keeps_deleteFile : keeps.

Lemma keeps_findLoginsForRealm (o realm : string) :
  keeps_uploads (findLoginsForRealm pf o realm).
Proof.
  unfold findLoginsForRealm, lm_searchLoginsAsync, lm_searchLogins, lm_findLogins.
  keeps.
Qed.

Lemma keeps_remove_existing (existing : list LoginInfo) (u : string) :
  keeps_uploads (remove_existing existing u).
Proof.
  induction existing as [|e ex IH]; cbn [remove_existing]; [keeps|].
  apply keeps_bind; [|intros _; exact IH].
  unfold lm_removeLogin. keeps.
Qed.

#[local] Hint Resolve keeps_findLoginsForRealm keeps_remove_existing : keeps.

Lemma keeps_saveCredentials (h realm u p : value) :
  keeps_uploads (saveCredentials pf h realm u p).
Proof. unfold saveCredentials, lm_addLoginAsync. keeps. Qed.

Lemma keeps_getCredentials (h realm : value) :
  keeps_uploads (getCredentials pf h realm).
Proof. unfold getCredentials. keeps. Qed.

#[local] Hint Resolve keeps_saveCredentials keeps_getCredentials : keeps.

Lemma keeps_getSecret (server realm : string) :
  keeps_uploads (getSecret pf server realm).
Proof. unfold getSecret. keeps. Qed.

Lemma keeps_saveSecret (server realm key : string) (v : value) :
  keeps_uploads (saveSecret pf server realm key v).
Proof. unfold saveSecret. keeps. Qed.

#[local] Hint Resolve keeps_getSecret keeps_saveSecret : keeps.

Lemma keeps_getAuthenticatedAPI (accountId : string) :
  keeps_uploads (getAuthenticatedAPI pf accountId).
Proof.
  unfold getAuthenticatedAPI, loadAccountConfig, cached_session,
    stored_token_session, reauthenticate.
  keeps.
Qed.

(** *** The listener step by step *)

Lemma run_createShareLink (api : SeafileAPI) (repoId : string) (path v : value)
    (options : ShareLinkOptions) (w : World) (s s' : State)
    (tr tr' : list request) :
  run (createShareLink pf api repoId path options) w s tr = (inr v, s', tr') ->
  s' = s /\ tr' = share_link_request api repoId path options :: tr /\
  exists resp, w tr (share_link_request api repoId path options) = Response resp
               /\ ok resp = true /\ json resp = Some v.
Proof.
  unfold createShareLink. rewrite run_bind, run_request_json, run_fetch.
  fold (share_link_request api repoId path options).
  destruct (w tr _) as [|resp]; [discriminate|].
  destruct (ok resp) eqn:Hok; cbn [negb]; [|discriminate].
  unfold response_json. destruct (json resp) as [j|] eqn:Hj; [|discriminate].
  cbn [run]. intros [= <- <- <-]. split; [reflexivity|].
  split; [reflexivity|]. exists resp. auto.
Qed.

(** The listener turns an exception of its [try] block into an error
    result. *)
Lemma run_onFileUpload_caught (now : Z) (accountId : string) (id : Z)
    (name data : string) (e : exn) (w : World) (s s' : State)
    (tr tr' : list request) :
  run (upload_steps pf now accountId id name data) w s tr = (inl e, s', tr') ->
  run (onFileUpload pf now accountId id name data) w s tr
  = (inr (UploadError (error_text pf e)), s', tr').
Proof. intros H. unfold onFileUpload. now rewrite run_try_catch, H. Qed.

Lemma run_loadAccountConfig (accountId : string) (w : World) (s : State)
    (tr : list request) :
  run (loadAccountConfig accountId) w s tr
  = (inr (storage s !! ("account_" +:+ accountId)), s, tr).
Proof. reflexivity. Qed.

(** Once the [token] property of the share link has been read, reading
    its [link] property cannot throw. *)
Lemma get_prop_total (v : value) (k k' : string) (x : value) :
  get_prop v k = inr x -> exists y, get_prop v k' = inr y.
Proof. destruct v; try discriminate; intros _; cbn; eauto. Qed.

(** The [try] block as its steps in sequence. *)
Lemma run_upload_steps (now : Z) (accountId : string) (id : Z)
    (name data : string) (w : World) (s : State) (tr : list request) :
  run (upload_steps pf now accountId id name data) w s tr =
  match run (getAuthenticatedAPI pf accountId) w s tr with
  | (inl e, s1, tr1) => (inl e, s1, tr1)
  | (inr api, s1, tr1) =>
  match storage s1 !! ("account_" +:+ accountId) with
  | None => (inl (TypeError "config is null"), s1, tr1)
  | Some c =>
  match run (ensureDirectory pf api (cfg_repoId c) (VStr (upload_dir c)))
            w s1 tr1 with
  | (inl e, s2, tr2) => (inl e, s2, tr2)
  | (inr _, s2, tr2) =>
  match run (getUploadLink pf api (cfg_repoId c) (VStr (upload_dir c)))
            w s2 tr2 with
  | (inl e, s3, tr3) => (inl e, s3, tr3)
  | (inr uploadLink, s3, tr3) =>
  match run (uploadFile pf api uploadLink (VStr (upload_dir c)) name data None)
            w s3 tr3 with
  | (inl e, s4, tr4) => (inl e, s4, tr4)
  | (inr _, s4, tr4) =>
  match validateServerUrl pf (cfg_serverUrl c) with
  | inl e => (inl e, s4, tr4)
  | inr server =>
  match run (getSecret pf server REALMS_SHARE_PW) w s4 tr4 with
  | (inl e, s5, tr5) => (inl e, s5, tr5)
  | (inr sharePw, s5, tr5) =>
  match run (createShareLink pf api (cfg_repoId c) (VStr (file_path c name))
               (share_options c sharePw)) w s5 tr5 with
  | (inl e, s6, tr6) => (inl e, s6, tr6)
  | (inr shareLink, s6, tr6) =>
  match get_prop shareLink "token", get_prop shareLink "link" with
  | inr shareLinkToken, inr link =>
      (inr (UploadUrl link
              {| service_url := cfg_serverUrl c;
                 download_expiry_date :=
                   if truthy (VNum (cfg_shareLinkExpireDays c))
                      && (0 <? cfg_shareLinkExpireDays c)
                   then Some (addDays pf now (cfg_shareLinkExpireDays c))
                   else None;
                 download_password_protected :=
                   match sharePw with
                   | Some p => truthy (VStr p)
                   | None => false
                   end |}),
       set_uploadedFiles
         (insert id {| up_repoId := cfg_repoId c;
                       up_filePath := file_path c name;
                       up_accountId := accountId;
                       up_shareLinkToken := shareLinkToken |}) s6,
       tr6)
  | inl e, _ => (inl e, s6, tr6)
  | inr _, inl e => (inl e, s6, tr6)
  end end end end end end end end end.
Proof.
  unfold upload_steps. rewrite run_bind.
  destruct (run (getAuthenticatedAPI pf accountId) w s tr)
    as [[[e|api] s1] tr1]; [reflexivity|].
  rewrite run_bind, run_loadAccountConfig.
  destruct (storage s1 !! ("account_" +:+ accountId)) as [c|]; [|reflexivity].
  cbv zeta. fold (upload_dir c). rewrite run_bind.
  destruct (run (ensureDirectory pf api (cfg_repoId c) (VStr (upload_dir c)))
              w s1 tr1) as [[[e|[]] s2] tr2]; [reflexivity|].
  rewrite run_bind.
  destruct (run (getUploadLink pf api (cfg_repoId c) (VStr (upload_dir c)))
              w s2 tr2) as [[[e|uploadLink] s3] tr3]; [reflexivity|].
  rewrite run_bind.
  destruct (run (uploadFile pf api uploadLink (VStr (upload_dir c)) name data
                   None) w s3 tr3) as [[[e|v] s4] tr4]; [reflexivity|].
  rewrite run_bind, run_lift.
  destruct (validateServerUrl pf (cfg_serverUrl c)) as [e|server];
    [reflexivity|].
  rewrite run_bind.
  destruct (run (getSecret pf server REALMS_SHARE_PW) w s4 tr4)
    as [[[e|sharePw] s5] tr5]; [reflexivity|].
  fold (file_path c name).
  replace {| opt_password := _; opt_expireDays := _ |}
    with (share_options c sharePw)
    by (unfold share_options; destruct sharePw as [p|]; reflexivity).
  rewrite run_bind.
  destruct (run (createShareLink pf api (cfg_repoId c) (VStr (file_path c name))
                   (share_options c sharePw)) w s5 tr5)
    as [[[e|shareLink] s6] tr6]; [reflexivity|].
  rewrite run_bind, run_lift.
  destruct (get_prop shareLink "token") as [e|shareLinkToken] eqn:Htok;
    [reflexivity|].
  rewrite run_bind, run_modify, run_bind, run_lift.
  destruct (get_prop_total shareLink "token" "link" _ Htok) as [link ->].
  reflexivity.
Qed.


(** Reads off what a program that keeps the table did to it in a given
    run. *)
Lemma keeps_run {A : Type} (p : Prog A) (w : World) (s s' : State)
    (tr tr' : list request) (r : result A) :
  keeps_uploads p -> run p w s tr = (r, s', tr') ->
  uploadedFiles s' = uploadedFiles s.
Proof. intros K H. specialize (K w s tr). now rewrite H in K. Qed.

(** What a run of the [try] block leaves behind: an exception leaves the
    table alone; a result is a share URL, the table has gained the record of
    the upload, and the last request was the creation of the share link,
    answered with success. *)
Lemma upload_steps_outcome (now : Z) (accountId : string) (id : Z)
    (name data : string) (w : World) (s s' : State) (tr tr' : list request)
    (r : result UploadResult) :
  run (upload_steps pf now accountId id name data) w s tr = (r, s', tr') ->
  match r with
  | inl _ => uploadedFiles s' = uploadedFiles s
  | inr res =>
      exists link info record api repoId path options tr0 resp,
        res = UploadUrl link info /\
        uploadedFiles s' = <[id := record]> (uploadedFiles s) /\
        tr' = share_link_request api repoId path options :: tr0 /\
        w tr0 (share_link_request api repoId path options) = Response resp /\
        ok resp = true
  end.
Proof.
  rewrite run_upload_steps.
  destruct (run (getAuthenticatedAPI pf accountId) w s tr)
    as [[[e|api] s1] tr1] eqn:H1;
    pose proof (keeps_run _ _ _ _ _ _ _ (keeps_getAuthenticatedAPI accountId) H1)
      as K1; [now intros [= <- <- <-]|].
  destruct (storage s1 !! ("account_" +:+ accountId)) as [c|];
    [|now intros [= <- <- <-]].
  destruct (run (ensureDirectory pf api _ _) w s1 tr1)
    as [[[e|u] s2] tr2] eqn:H2;
    pose proof (keeps_run _ _ _ _ _ _ _ (keeps_ensureDirectory _ _ _) H2) as K2;
    [intros [= <- <- <-]; congruence|].
  destruct (run (getUploadLink pf api _ _) w s2 tr2)
    as [[[e|uploadLink] s3] tr3] eqn:H3;
    pose proof (keeps_run _ _ _ _ _ _ _ (keeps_getUploadLink _ _ _) H3) as K3;
    [intros [= <- <- <-]; congruence|].
  destruct (run (uploadFile pf api _ _ _ _ _) w s3 tr3)
    as [[[e|v] s4] tr4] eqn:H4;
    pose proof (keeps_run _ _ _ _ _ _ _ (keeps_uploadFile _ _ _ _ _ _) H4) as K4;
    [intros [= <- <- <-]; congruence|].
  destruct (validateServerUrl pf (cfg_serverUrl c)) as [e|server];
    [intros [= <- <- <-]; congruence|].
  destruct (run (getSecret pf server _) w s4 tr4)
    as [[[e|sharePw] s5] tr5] eqn:H5;
    pose proof (keeps_run _ _ _ _ _ _ _ (keeps_getSecret _ _) H5) as K5;
    [intros [= <- <- <-]; congruence|].
  destruct (run (createShareLink pf api _ _ _) w s5 tr5)
    as [[[e|shareLink] s6] tr6] eqn:H6;
    pose proof (keeps_run _ _ _ _ _ _ _ (keeps_createShareLink _ _ _ _) H6) as K6;
    [intros [= <- <- <-]; congruence|].
  destruct (get_prop shareLink "token") as [e|tok] eqn:Htok;
    [intros [= <- <- <-]; congruence|].
  destruct (get_prop_total shareLink "token" "link" _ Htok) as [link ->].
  intros [= <- <- <-].
  destruct (run_createShareLink _ _ _ _ _ _ _ _ _ _ H6)
    as (_ & -> & resp & Hw & Hok & _).
  do 9 eexists. split; [reflexivity|]. split; [|split; [reflexivity|]].
  - cbn [set_uploadedFiles uploadedFiles]. f_equal. congruence.
  - split; [exact Hw|exact Hok].
Qed.

(** C5. The upload listener never throws.  When it returns an error the
    table of uploaded files is as before; when it returns a share URL the
    table has gained the record of this upload and the last request was the
    creation of the share link, answered with success.  And each of the five
    steps (session acquisition, directory creation, ticket acquisition,
    upload, share-link creation), when it throws, makes the listener return
    an error there and then. *)
Theorem upload_failure_registers_nothing (now : Z) (accountId : string)
    (id : Z) (name data : string) (w : World) (s : State)
    (tr : list request) :
  let handled := run (onFileUpload pf now accountId id name data) w s tr in
  let failed e s' tr' := handled = (inr (UploadError (error_text pf e)), s', tr') in
  (exists res, handled.1.1 = inr res /\
     match res with
     | UploadError _ => uploadedFiles handled.1.2 = uploadedFiles s
     | UploadUrl _ _ =>
         exists record api repoId path options tr0 resp,
           uploadedFiles handled.1.2 = <[id := record]> (uploadedFiles s) /\
           handled.2 = share_link_request api repoId path options :: tr0 /\
           w tr0 (share_link_request api repoId path options) = Response resp /\
           ok resp = true
     end) /\
  (forall e s1 tr1,
     run (getAuthenticatedAPI pf accountId) w s tr = (inl e, s1, tr1) ->
     failed e s1 tr1) /\
  (forall api s1 tr1 c,
     run (getAuthenticatedAPI pf accountId) w s tr = (inr api, s1, tr1) ->
     storage s1 !! ("account_" +:+ accountId) = Some c ->
     (forall e s2 tr2,
        run (ensureDirectory pf api (cfg_repoId c) (VStr (upload_dir c)))
            w s1 tr1 = (inl e, s2, tr2) ->
        failed e s2 tr2) /\
     (forall u s2 tr2,
        run (ensureDirectory pf api (cfg_repoId c) (VStr (upload_dir c)))
            w s1 tr1 = (inr u, s2, tr2) ->
        (forall e s3 tr3,
           run (getUploadLink pf api (cfg_repoId c) (VStr (upload_dir c)))
               w s2 tr2 = (inl e, s3, tr3) ->
           failed e s3 tr3) /\
        (forall uploadLink s3 tr3,
           run (getUploadLink pf api (cfg_repoId c) (VStr (upload_dir c)))
               w s2 tr2 = (inr uploadLink, s3, tr3) ->
           (forall e s4 tr4,
              run (uploadFile pf api uploadLink (VStr (upload_dir c))
                     name data None) w s3 tr3 = (inl e, s4, tr4) ->
              failed e s4 tr4) /\
           (forall v s4 tr4 server sharePw s5 tr5 e s6 tr6,
              run (uploadFile pf api uploadLink (VStr (upload_dir c))
                     name data None) w s3 tr3 = (inr v, s4, tr4) ->
              validateServerUrl pf (cfg_serverUrl c) = inr server ->
              run (getSecret pf server REALMS_SHARE_PW) w s4 tr4
              = (inr sharePw, s5, tr5) ->
              run (createShareLink pf api (cfg_repoId c)
                     (VStr (file_path c name)) (share_options c sharePw))
                  w s5 tr5 = (inl e, s6, tr6) ->
              failed e s6 tr6)))).
Proof.
  intros handled failed. subst handled failed. cbv beta.
  split; [|split].
  - unfold onFileUpload. rewrite run_try_catch.
    destruct (run (upload_steps pf now accountId id name data) w s tr)
      as [[[e|res] s'] tr'] eqn:Hrun;
      pose proof (upload_steps_outcome _ _ _ _ _ _ _ _ _ _ _ Hrun) as Hout;
      cbn [run fst snd].
    + eexists. split; [reflexivity|]. exact Hout.
    + exists res. split; [reflexivity|].
      destruct Hout as (link & info & record & api & repoId & path & options
                        & tr0 & resp & -> & Hup & Htr & Hw & Hok).
      exists record, api, repoId, path, options, tr0, resp. auto.
  - intros e s1 tr1 H1. apply run_onFileUpload_caught.
    now rewrite run_upload_steps, H1.
  - intros api s1 tr1 c H1 Hc. split.
    + intros e s2 tr2 H2. apply run_onFileUpload_caught.
      now rewrite run_upload_steps, H1, Hc, H2.
    + intros u s2 tr2 H2. split.
      * intros e s3 tr3 H3. apply run_onFileUpload_caught.
        now rewrite run_upload_steps, H1, Hc, H2, H3.
      * intros uploadLink s3 tr3 H3. split.
        -- intros e s4 tr4 H4. apply run_onFileUpload_caught.
           now rewrite run_upload_steps, H1, Hc, H2, H3, H4.
        -- intros v s4 tr4 server sharePw s5 tr5 e s6 tr6 H4 Hv H5 H6.
           apply run_onFileUpload_caught.
           now rewrite run_upload_steps, H1, Hc, H2, H3, H4, Hv, H5, H6.
Qed.

(** C4. When the request for an upload ticket is answered with a URL whose
    host name differs from the host name of the session's server,
    [getUploadLink] throws [UPLOAD_LINK_UNTRUSTED] having sent nothing but
    that request, and the upload listener, which has reached this step
    after session acquisition and directory creation, returns that error
    with the ticket request as its last request: no upload is attempted.
    When the host names are equal [getUploadLink] returns the URL as
    received. *)
Theorem getUploadLink_checks_host (api : SeafileAPI) (repoId : string)
    (parentDir link : value) (resp : response) (uploadUrl server : url)
    (w : World) (s : State) (tr : list request) :
  w tr (upload_link_request pf api repoId parentDir) = Response resp ->
  ok resp = true -> json resp = Some link ->
  URL pf (link_text link) = Some uploadUrl ->
  URL pf (serverUrl api) = Some server ->
  let untrusted :=
    seafileError pf "UPLOAD_LINK_UNTRUSTED" "errorUploadLinkUntrusted" [] in
  (hostname uploadUrl <> hostname server ->
     run (getUploadLink pf api repoId parentDir) w s tr
     = (inl untrusted, s, upload_link_request pf api repoId parentDir :: tr) /\
     forall now accountId id name data c s0 tr0 s1 tr1 u,
       run (getAuthenticatedAPI pf accountId) w s0 tr0 = (inr api, s1, tr1) ->
       storage s1 !! ("account_" +:+ accountId) = Some c ->
       repoId = cfg_repoId c -> parentDir = VStr (upload_dir c) ->
       run (ensureDirectory pf api repoId parentDir) w s1 tr1 = (inr u, s, tr) ->
       run (onFileUpload pf now accountId id name data) w s0 tr0
       = (inr (UploadError (error_text pf untrusted)), s,
          upload_link_request pf api repoId parentDir :: tr)) /\
  (hostname uploadUrl = hostname server ->
     run (getUploadLink pf api repoId parentDir) w s tr
     = (inr (link_text link), s,
        upload_link_request pf api repoId parentDir :: tr)).
Proof.
  intros Hw Hok Hjson Hup Hsrv untrusted.
  pose proof (run_getUploadLink api repoId parentDir link resp uploadUrl server
                w s tr Hw Hok Hjson Hup Hsrv) as Hrun.
  split; intros H.
  - apply String.eqb_neq in H. rewrite H in Hrun. cbn [negb] in Hrun.
    split; [exact Hrun|].
    intros now accountId id name data c s0 tr0 s1 tr1 u H1 Hc -> -> H2.
    apply run_onFileUpload_caught.
    now rewrite run_upload_steps, H1, Hc, H2, Hrun.
  - apply String.eqb_eq in H. now rewrite H in Hrun.
Qed.

(** *** No request of the upload listener carries an abort signal *)

Lemma unsignalled_ret {A : Type} (a : A) : unsignalled (Ret a).
Proof. intros w s tr H. exact H. Qed.

Lemma unsignalled_throw {A : Type} (e : exn) : unsignalled (@Throw A e).
Proof. intros w s tr H. exact H. Qed.

Lemma unsignalled_lift {A : Type} (r : result A) : unsignalled (lift r).
Proof. intros w s tr H. now rewrite run_lift. Qed.

Lemma unsignalled_fetch (r : request) :
  signal r = None -> unsignalled (fetch r).
Proof.
  intros Hr w s tr H. rewrite run_fetch.
  destruct (w tr r); now constructor.
Qed.

Lemma unsignalled_bind {A B : Type} (p : Prog A) (f : A -> Prog B) :
  unsignalled p -> (forall a, unsignalled (f a)) -> unsignalled (bind p f).
Proof.
  intros Hp Hf w s tr H. rewrite run_bind. specialize (Hp w s tr H).
  destruct (run p w s tr) as [[[e|a] s1] tr1]; cbn in Hp |- *; [exact Hp|].
  now apply Hf.
Qed.

Lemma unsignalled_try_catch {A : Type} (p : Prog A) (h : exn -> Prog A) :
  unsignalled p -> (forall e, unsignalled (h e)) -> unsignalled (try_catch p h).
Proof.
  intros Hp Hh w s tr H. rewrite run_try_catch. specialize (Hp w s tr H).
  destruct (run p w s tr) as [[[e|a] s1] tr1]; cbn in Hp |- *; [|exact Hp].
  now apply Hh.
Qed.

Lemma unsignalled_get {A : Type} (k : State -> Prog A) :
  (forall s, unsignalled (k s)) -> unsignalled (Get k).
Proof. intros Hk w s tr H. exact (Hk s w s tr H). Qed.

Lemma unsignalled_put {A : Type} (s' : State) (k : Prog A) :
  unsignalled k -> unsignalled (Put s' k).
Proof. intros Hk w s tr H. exact (Hk w s' tr H). Qed.

Lemma unsignalled_modify (f : State -> State) : unsignalled (modify f).
Proof. intros w s tr H. exact H. Qed.

Create HintDb unsignalled.

#[local] Hint Resolve unsignalled_ret unsignalled_throw unsignalled_lift
  unsignalled_modify : unsignalled.

Ltac unsignalled_step :=
  match goal with
  | |- unsignalled (bind _ _) => apply unsignalled_bind; [|intros ?]
  | |- unsignalled (try_catch _ _) => apply unsignalled_try_catch; [|intros ?]
  | |- unsignalled (Get _) => apply unsignalled_get; intros ?
  | |- unsignalled (Put _ _) => apply unsignalled_put
  | |- unsignalled (fetch _) => apply unsignalled_fetch; reflexivity
  | |- unsignalled (if ?b then _ else _) => destruct b
  | |- unsignalled (match ?x with _ => _ end) => destruct x
  | |- unsignalled _ => solve [auto with unsignalled]
  end.

Ltac unsignalled := repeat unsignalled_step.

Lemma unsignalled_request (api : SeafileAPI) (m path : string)
    (b : option (list (string * value))) (bodyType : option string) :
  unsignalled (_request api m path b bodyType).
Proof. unfold _request. unsignalled. Qed.

Lemma unsignalled_response_json (r : response) : unsignalled (response_json r).
Proof. unfold response_json. unsignalled. Qed.

#[local] Hint Resolve unsignalled_request unsignalled_response_json
  : unsignalled.

Lemma unsignalled_remove_existing (existing : list LoginInfo) (u : string) :
  unsignalled (remove_existing existing u).
Proof.
  induction existing as [|e ex IH]; cbn [remove_existing]; [unsignalled|].
  apply unsignalled_bind; [|intros _; exact IH].
  unfold lm_removeLogin. unsignalled.
Qed.

#[local] Hint Resolve unsignalled_remove_existing : unsignalled.

Lemma unsignalled_getCredentials (h realm : value) :
  unsignalled (getCredentials pf h realm).
Proof.
  unfold getCredentials, findLoginsForRealm, lm_searchLoginsAsync,
    lm_searchLogins, lm_findLogins, lm_search.
  unsignalled.
Qed.

Lemma unsignalled_saveCredentials (h realm u p : value) :
  unsignalled (saveCredentials pf h realm u p).
Proof.
  unfold saveCredentials, findLoginsForRealm, lm_searchLoginsAsync,
    lm_searchLogins, lm_findLogins, lm_search, lm_addLoginAsync.
  unsignalled.
Qed.

#[local] Hint Resolve unsignalled_getCredentials unsignalled_saveCredentials
  : unsignalled.

Lemma unsignalled_getAuthenticatedAPI (accountId : string) :
  unsignalled (getAuthenticatedAPI pf accountId).
Proof.
  unfold getAuthenticatedAPI, loadAccountConfig, cached_session,
    stored_token_session, reauthenticate, getSecret, saveSecret, ping,
    authenticate.
  unsignalled.
Qed.

#[local] Hint Resolve unsignalled_getAuthenticatedAPI : unsignalled.

(** The upload listener passes no abort signal to any of its requests, the
    upload included. *)
Lemma unsignalled_onFileUpload (now : Z) (accountId : string) (id : Z)
    (name data : string) :
  unsignalled (onFileUpload pf now accountId id name data).
Proof.
  unfold onFileUpload, upload_steps, loadAccountConfig, ensureDirectory,
    getUploadLink, uploadFile, getSecret, createShareLink.
  unsignalled.
Qed.

(** ** More on the API client *)

(** X5. Directory creation sends one request and leaves the state alone.
    It succeeds on every 2xx status and also on 409 and 400, throws
    [MKDIR_FAILED] naming the sanitized path on any other status, and lets
    the failure of the fetch through. *)
Theorem ensureDirectory_tolerates_existing (api : SeafileAPI)
    (repoId : string) (path : value) (w : World) (s : State)
    (tr : list request) :
  run (ensureDirectory pf api repoId path) w s tr =
  (match w tr (mkdir_request pf api repoId path) with
   | NetworkError => inl network_error
   | Response resp =>
       if ok resp || (status resp =? 409) || (status resp =? 400)
       then inr tt
       else inl (seafileError pf "MKDIR_FAILED" "errorCreateDir"
                   [sanitizePath path])
   end, s, mkdir_request pf api repoId path :: tr).
Proof.
  unfold ensureDirectory. rewrite run_bind.
  change (run (_request api "POST" ?p (Some ?f) (Some "form")) w s tr)
    with (run (fetch (mkdir_request pf api repoId path)) w s tr).
  rewrite run_fetch.
  destruct (w tr (mkdir_request pf api repoId path)) as [|resp];
    [reflexivity|].
  destruct (ok resp), (status resp =? 409), (status resp =? 400); reflexivity.
Qed.

(** X6. Whatever the server answers, [getUploadLink] sends one request and
    leaves the state alone, and what it returns is a URL that parses and
    whose host name is the host name of the session's server. *)
Theorem getUploadLink_returns_trusted_url (api : SeafileAPI) (repoId : string)
    (parentDir : value) (w : World) (s : State) (tr : list request) :
  let r := run (getUploadLink pf api repoId parentDir) w s tr in
  r.1.2 = s /\ r.2 = upload_link_request pf api repoId parentDir :: tr /\
  forall link, r.1.1 = inr link ->
    exists uploadUrl server,
      URL pf link = Some uploadUrl /\ URL pf (serverUrl api) = Some server /\
      hostname uploadUrl = hostname server.
Proof.
  cbv zeta. unfold getUploadLink. rewrite run_bind, run_request_plain, run_fetch.
  fold (upload_link_request pf api repoId parentDir).
  destruct (w tr _) as [|resp]; [repeat split; discriminate|].
  destruct (negb (ok resp)); [repeat split; discriminate|].
  rewrite run_bind. unfold response_json.
  destruct (json resp) as [link|]; [|repeat split; discriminate].
  cbn [run]. fold (link_text link). rewrite run_bind, run_try_catch.
  destruct (URL pf (link_text link)) as [up|] eqn:Hup;
    [|repeat split; discriminate].
  destruct (URL pf (serverUrl api)) as [sv|] eqn:Hsv;
    [|repeat split; discriminate].
  destruct (negb (String.eqb (hostname up) (hostname sv))) eqn:Hh;
    [repeat split; discriminate|].
  repeat split. cbn. intros l [= <-]. exists up, sv.
  apply negb_false_iff, String.eqb_eq in Hh. auto.
Qed.

(** X7. A one-time code that is given but is not a string of six digits is
    refused with [2FA_INVALID] before any request is sent. *)
Theorem authenticate_refuses_malformed_otp (api : SeafileAPI)
    (username password : string) (otpToken : value) (w : World) (s : State)
    (tr : list request) :
  truthy otpToken = true ->
  (forall t, otpToken = VStr t -> six_digits t = false) ->
  run (authenticate pf api username password otpToken) w s tr
  = (inl (seafileError pf "2FA_INVALID" "error2faInvalid" []), s, tr).
Proof.
  intros Ht Hsix. unfold authenticate. rewrite run_bind.
  destruct otpToken as [| |b|z|t|l|f]; rewrite ?Ht; try reflexivity.
  rewrite (Hsix t eq_refl). rewrite andb_false_r. reflexivity.
Qed.

(** X8. A one-time code of six digits travels in the [X-SEAFILE-OTP]
    header of the one request [authenticate] sends. *)
Theorem authenticate_sends_otp_header (api : SeafileAPI)
    (username password t : string) (w : World) (s : State)
    (tr : list request) :
  six_digits t = true ->
  (run (authenticate pf api username password (VStr t)) w s tr).2
  = auth_request_otp (serverUrl api) username password t :: tr.
Proof.
  intros Hsix. unfold authenticate.
  assert (Ht : truthy (VStr t) = true) by (destruct t; [discriminate|reflexivity]).
  rewrite Ht, Hsix. cbn [andb]. rewrite run_bind. cbn [run].
  rewrite run_bind, run_fetch. fold (auth_request_otp (serverUrl api) username password t).
  destruct (w tr _) as [|resp]; [reflexivity|].
  match goal with
  | |- (run ?p _ _ _).2 = _ =>
      assert (Hkeep : forall (q : Prog SeafileAPI),
                (forall w' s' tr', (run q w' s' tr').2 = tr') ->
                (run q w s (auth_request_otp (serverUrl api) username password t
                            :: tr)).2
                = auth_request_otp (serverUrl api) username password t :: tr)
        by (intros q Hq; apply Hq)
  end.
  apply Hkeep. clear. intros w' s' tr'.
  destruct (negb (ok resp)).
  - rewrite run_bind, run_try_catch. unfold response_json.
    destruct (json resp) as [j|]; cbn [run].
    + rewrite run_bind, run_lift.
      destruct (get_prop j "non_field_errors") as [e|nfe]; [reflexivity|].
      rewrite run_bind.
      destruct (truthy nfe); [destruct nfe|]; cbn [run]; try reflexivity;
        rewrite run_bind, run_lift;
        (destruct (some_includes _ "Two factor auth token is missing")
           as [e|[]]; [reflexivity|reflexivity|]);
        rewrite run_bind, run_lift;
        destruct (some_includes _ "Two factor auth token") as [e|[]];
        reflexivity.
    + rewrite run_bind, run_lift. cbn [get_prop assoc]. rewrite run_bind.
      cbn [truthy run]. rewrite run_bind, run_lift. cbn [some_includes].
      rewrite run_bind, run_lift. reflexivity.
  - rewrite run_bind. unfold response_json.
    destruct (json resp) as [j|]; cbn [run]; [|reflexivity].
    rewrite run_bind, run_lift. destruct (get_prop j "token"); reflexivity.
Qed.

Lemma some_includes_strings (msgs : list string) (needle : string) :
  some_includes (map VStr msgs) needle
  = inr (existsb (fun m => includes m needle) msgs).
Proof.
  induction msgs as [|m msgs IH]; [reflexivity|]. cbn [map some_includes existsb].
  rewrite IH. now destruct (includes m needle).
Qed.

(** X9. When the server rejects a sign-in [authenticate] throws and
    returns no session, whether it was sent without a one-time code or with
    one of six digits.  If the response lists error messages, one that says
    the two-factor token is missing gives [2FA_REQUIRED], otherwise one that
    mentions the two-factor token gives [2FA_INVALID], otherwise the error
    is [AUTH_FAILED] with the status; a response without a JSON body gives
    [AUTH_FAILED] too. *)
Theorem authenticate_failure_codes (api : SeafileAPI) (username password : string)
    (otpToken : value) (resp : response) (w : World) (s : State)
    (tr : list request) :
  otp_accepted otpToken = true ->
  w tr (sign_in_request (serverUrl api) username password otpToken)
  = Response resp ->
  ok resp = false ->
  exists e,
    run (authenticate pf api username password otpToken) w s tr
    = (inl e, s,
       sign_in_request (serverUrl api) username password otpToken :: tr) /\
    (forall fields msgs,
       json resp = Some (VObj fields) ->
       assoc "non_field_errors" fields = VArr (map VStr msgs) ->
       e = if existsb (fun m => includes m "Two factor auth token is missing") msgs
           then seafileError pf "2FA_REQUIRED" "error2faRequired" []
           else if existsb (fun m => includes m "Two factor auth token") msgs
                then seafileError pf "2FA_INVALID" "error2faInvalid" []
                else seafileError pf "AUTH_FAILED" "errorAuthFailed"
                       [number_to_string (status resp)]) /\
    (json resp = None ->
       e = seafileError pf "AUTH_FAILED" "errorAuthFailed"
             [number_to_string (status resp)]).
Proof.
  intros Hacc Hw Hok. unfold authenticate. rewrite run_bind.
  match goal with
  | |- context [match run ?m w s tr with _ => _ end] =>
      assert (Hfirst : run m w s tr
                       = (inr (headers (sign_in_request (serverUrl api) username
                                          password otpToken)), s, tr))
  end.
  { unfold otp_accepted in Hacc.
    destruct otpToken as [| |b|z|t|l|f];
      try (destruct (truthy _); [discriminate Hacc|reflexivity]).
    destruct t as [|c t]; [reflexivity|].
    change (truthy (VStr (String c t))) with true in Hacc |- *.
    cbn [negb orb] in Hacc. cbn [andb]. rewrite Hacc. reflexivity. }
  rewrite Hfirst. rewrite run_bind, run_fetch.
  change {| method := "POST";
            target := serverUrl api +:+ "/api2/auth-token/";
            headers := headers (sign_in_request (serverUrl api) username
                                  password otpToken);
            payload := FormBody [("username", username); ("password", password)];
            signal := None |}
    with (sign_in_request (serverUrl api) username password otpToken).
  set (req := sign_in_request (serverUrl api) username password otpToken) in *.
  rewrite Hw, Hok.
  cbn [negb]. rewrite run_bind, run_try_catch. unfold response_json.
  destruct (json resp) as [j|] eqn:Hj; cbn [run].
  - rewrite run_bind, run_lift.
    destruct (get_prop j "non_field_errors") as [e|nfe] eqn:Hnfe.
    { eexists. split; [reflexivity|]. split; [|discriminate].
      intros fields msgs [= ->]. discriminate Hnfe. }
    rewrite run_bind.
    assert (Hcase :
      forall errors : list value,
        (forall fields msgs, j = VObj fields ->
           assoc "non_field_errors" fields = VArr (map VStr msgs) ->
           errors = map VStr msgs) ->
        exists e,
          run (A := SeafileAPI)
              (missing <- lift (some_includes errors
                                  "Two factor auth token is missing") ;;
               if missing
               then Throw (seafileError pf "2FA_REQUIRED" "error2faRequired" [])
               else
                 invalid <- lift (some_includes errors "Two factor auth token") ;;
                 if invalid
                 then Throw (seafileError pf "2FA_INVALID" "error2faInvalid" [])
                 else Throw (seafileError pf "AUTH_FAILED" "errorAuthFailed"
                               [number_to_string (status resp)]))
              w s (req :: tr)
          = (inl e, s, req :: tr) /\
          (forall fields msgs, Some j = Some (VObj fields) ->
             assoc "non_field_errors" fields = VArr (map VStr msgs) ->
             e = if existsb (fun m => includes m
                               "Two factor auth token is missing") msgs
                 then seafileError pf "2FA_REQUIRED" "error2faRequired" []
                 else if existsb (fun m => includes m "Two factor auth token") msgs
                      then seafileError pf "2FA_INVALID" "error2faInvalid" []
                      else seafileError pf "AUTH_FAILED" "errorAuthFailed"
                             [number_to_string (status resp)]) /\
          (Some j = None ->
             e = seafileError pf "AUTH_FAILED" "errorAuthFailed"
                   [number_to_string (status resp)])).
    { intros errors Herr. rewrite run_bind, run_lift.
      destruct (some_includes errors "Two factor auth token is missing")
        as [e|missing] eqn:H1.
      - eexists. split; [reflexivity|]. split; [|discriminate].
        intros fields msgs [= ->] Ha.
        rewrite (Herr _ _ eq_refl Ha), some_includes_strings in H1.
        discriminate H1.
      - destruct missing.
        + eexists. split; [reflexivity|]. split; [|discriminate].
          intros fields msgs [= ->] Ha.
          rewrite (Herr _ _ eq_refl Ha), some_includes_strings in H1.
          injection H1 as ->. reflexivity.
        + rewrite run_bind, run_lift.
          destruct (some_includes errors "Two factor auth token")
            as [e|invalid] eqn:H2.
          * eexists. split; [reflexivity|]. split; [|discriminate].
            intros fields msgs [= ->] Ha.
            rewrite (Herr _ _ eq_refl Ha), some_includes_strings in H2.
            discriminate H2.
          * destruct invalid; (eexists; split; [reflexivity|];
              split; [|discriminate]);
              intros fields msgs [= ->] Ha;
              rewrite (Herr _ _ eq_refl Ha), some_includes_strings in H1, H2;
              injection H1 as ->; injection H2 as ->; reflexivity. }
    destruct (truthy nfe) eqn:Htr.
    + destruct nfe as [| |b|z|t|l|f]; cbn [run];
        try (eexists; split; [reflexivity|]; split; [|discriminate];
             intros fields msgs [= ->] Ha; cbn in Hnfe; congruence).
      apply Hcase. intros fields msgs -> Ha. cbn in Hnfe. congruence.
    + cbn [run]. apply Hcase. intros fields msgs -> Ha. cbn in Hnfe.
      rewrite Ha in Hnfe. injection Hnfe as <-. discriminate Htr.
  - rewrite run_bind, run_lift. cbn [get_prop assoc]. rewrite run_bind.
    cbn [truthy run]. rewrite run_bind, run_lift. cbn [some_includes].
    rewrite run_bind, run_lift. cbn [some_includes run].
    eexists. split; [reflexivity|]. split; [discriminate|reflexivity].
Qed.

(** ** More on the password manager *)

Lemma run_remove_all (l : list LoginInfo) (w : World) (s : State)
    (tr : list request) :
  exists s',
    run (remove_all l) w s tr = (inr tt, s', tr) /\
    logins s' =
      List.filter (fun x => negb (existsb (fun e => bool_decide (x = e)) l))
                  (logins s) /\
    same_maps s s'.
Proof.
  revert s. induction l as [|e l IH]; intros s.
  - exists s. cbn [remove_all run existsb negb]. split; [reflexivity|].
    split; [|repeat split]. symmetry. apply forallb_filter_id.
    now apply forallb_forall.
  - cbn [remove_all]. rewrite run_bind, run_lm_removeLogin.
    destruct (IH (lm_apply (LmRemove e)
                    (List.filter (fun x => negb (bool_decide (x = e)))) s))
      as (s' & Hrun & Hlog & Hmaps).
    exists s'. split; [exact Hrun|]. split; [|exact Hmaps].
    rewrite Hlog. cbn [lm_apply logins]. rewrite filter_filter_same.
    apply filter_ext_in. intros x _. cbn [existsb].
    now destruct (bool_decide (x = e)).
Qed.

Lemma found_member (o r : string) (ls : list LoginInfo) (x : LoginInfo) :
  In x ls ->
  existsb (fun e => bool_decide (x = e)) (List.filter (login_matches o r) ls)
  = login_matches o r x.
Proof.
  intros Hin. destruct (login_matches o r x) eqn:Hm.
  - apply existsb_exists. exists x. split; [now apply filter_In|].
    now apply bool_decide_eq_true.
  - destruct (existsb _ _) eqn:He; [|reflexivity].
    apply existsb_exists in He as (e & He & Heq).
    apply bool_decide_eq_true in Heq. subst e.
    apply filter_In in He as [_ He]. congruence.
Qed.

(** Removing everything found for an origin and realm. *)
Lemma run_remove_found (o r : string) (w : World) (s : State)
    (tr : list request) :
  exists s',
    run (found' <- findLoginsForRealm pf o r ;; remove_all found') w s tr
    = (inr tt, s', tr) /\
    logins s' = List.filter (fun l => negb (login_matches o r l)) (logins s) /\
    same_maps s s'.
Proof.
  rewrite run_bind, run_findLoginsForRealm.
  destruct (run_remove_all (found o r s) w (searched o r s) tr)
    as (s' & Hrun & Hlog & Hmaps).
  exists s'. split; [exact Hrun|]. split; [|exact Hmaps].
  rewrite Hlog. cbn [searched lm_apply logins].
  apply filter_ext_in. intros x Hx. f_equal. now apply found_member.
Qed.

(** X10. [removeCredentials] with an accepted host name and realm removes
    exactly the logins stored for that origin and realm: a search finds
    none afterwards, and every other login stays, in order. *)
Theorem removeCredentials_clears_realm (h realm : value) (o r : string)
    (w : World) (s : State) (tr : list request) :
  validateHostname pf h = inr o -> validateRealm realm = inr r ->
  exists s',
    run (removeCredentials pf h realm) w s tr = (inr true, s', tr) /\
    logins s' = List.filter (fun l => negb (login_matches o r l)) (logins s) /\
    found o r s' = [] /\ same_maps s s'.
Proof.
  intros Hh Hr. unfold removeCredentials.
  rewrite run_bind, run_lift, Hh, run_bind, run_lift, Hr.
  destruct (run_remove_found o r w s tr) as (s' & Hrun & Hlog & Hmaps).
  rewrite run_bind in Hrun. rewrite run_bind.
  destruct (run (findLoginsForRealm pf o r) w s tr) as [[[e|fd] s1] tr1];
    [discriminate Hrun|].
  rewrite run_bind, Hrun. cbn [run].
  exists s'. split; [reflexivity|]. split; [exact Hlog|].
  split; [|exact Hmaps]. unfold found. rewrite Hlog, filter_filter_same.
  apply filter_none. intros l _. now destruct (login_matches o r l).
Qed.

(** X11. What [getCredentials] reads right after a [saveCredentials] for
    the same host name and realm: the saved user name and password if no
    login of another user is stored there, and otherwise the first login
    of another user, the saved one being added last. *)
Theorem saved_credentials_read_back (h realm : value) (o r u p : string)
    (w : World) (s : State) (tr : list request) :
  validateHostname pf h = inr o -> validateRealm realm = inr r -> u <> "" ->
  let r2 := run (saveCredentials pf h realm (VStr u) (VStr p) ;;;
                 getCredentials pf h realm) w s tr in
  r2.1.1 = inr (first_credentials
                  (other_users u (found o r s) ++ [new_login o r u p])) /\
  (other_users u (found o r s) = [] -> r2.1.1 = inr (Some (u, p))).
Proof.
  intros Hh Hr Hu r2. subst r2. rewrite run_bind.
  destruct (run_saveCredentials h realm o r u p w s tr Hh Hr Hu)
    as (s' & removals & Hrun & Hlog & _).
  rewrite Hrun, (run_getCredentials _ _ o r) by assumption. cbn [fst snd].
  assert (Hfound : found o r s'
                   = (other_users u (found o r s) ++ [new_login o r u p])%list).
  { unfold found, other_users. rewrite Hlog, List.filter_app, !filter_filter_same.
    f_equal.
    - apply filter_ext_in. intros l _. unfold same_entry.
      destruct (login_matches o r l); [|reflexivity].
      now destruct (String.eqb (li_username l) u).
    - cbn [List.filter]. unfold login_matches, new_login. cbn.
      now rewrite !String.eqb_refl. }
  rewrite Hfound. split; [reflexivity|]. now intros ->.
Qed.

Lemma run_remove_realms (o : string) (realms : list string) (w : World)
    (s : State) (tr : list request) :
  exists s',
    run (remove_realms pf o realms) w s tr = (inr tt, s', tr) /\
    logins s' =
      List.filter (fun l => negb (existsb (fun r => login_matches o r l) realms))
                  (logins s) /\
    same_maps s s'.
Proof.
  revert s. induction realms as [|r realms IH]; intros s.
  - exists s. cbn [remove_realms run existsb negb]. split; [reflexivity|].
    split; [|repeat split]. symmetry. apply forallb_filter_id.
    now apply forallb_forall.
  - cbn [remove_realms].
    destruct (run_remove_found o r w s tr) as (s1 & Hrun1 & Hlog1 & Hm1).
    rewrite run_bind in Hrun1. rewrite run_bind.
    destruct (run (findLoginsForRealm pf o r) w s tr) as [[[e|fd] s0] tr0];
      [discriminate Hrun1|].
    rewrite run_bind, Hrun1.
    destruct (IH s1) as (s' & Hrun & Hlog & Hm).
    exists s'. split; [exact Hrun|]. split.
    + rewrite Hlog, Hlog1, filter_filter_same. apply filter_ext_in.
      intros l _. cbn [existsb]. now destruct (login_matches o r l).
    + destruct Hm1 as (? & ? & ?), Hm as (? & ? & ?).
      repeat split; congruence.
Qed.

Lemma extension_login_realms (o : string) (l : LoginInfo) :
  existsb (fun r => login_matches o r l) ALLOWED_REALMS = extension_login o l.
Proof.
  unfold extension_login, login_matches, allowed_realm, ALLOWED_REALMS.
  cbn [existsb]. destruct (String.eqb (li_origin l) o); [|reflexivity].
  cbn [andb]. destruct (li_httpRealm l) as [r|]; [|reflexivity].
  now rewrite orb_false_r.
Qed.

Lemma removeAllForHost_clears_extension_logins_aux (h : value) (o : string)
    (w : World) (s : State) (tr : list request) :
  validateHostname pf h = inr o ->
  exists s',
    run (removeAllForHost pf h) w s tr = (inr true, s', tr) /\
    logins s' = List.filter (fun l => negb (extension_login o l)) (logins s) /\
    same_maps s s'.
Proof.
  intros Hh. unfold removeAllForHost. rewrite run_bind, run_lift, Hh, run_bind.
  destruct (run_remove_realms o ALLOWED_REALMS w s tr)
    as (s' & Hrun & Hlog & Hmaps).
  rewrite Hrun. cbn [run]. exists s'. split; [reflexivity|].
  split; [|exact Hmaps].
  rewrite Hlog. apply filter_ext_in. intros l _.
  now rewrite extension_login_realms.
Qed.

(** X12. [removeAllForHost] with an accepted host name removes the logins
    of the three realms of the extension stored for that origin and
    nothing else: logins of other origins, of other realms and form logins
    stay, in order. *)
Theorem removeAllForHost_clears_extension_logins (h : value) (o : string)
    (w : World) (s : State) (tr : list request) :
  validateHostname pf h = inr o ->
  exists s',
    run (removeAllForHost pf h) w s tr = (inr true, s', tr) /\
    logins s' = List.filter (fun l => negb (extension_login o l)) (logins s) /\
    (forall r, allowed_realm r = true -> found o r s' = []) /\
    same_maps s s'.
Proof.
  intros Hh.
  destruct (removeAllForHost_clears_extension_logins_aux h o w s tr Hh)
    as (s' & Hrun & Hl & Hmaps).
  exists s'. split; [exact Hrun|]. split; [exact Hl|]. split; [|exact Hmaps].
  intros r Hr. unfold found. rewrite Hl, filter_filter_same.
  apply filter_none. intros l _. unfold extension_login, login_matches.
  destruct (String.eqb (li_origin l) o); [|reflexivity]. cbn [andb negb].
  destruct (li_httpRealm l) as [r'|]; [|reflexivity].
  destruct (String.eqb r' r) eqn:E; [|now rewrite andb_false_r].
  apply String.eqb_eq in E. subst r'. now rewrite Hr.
Qed.

(** ** More on the listeners *)

#[local] Hint Resolve keeps_getAuthenticatedAPI : keeps.

(** X13. The delete listener always returns normally, whatever the network
    and the password manager do, and afterwards the file is not in the
    table of uploaded files while the records of the other files are
    untouched; for a file that is not in the table it does nothing at
    all. *)
Theorem onFileDeleted_always_forgets (accountId : string) (fileId : Z)
    (w : World) (s : State) (tr : list request) :
  let r := run (onFileDeleted pf accountId fileId) w s tr in
  r.1.1 = inr tt /\
  uploadedFiles r.1.2 = delete fileId (uploadedFiles s) /\
  (uploadedFiles s !! fileId = None -> r = (inr tt, s, tr)).
Proof.
  cbv zeta. unfold onFileDeleted. cbn [run].
  destruct (uploadedFiles s !! fileId) as [fileInfo|] eqn:Hf.
  - set (q := try_catch _ _).
    assert (Hq : exists s1 tr1, run q w s tr = (inr tt, s1, tr1) /\
                                uploadedFiles s1 = uploadedFiles s).
    { assert (K : keeps_uploads q) by (unfold q; keeps).
      specialize (K w s tr). unfold q in *. rewrite run_try_catch in *.
      destruct (run (bind (getAuthenticatedAPI pf accountId) _) w s tr)
        as [[[e|[]] s1] tr1]; cbn in K |- *; eauto. }
    destruct Hq as (s1 & tr1 & Hrun & Hup).
    unfold try_finally. rewrite run_bind, run_try_catch, run_bind, Hrun.
    cbn [run]. rewrite run_bind, run_modify. cbn [run fst snd].
    split; [reflexivity|]. split; [|discriminate].
    cbn [set_uploadedFiles uploadedFiles]. now rewrite Hup.
  - cbn [run fst snd]. split; [reflexivity|]. split; [|reflexivity].
    symmetry. now apply delete_id.
Qed.

(** X14. The account-deleted listener always returns normally and sends
    no request.  Afterwards the configuration of the account is gone from
    storage, no instance is cached for it, and the table of uploaded files
    is as before; if the stored server URL is one [validateHostname]
    accepts, the logins of the three realms for its origin are gone and all
    other logins stay, and otherwise the logins are untouched.  A session
    acquisition that follows throws [NO_CONFIG]. *)
Theorem onAccountDeleted_cleans_up (accountId : string) (w : World)
    (s : State) (tr : list request) :
  exists s',
    run (onAccountDeleted pf accountId) w s tr = (inr tt, s', tr) /\
    storage s' = delete ("account_" +:+ accountId) (storage s) /\
    apiCache s' = delete accountId (apiCache s) /\
    uploadedFiles s' = uploadedFiles s /\
    (forall c o, storage s !! ("account_" +:+ accountId) = Some c ->
       validateHostname pf (cfg_serverUrl c) = inr o ->
       logins s' = List.filter (fun l => negb (extension_login o l)) (logins s)) /\
    (storage s !! ("account_" +:+ accountId) = None -> logins s' = logins s) /\
    (forall c e, storage s !! ("account_" +:+ accountId) = Some c ->
       validateHostname pf (cfg_serverUrl c) = inl e -> logins s' = logins s) /\
    forall w' tr',
      run (getAuthenticatedAPI pf accountId) w' s' tr'
      = (inl (seafileError pf "NO_CONFIG" "errorNoConfig" []), s', tr').
Proof.
  unfold onAccountDeleted. rewrite run_bind, run_loadAccountConfig.
  set (cleanup := match storage s !! ("account_" +:+ accountId) with
                  | Some c => _ | None => _ end).
  assert (Hc : exists s1,
             run cleanup w s tr = (inr tt, s1, tr) /\ same_maps s s1 /\
             (forall c o, storage s !! ("account_" +:+ accountId) = Some c ->
                validateHostname pf (cfg_serverUrl c) = inr o ->
                logins s1 = List.filter (fun l => negb (extension_login o l))
                              (logins s)) /\
             (storage s !! ("account_" +:+ accountId) = None ->
                logins s1 = logins s) /\
             (forall c e, storage s !! ("account_" +:+ accountId) = Some c ->
                validateHostname pf (cfg_serverUrl c) = inl e ->
                logins s1 = logins s)).
  { unfold cleanup.
    destruct (storage s !! ("account_" +:+ accountId)) as [c|].
    - destruct (validateHostname pf (cfg_serverUrl c)) as [e|o] eqn:Hh.
      + exists s. split.
        * destruct (truthy (cfg_serverUrl c)); [|reflexivity].
          rewrite run_try_catch, run_bind. unfold removeAllForHost.
          now rewrite run_bind, run_lift, Hh.
        * split; [repeat split|]. split; [|split]; try discriminate.
          -- intros c0 o [= <-]. congruence.
          -- reflexivity.
      + assert (Ht : truthy (cfg_serverUrl c) = true).
        { unfold validateHostname in Hh.
          destruct (cfg_serverUrl c); try discriminate Hh.
          destruct (truthy (VStr s0)); [reflexivity|discriminate Hh]. }
        rewrite Ht.
        destruct (removeAllForHost_clears_extension_logins_aux
                    (cfg_serverUrl c) o w s tr Hh)
          as (s1 & Hrun & Hlog & Hmaps).
        exists s1. split.
        * now rewrite run_try_catch, run_bind, Hrun.
        * split; [exact Hmaps|]. split; [|split]; try discriminate.
          -- intros c0 o0 [= <-] Ho. rewrite Hh in Ho. injection Ho as <-.
             exact Hlog.
          -- intros c0 e [= <-] He. rewrite Hh in He. discriminate He.
    - exists s. split; [reflexivity|]. split; [repeat split|].
      split; [discriminate|]. split; [reflexivity|discriminate]. }
  destruct Hc as (s1 & Hrun & (Hsto & Hcache & Hup) & H1 & H2 & H3).
  rewrite run_bind, Hrun, run_bind, run_modify, run_modify.
  eexists. split; [reflexivity|].
  cbn [set_apiCache set_storage storage apiCache uploadedFiles logins].
  rewrite Hsto, Hcache, Hup.
  split; [reflexivity|]. split; [reflexivity|]. split; [reflexivity|].
  split; [exact H1|]. split; [exact H2|]. split; [exact H3|].
  intros w' tr'. unfold getAuthenticatedAPI.
  rewrite run_bind, run_loadAccountConfig.
  cbn [storage set_apiCache set_storage]. now rewrite lookup_delete_eq.
Qed.

Lemma stored_token_session_cached (accountId server : string) (api : SeafileAPI)
    (w : World) (s s' : State) (tr tr' : list request) :
  run (stored_token_session pf accountId server) w s tr
  = (inr (Some api), s', tr') ->
  apiCache s' !! accountId = Some api.
Proof.
  unfold stored_token_session. rewrite run_bind.
  destruct (run (getSecret pf server REALMS_TOKEN) w s tr)
    as [[[e|[t|]] s1] tr1]; try discriminate.
  destruct (truthy (VStr t)); [|discriminate].
  rewrite run_bind, run_lift.
  destruct (new_SeafileAPI pf (VStr server)) as [e|api0]; [discriminate|].
  cbv zeta. rewrite run_try_catch, run_bind, run_ping.
  destruct (w tr1 _) as [|resp]; [discriminate|].
  destruct (ok resp); [|discriminate].
  rewrite run_bind, run_modify. cbn [run]. intros [= <- <- <-].
  cbn [set_apiCache apiCache]. apply lookup_insert_eq.
Qed.

Lemma reauthenticate_cached (accountId server : string) (api : SeafileAPI)
    (w : World) (s s' : State) (tr tr' : list request) :
  run (reauthenticate pf accountId server) w s tr = (inr api, s', tr') ->
  apiCache s' !! accountId = Some api.
Proof.
  unfold reauthenticate. rewrite run_bind.
  destruct (run (getCredentials pf _ _) w s tr)
    as [[[e|[[u p]|]] s1] tr1]; try discriminate.
  rewrite run_bind, run_lift.
  destruct (new_SeafileAPI pf (VStr server)) as [e|api0]; [discriminate|].
  rewrite run_bind.
  destruct (run (authenticate pf api0 u p VNull) w s1 tr1)
    as [[[e|api1] s2] tr2]; [discriminate|].
  rewrite run_bind.
  destruct (run (saveSecret pf server REALMS_TOKEN u (token api1)) w s2 tr2)
    as [[[e|[]] s3] tr3]; [discriminate|].
  rewrite run_bind, run_modify. cbn [run]. intros [= <- <- <-].
  cbn [set_apiCache apiCache]. apply lookup_insert_eq.
Qed.

(** X15. Whatever tier provides it, the session [getAuthenticatedAPI]
    returns is the one cached for the account when it returns. *)
Theorem acquired_session_is_cached (accountId : string) (api : SeafileAPI)
    (w : World) (s s' : State) (tr tr' : list request) :
  run (getAuthenticatedAPI pf accountId) w s tr = (inr api, s', tr') ->
  apiCache s' !! accountId = Some api.
Proof.
  unfold getAuthenticatedAPI. rewrite run_bind, run_loadAccountConfig.
  destruct (storage s !! ("account_" +:+ accountId)) as [c|]; [|discriminate].
  destruct (negb (truthy (cfg_serverUrl c))); [discriminate|].
  rewrite run_bind, run_lift.
  destruct (validateServerUrl pf (cfg_serverUrl c)) as [e|server];
    [discriminate|].
  rewrite run_bind, run_cached_session.
  destruct (apiCache s !! accountId) as [cached|] eqn:Hc.
  - destruct (probe_alive w tr cached).
    + cbn [run]. intros [= <- <- <-]. exact Hc.
    + rewrite run_bind.
      destruct (run (stored_token_session pf accountId server) w _ _)
        as [[[e|[api2|]] s2] tr2] eqn:H2; try discriminate.
      * cbn [run]. intros [= <- <- <-].
        exact (stored_token_session_cached _ _ _ _ _ _ _ _ H2).
      * apply reauthenticate_cached.
  - rewrite run_bind.
    destruct (run (stored_token_session pf accountId server) w _ _)
      as [[[e|[api2|]] s2] tr2] eqn:H2; try discriminate.
    + cbn [run]. intros [= <- <- <-].
      exact (stored_token_session_cached _ _ _ _ _ _ _ _ H2).
    + apply reauthenticate_cached.
Qed.

(** ** What the programs leave alone *)

Section Preserve.

Variable R : State -> State -> Prop.
Hypothesis R_refl : forall s, R s s.
Hypothesis R_trans : forall s1 s2 s3, R s1 s2 -> R s2 s3 -> R s1 s3.

Lemma preserves_ret {A : Type} (a : A) : preserves R (Ret a).
Proof. intros w s tr. apply R_refl. Qed.

Lemma preserves_throw {A : Type} (e : exn) : preserves R (@Throw A e).
Proof. intros w s tr. apply R_refl. Qed.

Lemma preserves_lift {A : Type} (r : result A) : preserves R (lift r).
Proof. intros w s tr. rewrite run_lift. apply R_refl. Qed.

Lemma preserves_fetch (r : request) : preserves R (fetch r).
Proof. intros w s tr. rewrite run_fetch. destruct (w tr r); apply R_refl. Qed.

Lemma preserves_bind {A B : Type} (p : Prog A) (f : A -> Prog B) :
  preserves R p -> (forall a, preserves R (f a)) -> preserves R (bind p f).
Proof.
  intros Hp Hf w s tr. rewrite run_bind. specialize (Hp w s tr).
  destruct (run p w s tr) as [[[e|a] s1] tr1]; cbn in Hp |- *; [exact Hp|].
  eapply R_trans; [exact Hp|apply Hf].
Qed.

Lemma preserves_try_catch {A : Type} (p : Prog A) (h : exn -> Prog A) :
  preserves R p -> (forall e, preserves R (h e)) -> preserves R (try_catch p h).
Proof.
  intros Hp Hh w s tr. rewrite run_try_catch. specialize (Hp w s tr).
  destruct (run p w s tr) as [[[e|a] s1] tr1]; cbn in Hp |- *; [|exact Hp].
  eapply R_trans; [exact Hp|apply Hh].
Qed.

Lemma preserves_get {A : Type} (k : State -> Prog A) :
  (forall s, preserves R (k s)) -> preserves R (Get k).
Proof. intros Hk w s tr. exact (Hk s w s tr). Qed.

Lemma preserves_modify (f : State -> State) :
  (forall s, R s (f s)) -> preserves R (modify f).
Proof. intros Hf w s tr. exact (Hf s). Qed.

End Preserve.

(** Decomposes a program along its binds, handlers and case distinctions;
    [tac] justifies the state changes. *)
Ltac preserves_with tac :=
  repeat match goal with
  | |- preserves _ (bind _ _) =>
      apply preserves_bind; [solve [tac]| |intros ?]
  | |- preserves _ (try_catch _ _) =>
      apply preserves_try_catch; [solve [tac]| |intros ?]
  | |- preserves _ (Get _) => apply preserves_get; intros ?
  | |- preserves _ (modify _) => apply preserves_modify; intros ?; solve [tac]
  | |- preserves _ (Ret _) => apply preserves_ret; solve [tac]
  | |- preserves _ (Throw _) => apply preserves_throw; solve [tac]
  | |- preserves _ (lift _) => apply preserves_lift; solve [tac]
  | |- preserves _ (fetch _) => apply preserves_fetch; solve [tac]
  | |- preserves _ (if ?b then _ else _) => destruct b
  | |- preserves _ (match ?x with _ => _ end) => destruct x
  | H : _ |- preserves _ _ => solve [apply H]
  end.

Ltac stateless := preserves_with ltac:(intros; congruence).

(** X16. The methods of the API client that only read the instance, which
    is every method but [authenticate] (it assigns the token of the
    instance it is called on), leave the state of the program alone: the
    session cache, the stored configuration, the table of uploaded files
    and the password manager are as before, whatever the server answers. *)
Theorem api_client_is_stateless (api : SeafileAPI) :
  preserves eq (ping api) /\
  preserves eq (listRepos pf api) /\
  preserves eq (getAccountInfo pf api) /\
  (forall repoId path, preserves eq (ensureDirectory pf api repoId path)) /\
  (forall repoId dir, preserves eq (getUploadLink pf api repoId dir)) /\
  (forall link dir name data sig,
     preserves eq (uploadFile pf api link dir name data sig)) /\
  (forall repoId path options,
     preserves eq (createShareLink pf api repoId path options)) /\
  (forall repoId path, preserves eq (deleteFile pf api repoId path)).
Proof.
  repeat split; intros;
    unfold ping, listRepos, getAccountInfo, ensureDirectory,
      getUploadLink, uploadFile, createShareLink, deleteFile, _request,
      response_json;
    stateless.
Qed.

(** ** Messages from the management page *)

Lemma filter_writable_spec (l : list value) :
  forallb (fun r => negb (nullish r)) l = true ->
  filter_writable l = inr (List.filter writable l).
Proof.
  induction l as [|r l IH]; [reflexivity|]. cbn [forallb filter_writable].
  intros H. apply andb_prop in H as [Hr Hl]. rewrite (IH Hl).
  destruct r as [| |b|z|t|a|f]; try discriminate Hr; try reflexivity.
  cbn [get_prop List.filter writable].
  destruct (negb (truthy (assoc "encrypted" f))); reflexivity.
Qed.

Lemma filter_writable_nullish (l : list value) :
  forallb (fun r => negb (nullish r)) l = false ->
  exists m, filter_writable l = inl (TypeError m).
Proof.
  induction l as [|r l IH]; [discriminate|]. cbn [forallb filter_writable].
  destruct r as [| |b|z|t|a|f]; cbn [nullish negb andb get_prop]; eauto;
    intros H; destruct (IH H) as [m ->]; eauto.
  destruct (negb (truthy (assoc "encrypted" f))); eauto.
Qed.

Lemma map_entries_spec (l : list value) :
  forallb writable l = true -> map_entries l = inr (map entry_of l).
Proof.
  induction l as [|r l IH]; [reflexivity|]. cbn [forallb map_entries map].
  intros H. apply andb_prop in H as [Hr Hl]. rewrite (IH Hl).
  destruct r as [| |b|z|t|a|f]; try discriminate Hr.
  unfold repo_entry. cbn [get_prop entry_of].
  destruct (truthy (assoc "repo_name" f)); reflexivity.
Qed.

(** X17. The libraries offered to the user are exactly the libraries of
    the listing that are not encrypted and have permission [rw], in the
    order of the listing, each reduced to its id and its name ([repo_name],
    or [name] when that is missing or empty).  One [null] element makes
    the whole listing fail, and so does a listing that is not an array. *)
Theorem writable_repos_offers_rw_unencrypted (repos : value) :
  match repos with
  | VArr l =>
      if forallb (fun r => negb (nullish r)) l
      then writable_repos repos = inr (VArr (map entry_of (List.filter writable l)))
      else exists m, writable_repos repos = inl (TypeError m)
  | _ => exists m, writable_repos repos = inl (TypeError m)
  end.
Proof.
  destruct repos as [| |b|z|t|l|f]; cbn [writable_repos]; eauto.
  destruct (forallb (fun r => negb (nullish r)) l) eqn:H.
  - rewrite (filter_writable_spec l H), map_entries_spec; [reflexivity|].
    apply forallb_forall. intros r Hr. now apply filter_In in Hr.
  - destruct (filter_writable_nullish l H) as [m ->]. eauto.
Qed.

Lemma preserves_listRepos (api : SeafileAPI) : preserves eq (listRepos pf api).
Proof. unfold listRepos, _request, response_json. stateless. Qed.

Lemma preserves_getAccountInfo (api : SeafileAPI) :
  preserves eq (getAccountInfo pf api).
Proof. unfold getAccountInfo, _request, response_json. stateless. Qed.

Lemma preserves_authenticate (api : SeafileAPI) (u p : string) (otp : value) :
  preserves eq (authenticate pf api u p otp).
Proof. unfold authenticate, response_json. stateless. Qed.

(** X18. Testing the connection never throws and changes nothing: no
    password, token or configuration is stored.  A server URL that
    [validateServerUrl] rejects is answered with its error and code without
    any request, and so is a one-time code that is given but is not six
    digits (with [2FA_INVALID]). *)
Theorem testConnection_stores_nothing (server : value) (username password : string)
    (otpToken : value) (w : World) (s : State) (tr : list request) :
  let r := run (testConnection pf server username password otpToken) w s tr in
  (exists v, r.1 = (inr v, s)) /\
  (forall e, validateServerUrl pf server = inl e ->
     r = (inr (failure_with_code e), s, tr)) /\
  (forall o, origin_stable pf -> validateServerUrl pf server = inr o ->
     truthy otpToken = true ->
     (forall t, otpToken = VStr t -> six_digits t = false) ->
     r = (inr (failure_with_code
                 (seafileError pf "2FA_INVALID" "error2faInvalid" [])), s, tr)).
Proof.
  cbv zeta. unfold testConnection. rewrite run_try_catch.
  set (body := bind (lift (validateServerUrl pf server)) _).
  assert (K : preserves eq body).
  { unfold body.
    pose proof preserves_listRepos. pose proof preserves_getAccountInfo.
    pose proof preserves_authenticate. stateless. }
  split; [|split].
  - specialize (K w s tr).
    destruct (run body w s tr) as [[[e|v] s1] tr1]; cbn in K |- *;
      subst s1; eauto.
  - intros e He. unfold body. now rewrite run_bind, run_lift, He.
  - intros o Hst Ho Ht Hsix. unfold body.
    rewrite run_bind, run_lift, Ho, run_bind, run_lift.
    rewrite (new_SeafileAPI_origin server o Hst Ho), run_bind, Ht.
    set (api0 := {| serverUrl := o; token := VNull |}).
    assert (Hotp : run (authenticate pf api0 username password otpToken) w s tr
                   = (inl (seafileError pf "2FA_INVALID" "error2faInvalid" []),
                      s, tr)).
    { unfold authenticate. rewrite run_bind.
      destruct otpToken as [| |b|z|t|l|f]; rewrite ?Ht; try reflexivity.
      rewrite (Hsix t eq_refl), andb_false_r. reflexivity. }
    now rewrite Hotp.
Qed.

(** *** What the password manager calls leave alone *)

Section Vault.

Variable R : State -> State -> Prop.
Hypothesis R_refl : forall s, R s s.
Hypothesis R_trans : forall s1 s2 s3, R s1 s2 -> R s2 s3 -> R s1 s3.
Hypothesis R_search : forall o r s, R s (searched o r s).

Lemma preserves_findLoginsForRealm (o r : string) :
  preserves R (findLoginsForRealm pf o r).
Proof.
  intros w s tr. rewrite run_findLoginsForRealm. apply R_search.
Qed.

Lemma preserves_getCredentials (h realm : value) :
  preserves R (getCredentials pf h realm).
Proof.
  unfold getCredentials. pose proof preserves_findLoginsForRealm.
  preserves_with ltac:(first [exact R_refl | exact R_trans]).
Qed.

Lemma preserves_getSecret (server realm : string) :
  preserves R (getSecret pf server realm).
Proof.
  unfold getSecret. pose proof preserves_getCredentials.
  preserves_with ltac:(first [exact R_refl | exact R_trans]).
Qed.

Hypothesis R_apply : forall c f s, R s (lm_apply c f s).

Lemma preserves_remove_existing (l : list LoginInfo) (u : string) :
  preserves R (remove_existing l u).
Proof.
  induction l as [|x l IH]; cbn [remove_existing]; unfold lm_removeLogin;
    preserves_with ltac:(first [exact R_refl | exact R_trans | apply R_apply]).
Qed.

Lemma preserves_remove_all (l : list LoginInfo) : preserves R (remove_all l).
Proof.
  induction l as [|x l IH]; cbn [remove_all]; unfold lm_removeLogin;
    preserves_with ltac:(first [exact R_refl | exact R_trans | apply R_apply]).
Qed.

Lemma preserves_saveCredentials (h realm u p : value) :
  preserves R (saveCredentials pf h realm u p).
Proof.
  unfold saveCredentials, lm_addLoginAsync.
  pose proof preserves_findLoginsForRealm. pose proof preserves_remove_existing.
  preserves_with ltac:(first [exact R_refl | exact R_trans | apply R_apply]).
Qed.

Lemma preserves_removeCredentials (h realm : value) :
  preserves R (removeCredentials pf h realm).
Proof.
  unfold removeCredentials.
  pose proof preserves_findLoginsForRealm. pose proof preserves_remove_all.
  preserves_with ltac:(first [exact R_refl | exact R_trans]).
Qed.

Lemma preserves_saveSecret (server realm key : string) (v : value) :
  preserves R (saveSecret pf server realm key v).
Proof.
  unfold saveSecret. pose proof preserves_saveCredentials.
  preserves_with ltac:(first [exact R_refl | exact R_trans]).
Qed.

Lemma preserves_removeSecret (server realm : string) :
  preserves R (removeSecret pf server realm).
Proof.
  unfold removeSecret. pose proof preserves_removeCredentials.
  preserves_with ltac:(first [exact R_refl | exact R_trans]).
Qed.

End Vault.

Lemma login_matches_other (o r realm : string) (l : LoginInfo) :
  r <> realm -> login_matches o r l = true -> login_matches o realm l = false.
Proof.
  unfold login_matches. intros Hne Hm. apply andb_prop in Hm as [_ Hm].
  destruct (li_httpRealm l) as [r'|]; [|discriminate Hm].
  apply String.eqb_eq in Hm. subst r'.
  apply String.eqb_neq in Hne. rewrite Hne. apply andb_false_r.
Qed.

(** [saveSecret] with any value: it saves a non-empty string and ignores
    everything else. *)
Lemma run_saveSecret_any (server realm o u : string) (v : value) (w : World)
    (s : State) (tr : list request) :
  validateHostname pf (VStr server) = inr o -> allowed_realm realm = true ->
  u <> "" ->
  exists s',
    run (saveSecret pf server realm u v) w s tr = (inr tt, s', tr) /\
    same_maps s s' /\
    forall r, r <> realm -> found o r s' = found o r s.
Proof.
  intros Hh Hr Hu.
  assert (Hsame : exists s', run (Ret tt) w s tr = (inr tt, s', tr) /\
                             same_maps s s' /\
                             forall r, r <> realm -> found o r s' = found o r s).
  { exists s. split; [reflexivity|]. split; [repeat split|reflexivity]. }
  destruct v as [| |b|z|t|l|f]; try exact Hsame.
  destruct t as [|c t]; [exact Hsame|].
  unfold saveSecret.
  change (negb (truthy (VStr (String c t)))
          || (String.length (String c t) =? 0)%nat) with false.
  cbv iota. rewrite run_bind.
  destruct (run_saveCredentials (VStr server) (VStr realm) o realm u
              (String c t) w s tr Hh (validateRealm_accepts realm Hr) Hu)
    as (s' & removals & Hrun & Hlog & _ & _ & Hmaps).
  rewrite Hrun. exists s'. split; [reflexivity|]. split; [exact Hmaps|].
  intros r Hne. unfold found.
  rewrite Hlog, List.filter_app, filter_filter_same. cbn [List.filter].
  assert (Hnew : login_matches o r (new_login o realm u (String c t)) = false).
  { unfold login_matches, new_login. cbn.
    apply andb_false_iff. right. apply String.eqb_neq. congruence. }
  rewrite Hnew, app_nil_r. apply filter_ext_in. intros l _.
  destruct (login_matches o r l) eqn:Hm; [|apply andb_false_r].
  unfold same_entry. now rewrite (login_matches_other o r realm l Hne Hm).
Qed.

Lemma run_removeSecret (server realm o : string) (w : World) (s : State)
    (tr : list request) :
  validateHostname pf (VStr server) = inr o -> allowed_realm realm = true ->
  exists s',
    run (removeSecret pf server realm) w s tr = (inr tt, s', tr) /\
    same_maps s s' /\ found o realm s' = [] /\
    forall r, r <> realm -> found o r s' = found o r s.
Proof.
  intros Hh Hr. unfold removeSecret, removeCredentials.
  rewrite run_bind, run_bind, run_lift, Hh, run_bind, run_lift.
  rewrite (validateRealm_accepts realm Hr).
  destruct (run_remove_found o realm w s tr) as (s' & Hrun & Hlog & Hmaps).
  rewrite run_bind in Hrun. rewrite run_bind.
  destruct (run (findLoginsForRealm pf o realm) w s tr) as [[[e|fd] s1] tr1];
    [discriminate Hrun|].
  rewrite run_bind, Hrun. cbn [run].
  exists s'. split; [reflexivity|]. split; [exact Hmaps|].
  unfold found. rewrite Hlog, !filter_filter_same. split.
  - apply filter_none. intros l _. now destruct (login_matches o realm l).
  - intros r Hne. rewrite filter_filter_same.
    apply filter_ext_in. intros l _.
    destruct (login_matches o r l) eqn:Hm; [|apply andb_false_r].
    now rewrite (login_matches_other o r realm l Hne Hm).
Qed.

Lemma same_maps_refl (s : State) : same_maps s s.
Proof. repeat split. Qed.

Lemma same_maps_trans (s1 s2 s3 : State) :
  same_maps s1 s2 -> same_maps s2 s3 -> same_maps s1 s3.
Proof. unfold same_maps. intuition congruence. Qed.

(** What [saveConfig] does once the server URL has been accepted. *)
Lemma run_saveConfig (updateAccount : result unit) (accountId : string)
    (config : ConfigInput) (server o : string) (w : World) (s : State)
    (tr : list request) :
  validateServerUrl pf (in_serverUrl config) = inr server ->
  validateHostname pf (VStr server) = inr o ->
  in_username config <> "" ->
  exists s',
    run (saveConfig pf updateAccount accountId config) w s tr
    = (inr match updateAccount with
           | inr _ => VObj [("success", VBool true)]
           | inl e => failure e
           end, s', tr) /\
    storage s' = <[("account_" +:+ accountId)%string :=
                     storageConfig server config]> (storage s) /\
    apiCache s' = delete accountId (apiCache s) /\
    uploadedFiles s' = uploadedFiles s /\
    (truthy (in_shareLinkPassword config) = false ->
     found o REALMS_SHARE_PW s' = []) /\
    (truthy (in_apiToken config) = false ->
     found o REALMS_TOKEN s' = found o REALMS_TOKEN s) /\
    exists s1,
      run (saveSecret pf server REALMS_PASSWORD (in_username config)
             (in_password config)) w s tr = (inr tt, s1, tr) /\
      found o REALMS_PASSWORD s' = found o REALMS_PASSWORD s1.
Proof.
  intros Hs Hh Hu. unfold saveConfig.
  rewrite run_try_catch, run_bind, run_lift, Hs.
  destruct (run_saveSecret_any server REALMS_PASSWORD o (in_username config)
              (in_password config) w s tr Hh eq_refl Hu)
    as (s1 & Hrun1 & Hm1 & _).
  rewrite run_bind, Hrun1.
  assert (H2 : exists s2,
            run (if truthy (in_apiToken config)
                 then saveSecret pf server REALMS_TOKEN (in_username config)
                        (in_apiToken config)
                 else Ret tt) w s1 tr = (inr tt, s2, tr) /\ same_maps s1 s2 /\
            found o REALMS_PASSWORD s2 = found o REALMS_PASSWORD s1 /\
            (truthy (in_apiToken config) = false ->
             found o REALMS_TOKEN s2 = found o REALMS_TOKEN s1)).
  { destruct (truthy (in_apiToken config)).
    - destruct (run_saveSecret_any server REALMS_TOKEN o (in_username config)
                  (in_apiToken config) w s1 tr Hh eq_refl Hu)
        as (s2 & Hrun2 & Hm2 & Hf2).
      exists s2. split; [exact Hrun2|]. split; [exact Hm2|].
      split; [now apply Hf2|discriminate].
    - exists s1. split; [reflexivity|]. split; [apply same_maps_refl|].
      split; reflexivity. }
  destruct H2 as (s2 & Hrun2 & Hm2 & Hp2 & Ht2).
  rewrite run_bind, Hrun2.
  assert (H3 : exists s3,
            run (if truthy (in_shareLinkPassword config)
                 then saveSecret pf server REALMS_SHARE_PW (in_username config)
                        (in_shareLinkPassword config)
                 else removeSecret pf server REALMS_SHARE_PW) w s2 tr
            = (inr tt, s3, tr) /\ same_maps s2 s3 /\
            found o REALMS_PASSWORD s3 = found o REALMS_PASSWORD s2 /\
            found o REALMS_TOKEN s3 = found o REALMS_TOKEN s2 /\
            (truthy (in_shareLinkPassword config) = false ->
             found o REALMS_SHARE_PW s3 = [])).
  { destruct (truthy (in_shareLinkPassword config)).
    - destruct (run_saveSecret_any server REALMS_SHARE_PW o (in_username config)
                  (in_shareLinkPassword config) w s2 tr Hh eq_refl Hu)
        as (s3 & Hrun3 & Hm3 & Hf3).
      exists s3. split; [exact Hrun3|]. split; [exact Hm3|].
      split; [now apply Hf3|]. split; [now apply Hf3|discriminate].
    - destruct (run_removeSecret server REALMS_SHARE_PW o w s2 tr Hh eq_refl)
        as (s3 & Hrun3 & Hm3 & He3 & Hf3).
      exists s3. split; [exact Hrun3|]. split; [exact Hm3|].
      split; [now apply Hf3|]. split; [now apply Hf3|]. intros _. exact He3. }
  destruct H3 as (s3 & Hrun3 & Hm3 & Hp3 & Ht3 & He3).
  rewrite run_bind, Hrun3, run_bind, run_modify, run_bind, run_modify.
  rewrite run_bind, run_lift.
  destruct (same_maps_trans _ _ _ Hm1 (same_maps_trans _ _ _ Hm2 Hm3))
    as (Hsto & Hca & Hup).
  eexists. split.
  { destruct updateAccount as [e|[]]; cbn [run]; reflexivity. }
  cbn [set_apiCache set_storage storage apiCache uploadedFiles].
  rewrite Hsto, Hca, Hup. unfold found in *.
  cbn [set_apiCache set_storage logins].
  split; [reflexivity|]. split; [reflexivity|]. split; [reflexivity|].
  split; [exact He3|]. split.
  - intros Ht. rewrite Ht3, (Ht2 Ht).
    destruct (run_saveSecret_any server REALMS_PASSWORD o (in_username config)
                (in_password config) w s tr Hh eq_refl Hu)
      as (s1' & Hrun1' & _ & Hf1).
    assert (s1' = s1) by congruence. subst s1'.
    now apply Hf1.
  - exists s1. split; [reflexivity|]. now rewrite Hp3, Hp2.
Qed.

Lemma keeps_uploads_saveConfig (updateAccount : result unit)
    (accountId : string) (config : ConfigInput) :
  preserves (fun s s' => uploadedFiles s' = uploadedFiles s)
            (saveConfig pf updateAccount accountId config).
Proof.
  set (R := fun s s' : State => uploadedFiles s' = uploadedFiles s).
  assert (Hrefl : forall s, R s s) by reflexivity.
  assert (Htrans : forall s1 s2 s3, R s1 s2 -> R s2 s3 -> R s1 s3)
    by (unfold R; congruence).
  assert (Hsearch : forall o r s, R s (searched o r s)) by reflexivity.
  assert (Happly : forall c f s, R s (lm_apply c f s)) by reflexivity.
  pose proof (preserves_saveSecret R Hrefl Htrans Hsearch Happly).
  pose proof (preserves_removeSecret R Hrefl Htrans Hsearch Happly).
  unfold saveConfig.
  preserves_with ltac:(first [exact Hrefl | exact Htrans | reflexivity]).
Qed.

(** A handler that returns makes the guarded program return. *)
Lemma try_catch_returns {A : Type} (p : Prog A) (f : exn -> A) (w : World)
    (s : State) (tr : list request) :
  exists a, (run (try_catch p (fun e => Ret (f e))) w s tr).1.1 = inr a.
Proof.
  rewrite run_try_catch.
  destruct (run p w s tr) as [[[e|a] s1] tr1]; cbn; eauto.
Qed.

(** X19. Saving the configuration never throws and leaves the table of
    uploaded files alone.  A server URL that [validateServerUrl] rejects is
    answered with the error and nothing is stored.  For an accepted URL and
    a user name that is not empty, the stored configuration is the
    normalized one: the origin of the URL, an upload directory that is a
    clean path, an expiry between 0 and 365 days; the cached session of the
    account is dropped; a share-link password that has been cleared leaves
    no login in its realm.  All this is done before Thunderbird is told, so
    that a failure of [updateAccount] is reported with the configuration
    already stored. *)
Theorem saveConfig_stores_normalized_config (updateAccount : result unit)
    (accountId : string) (config : ConfigInput) (w : World) (s : State)
    (tr : list request) :
  let r := run (saveConfig pf updateAccount accountId config) w s tr in
  (exists v, r.1.1 = inr v) /\
  uploadedFiles r.1.2 = uploadedFiles s /\
  (forall e, validateServerUrl pf (in_serverUrl config) = inl e ->
     r = (inr (failure e), s, tr)) /\
  (forall server o,
     validateServerUrl pf (in_serverUrl config) = inr server ->
     validateHostname pf (VStr server) = inr o ->
     in_username config <> "" ->
     exists s' c dir,
       r = (inr match updateAccount with
                | inr _ => VObj [("success", VBool true)]
                | inl e => failure e
                end, s', tr) /\
       storage s' = <[("account_" +:+ accountId)%string := c]> (storage s) /\
       apiCache s' = delete accountId (apiCache s) /\
       c = storageConfig server config /\
       cfg_serverUrl c = VStr server /\
       cfg_uploadDir c = VStr dir /\ clean_path dir /\
       0 <= cfg_shareLinkExpireDays c <= 365 /\
       (truthy (in_shareLinkPassword config) = false ->
        found o REALMS_SHARE_PW s' = [])).
Proof.
  cbv zeta. split; [|split; [|split]].
  - unfold saveConfig. apply try_catch_returns.
  - apply keeps_uploads_saveConfig.
  - intros e He. unfold saveConfig.
    now rewrite run_try_catch, run_bind, run_lift, He.
  - intros server o Hs Hh Hu.
    destruct (run_saveConfig updateAccount accountId config server o w s tr
                Hs Hh Hu) as (s' & Hrun & Hsto & Hca & _ & Hshare & _).
    exists s', (storageConfig server config), (sanitizePath
      (if truthy (in_uploadDir config) then in_uploadDir config
       else VStr "/Thunderbird-Attachments")).
    split; [exact Hrun|]. split; [exact Hsto|]. split; [exact Hca|].
    split; [reflexivity|]. split; [reflexivity|]. split; [reflexivity|].
    split; [apply sanitizePath_clean|]. split; [|exact Hshare].
    cbn [storageConfig cfg_shareLinkExpireDays]. unfold validatePositiveInt.
    destruct (parseInt _) as [num|]; [|lia].
    destruct (num <? 0) eqn:Hn; [lia|]. apply Z.ltb_ge in Hn. lia.
Qed.

Lemma same_but_calls_refl (s : State) : same_but_calls s s.
Proof. repeat split. Qed.

Lemma same_but_calls_trans (s1 s2 s3 : State) :
  same_but_calls s1 s2 -> same_but_calls s2 s3 -> same_but_calls s1 s3.
Proof. unfold same_but_calls, same_maps. intuition congruence. Qed.

Lemma same_but_calls_searched (o r : string) (s : State) :
  same_but_calls s (searched o r s).
Proof. repeat split. Qed.

Lemma reads_only_loadConfig (accountId : string) :
  preserves same_but_calls (loadConfig pf accountId).
Proof.
  pose proof (preserves_getCredentials same_but_calls same_but_calls_refl
                same_but_calls_trans same_but_calls_searched).
  pose proof (preserves_getSecret same_but_calls same_but_calls_refl
                same_but_calls_trans same_but_calls_searched).
  unfold loadConfig, loadAccountConfig.
  preserves_with ltac:(first [exact same_but_calls_refl
                             | exact same_but_calls_trans]).
Qed.

(** What [loadConfig] answers for a stored configuration whose server both
    validators accept. *)
Lemma run_loadConfig (accountId server o : string) (c : AccountConfig)
    (w : World) (s : State) (tr : list request) :
  storage s !! ("account_" +:+ accountId) = Some c ->
  validateServerUrl pf (cfg_serverUrl c) = inr server ->
  validateHostname pf (VStr server) = inr o ->
  (run (loadConfig pf accountId) w s tr).1.1 =
  inr (Some {| loaded := c;
               loaded_password :=
                 match first_credentials (found o REALMS_PASSWORD s) with
                 | Some (_, p) => p
                 | None => ""
                 end;
               loaded_shareLinkPassword :=
                 match first_credentials (found o REALMS_SHARE_PW s) with
                 | Some (_, p) => p
                 | None => ""
                 end |}).
Proof.
  intros Hc Hs Hh. unfold loadConfig.
  rewrite run_try_catch, run_bind, run_loadAccountConfig, Hc.
  rewrite run_bind, run_lift, Hs, run_bind.
  rewrite (run_getCredentials _ _ o REALMS_PASSWORD) by
    (auto using validateRealm_accepts).
  rewrite run_bind, (run_getSecret _ _ o) by (reflexivity || assumption).
  cbn [run fst]. do 3 f_equal.
  change (found o REALMS_SHARE_PW (searched o REALMS_PASSWORD s))
    with (found o REALMS_SHARE_PW s).
  destruct (first_credentials (found o REALMS_SHARE_PW s)) as [[u p]|];
    [|reflexivity].
  cbn. now destruct p.
Qed.

(** X20. Loading the configuration for the management page never throws
    and only reads: stored configurations, cached sessions, uploaded files
    and the logins of the password manager are as before.  Without a stored
    configuration, and with one whose server URL [validateServerUrl]
    rejects, the answer is [null]; otherwise it is the stored configuration
    with the password of the first login found in the password realm and in
    the share-link realm of its origin, or the empty string for a realm
    without login. *)
Theorem loadConfig_only_reads (accountId : string) (w : World) (s : State)
    (tr : list request) :
  let r := run (loadConfig pf accountId) w s tr in
  (exists a, r.1.1 = inr a) /\
  same_but_calls s r.1.2 /\
  (storage s !! ("account_" +:+ accountId) = None -> r = (inr None, s, tr)) /\
  (forall c e, storage s !! ("account_" +:+ accountId) = Some c ->
     validateServerUrl pf (cfg_serverUrl c) = inl e -> r = (inr None, s, tr)) /\
  (forall c server o, storage s !! ("account_" +:+ accountId) = Some c ->
     validateServerUrl pf (cfg_serverUrl c) = inr server ->
     validateHostname pf (VStr server) = inr o ->
     r.1.1 =
     inr (Some {| loaded := c;
                  loaded_password :=
                    match first_credentials (found o REALMS_PASSWORD s) with
                    | Some (_, p) => p
                    | None => ""
                    end;
                  loaded_shareLinkPassword :=
                    match first_credentials (found o REALMS_SHARE_PW s) with
                    | Some (_, p) => p
                    | None => ""
                    end |})).
Proof.
  cbv zeta. split; [|split; [|split; [|split]]].
  - unfold loadConfig. apply (try_catch_returns _ (fun _ => None)).
  - apply reads_only_loadConfig.
  - intros Hc. unfold loadConfig.
    now rewrite run_try_catch, run_bind, run_loadAccountConfig, Hc.
  - intros c e Hc He. unfold loadConfig.
    rewrite run_try_catch, run_bind, run_loadAccountConfig, Hc.
    now rewrite run_bind, run_lift, He.
  - intros c server o. apply run_loadConfig.
Qed.

Lemma found_after_save (o r u p : string) (s s' : State) :
  logins s' =
    (List.filter (fun l => negb (same_entry o r u l)) (logins s)
     ++ [new_login o r u p])%list ->
  found o r s' = (other_users u (found o r s) ++ [new_login o r u p])%list.
Proof.
  intros Hlog. unfold found, other_users.
  rewrite Hlog, List.filter_app, !filter_filter_same. f_equal.
  - apply filter_ext_in. intros l _. unfold same_entry.
    destruct (login_matches o r l); [|reflexivity].
    now destruct (String.eqb (li_username l) u).
  - cbn [List.filter]. unfold login_matches, new_login. cbn.
    now rewrite !String.eqb_refl.
Qed.

(** X21. A configuration that has been saved loads back: after
    [saveConfig] with an accepted server URL, a user name and a password
    that are not empty, [loadConfig] for the same account answers the
    normalized configuration, and with it the password just saved, provided
    the password manager holds no password of another user for that
    server.  This holds whether or not [updateAccount] succeeds. *)
Theorem saved_config_loads_back (updateAccount : result unit)
    (accountId : string) (config : ConfigInput) (server o t : string)
    (w : World) (s : State) (tr : list request) :
  origin_stable pf ->
  validateServerUrl pf (in_serverUrl config) = inr server ->
  validateHostname pf (VStr server) = inr o ->
  in_username config <> "" ->
  in_password config = VStr t -> t <> "" ->
  other_users (in_username config) (found o REALMS_PASSWORD s) = [] ->
  exists c,
    (run (saveConfig pf updateAccount accountId config ;;;
          loadConfig pf accountId) w s tr).1.1 = inr (Some c) /\
    loaded c = storageConfig server config /\
    loaded_password c = t.
Proof.
  intros Hst Hs Hh Hu Hp Ht Hothers.
  destruct (run_saveConfig updateAccount accountId config server o w s tr
              Hs Hh Hu) as (s' & Hrun & Hsto & _ & _ & _ & _ & s1 & Hrun1 & Hf).
  rewrite run_bind, Hrun.
  rewrite (run_loadConfig accountId server o (storageConfig server config));
    [ | rewrite Hsto; apply lookup_insert_eq
      | exact (validateServerUrl_fixpoint _ _ Hst Hs) | exact Hh ].
  eexists. split; [reflexivity|]. split; [reflexivity|].
  cbn [loaded_password]. rewrite Hf.
  rewrite Hp in Hrun1. unfold saveSecret in Hrun1.
  assert (H0 : negb (truthy (VStr t)) || (String.length t =? 0)%nat = false).
  { destruct t; [congruence|reflexivity]. }
  rewrite H0, run_bind in Hrun1.
  destruct (run_saveCredentials (VStr server) (VStr REALMS_PASSWORD) o
              REALMS_PASSWORD (in_username config) t w s tr Hh
              (validateRealm_accepts REALMS_PASSWORD eq_refl) Hu)
    as (s2 & removals & Hrun2 & Hlog & _).
  rewrite Hrun2 in Hrun1. cbn [run] in Hrun1.
  assert (s2 = s1) by congruence. subst s2.
  rewrite (found_after_save _ _ _ _ _ _ Hlog), Hothers. reflexivity.
Qed.

Lemma preserves_listRepos_message (server tok : value) :
  preserves eq (listRepos_message pf server tok).
Proof.
  unfold listRepos_message. pose proof preserves_listRepos. stateless.
Qed.

Lemma preserves_testConnection (server : value) (username password : string)
    (otpToken : value) :
  preserves eq (testConnection pf server username password otpToken).
Proof.
  unfold testConnection.
  pose proof preserves_listRepos. pose proof preserves_getAccountInfo.
  pose proof preserves_authenticate. stateless.
Qed.

(** X22. The message listener answers [null] to a sender that is not the
    extension itself and to a message of no allowed type, and does nothing
    for them.  It never throws, whatever the message and the server do.
    [testConnection] and [listRepos] leave the state as it is, [loadConfig]
    only reads, and [saveConfig] leaves the uploaded files alone. *)
Theorem onMessage_checks_sender (runtime_id sender_id : string)
    (updateAccount : result unit) (m : message) (w : World) (s : State)
    (tr : list request) :
  let r := run (onMessage pf runtime_id updateAccount m sender_id) w s tr in
  (sender_id <> runtime_id \/ m = OtherMessage -> r = (inr ReplyNull, s, tr)) /\
  (exists a, r.1.1 = inr a) /\
  uploadedFiles r.1.2 = uploadedFiles s /\
  match m with
  | TestConnection _ _ _ _ | ListRepos _ _ | OtherMessage => r.1.2 = s
  | LoadConfig _ => same_but_calls s r.1.2
  | SaveConfig _ _ => True
  end.
Proof.
  cbv zeta. unfold onMessage.
  destruct (String.eqb sender_id runtime_id) eqn:Hid; cbn [negb].
  2: { split; [reflexivity|]. split; [eauto|]. split; [reflexivity|].
       destruct m; auto using same_but_calls_refl. }
  apply String.eqb_eq in Hid.
  split. { intros [Hne | ->]; [congruence|reflexivity]. }
  destruct m as [server u p otp|acc config|acc|server tok|]; rewrite ?run_bind.
  - pose proof (preserves_testConnection server u p otp w s tr) as K.
    assert (exists v, (run (testConnection pf server u p otp) w s tr).1.1
                      = inr v) as [v Hv]
      by (unfold testConnection; apply try_catch_returns).
    destruct (run (testConnection pf server u p otp) w s tr)
      as [[[e|a] s1] tr1]; cbn in Hv, K |- *; [discriminate Hv|].
    subst s1. eauto.
  - pose proof (keeps_uploads_saveConfig updateAccount acc config w s tr) as K.
    assert (exists v, (run (saveConfig pf updateAccount acc config) w s tr).1.1
                      = inr v) as [v Hv]
      by (unfold saveConfig; apply try_catch_returns).
    destruct (run (saveConfig pf updateAccount acc config) w s tr)
      as [[[e|a] s1] tr1]; cbn in Hv, K |- *; [discriminate Hv|]. eauto.
  - pose proof (reads_only_loadConfig acc w s tr) as K.
    assert (exists v, (run (loadConfig pf acc) w s tr).1.1 = inr v) as [v Hv]
      by (unfold loadConfig; apply (try_catch_returns _ (fun _ => None))).
    destruct (run (loadConfig pf acc) w s tr) as [[[e|a] s1] tr1];
      cbn in Hv, K |- *; [discriminate Hv|].
    split; [eauto|]. split; [apply K|exact K].
  - pose proof (preserves_listRepos_message server tok w s tr) as K.
    assert (exists v, (run (listRepos_message pf server tok) w s tr).1.1
                      = inr v) as [v Hv]
      by (unfold listRepos_message; apply try_catch_returns).
    destruct (run (listRepos_message pf server tok) w s tr)
      as [[[e|a] s1] tr1]; cbn in Hv, K |- *; [discriminate Hv|].
    subst s1. eauto.
  - cbn. eauto.
Qed.

(** ** Where requests go *)

Section Sends.

Variable P : request -> Prop.

Lemma sends_ret {A : Type} (a : A) : sends_only P (Ret a).
Proof. intros w s tr. now exists []. Qed.

Lemma sends_throw {A : Type} (e : exn) : sends_only P (@Throw A e).
Proof. intros w s tr. now exists []. Qed.

Lemma sends_lift {A : Type} (r : result A) : sends_only P (lift r).
Proof. intros w s tr. rewrite run_lift. now exists []. Qed.

Lemma sends_modify (f : State -> State) : sends_only P (modify f).
Proof. intros w s tr. now exists []. Qed.

Lemma sends_fetch (r : request) : P r -> sends_only P (fetch r).
Proof.
  intros Hr w s tr. rewrite run_fetch. exists [r].
  destruct (w tr r); split; auto.
Qed.

Lemma sends_bind {A B : Type} (p : Prog A) (f : A -> Prog B) :
  sends_only P p -> (forall a, sends_only P (f a)) -> sends_only P (bind p f).
Proof.
  intros Hp Hf w s tr. rewrite run_bind.
  destruct (Hp w s tr) as (sent & Htr & Hsent).
  destruct (run p w s tr) as [[[e|a] s1] tr1]; cbn in Htr |- *; [eauto|].
  destruct (Hf a w s1 tr1) as (sent' & Htr' & Hsent').
  exists (sent' ++ sent)%list. rewrite Htr', Htr, app_assoc.
  split; [reflexivity|]. apply Forall_app. auto.
Qed.

Lemma sends_try_catch {A : Type} (p : Prog A) (h : exn -> Prog A) :
  sends_only P p -> (forall e, sends_only P (h e)) ->
  sends_only P (try_catch p h).
Proof.
  intros Hp Hh w s tr. rewrite run_try_catch.
  destruct (Hp w s tr) as (sent & Htr & Hsent).
  destruct (run p w s tr) as [[[e|a] s1] tr1]; cbn in Htr |- *; [|eauto].
  destruct (Hh e w s1 tr1) as (sent' & Htr' & Hsent').
  exists (sent' ++ sent)%list. rewrite Htr', Htr, app_assoc.
  split; [reflexivity|]. apply Forall_app. auto.
Qed.

Lemma sends_get {A : Type} (k : State -> Prog A) :
  (forall s, sends_only P (k s)) -> sends_only P (Get k).
Proof. intros Hk w s tr. exact (Hk s w s tr). Qed.

Lemma sends_put {A : Type} (s' : State) (k : Prog A) :
  sends_only P k -> sends_only P (Put s' k).
Proof. intros Hk w s tr. exact (Hk w s' tr). Qed.

Lemma sends_try_finally {A : Type} (p : Prog A) (q : Prog unit) :
  sends_only P p -> sends_only P q -> sends_only P (try_finally p q).
Proof.
  intros Hp Hq. unfold try_finally.
  apply sends_bind.
  - apply sends_try_catch; [|intros e; apply sends_ret].
    apply sends_bind; [exact Hp|]. intros a. apply sends_ret.
  - intros [e|a]; (apply sends_bind; [exact Hq|]); intros _;
      [apply sends_throw|apply sends_ret].
Qed.

End Sends.

(** Decomposes a program along its binds, handlers and case distinctions;
    [tac] shows that a request is one of those allowed. *)
Ltac sends_with tac :=
  repeat match goal with
  | |- sends_only _ (bind _ _) => apply sends_bind; [|intros ?]
  | |- sends_only _ (try_catch _ _) => apply sends_try_catch; [|intros ?]
  | |- sends_only _ (try_finally _ _) => apply sends_try_finally
  | |- sends_only _ (Get _) => apply sends_get; intros ?
  | |- sends_only _ (Put _ _) => apply sends_put
  | |- sends_only _ (modify _) => apply sends_modify
  | |- sends_only _ (Ret _) => apply sends_ret
  | |- sends_only _ (Throw _) => apply sends_throw
  | |- sends_only _ (lift _) => apply sends_lift
  | |- sends_only _ (fetch _) => apply sends_fetch; solve [tac]
  | |- sends_only _ (if ?b then _ else _) => destruct b
  | |- sends_only _ (match ?x with _ => _ end) => destruct x
  | H : _ |- sends_only _ _ => solve [apply H]
  end.

Lemma to_server_path (api : SeafileAPI) (m path : string)
    (h : list (string * string)) (b : body) (sg : option nat) :
  to_server api {| method := m; target := serverUrl api +:+ path;
                   headers := h; payload := b; signal := sg |}.
Proof. apply startsWith_app. Qed.

Lemma sends_request (api : SeafileAPI) (m path : string)
    (b : option (list (string * value))) (bodyType : option string) :
  sends_only (to_server api) (_request api m path b bodyType).
Proof.
  unfold _request.
  destruct b as [fields|]; [destruct bodyType as [t|]|];
    try (apply sends_fetch; apply to_server_path).
  repeat match goal with
         | |- sends_only _ (match ?x with _ => _ end) => destruct x
         | |- sends_only _ (if ?x then _ else _) => destruct x
         | |- sends_only _ (fetch _) => apply sends_fetch; apply to_server_path
         end.
Qed.

Ltac run_step H :=
  rewrite run_bind in H;
  match type of H with
  | context [match run ?p ?w ?s ?t with _ => _ end] =>
      destruct (run p w s t) as [[[?|?] ?] ?]
  end;
  try discriminate H.

Lemma authenticate_same_server (api api' : SeafileAPI) (u p : string)
    (otp : value) (w : World) (s : State) (tr : list request) :
  (run (authenticate pf api u p otp) w s tr).1.1 = inr api' ->
  serverUrl api' = serverUrl api.
Proof.
  unfold authenticate. intros H. do 2 run_step H.
  match type of H with
  | context [if ?b then _ else _] => destruct b
  end.
  - do 4 run_step H.
    match type of H with
    | context [if ?b then _ else _] => destruct b
    end; [discriminate H|]. run_step H.
    match type of H with
    | context [if ?b then _ else _] => destruct b
    end; discriminate H.
  - do 2 run_step H. cbn in H. now injection H as <-.
Qed.

(** X23. Apart from the upload itself, which goes to the upload link,
    every request of the API client goes to a URL that begins with the
    server URL of the client: signing in, the ping, the listing of
    libraries, the account information, the creation of a directory, the
    request for an upload link, the creation of a share link and the
    deletion of a file.  The client that signing in returns is for the same
    server. *)
Theorem api_requests_go_to_server (api : SeafileAPI) :
  (forall u p otp, sends_only (to_server api) (authenticate pf api u p otp)) /\
  (forall u p otp w s tr api',
     (run (authenticate pf api u p otp) w s tr).1.1 = inr api' ->
     serverUrl api' = serverUrl api) /\
  sends_only (to_server api) (ping api) /\
  sends_only (to_server api) (listRepos pf api) /\
  sends_only (to_server api) (getAccountInfo pf api) /\
  (forall repoId path,
     sends_only (to_server api) (ensureDirectory pf api repoId path)) /\
  (forall repoId dir,
     sends_only (to_server api) (getUploadLink pf api repoId dir)) /\
  (forall repoId path options,
     sends_only (to_server api) (createShareLink pf api repoId path options)) /\
  (forall repoId path,
     sends_only (to_server api) (deleteFile pf api repoId path)).
Proof.
  pose proof (sends_request api) as Hreq.
  repeat split; intros;
    unfold authenticate, ping, listRepos, getAccountInfo, ensureDirectory,
      getUploadLink, createShareLink, deleteFile, response_json;
    try (sends_with ltac:(apply to_server_path)).
  eapply authenticate_same_server; eassumption.
Qed.

(** *** What stays on the machine *)

Lemma no_request_trace {A : Type} (p : Prog A) (w : World) (s : State)
    (tr : list request) :
  sends_only no_request p -> (run p w s tr).2 = tr.
Proof.
  intros H. destruct (H w s tr) as (sent & -> & Hsent).
  destruct sent as [|r sent]; [reflexivity|].
  now apply Forall_cons_iff in Hsent as [[] _].
Qed.

Lemma local_findLoginsForRealm (o r : string) :
  sends_only no_request (findLoginsForRealm pf o r).
Proof.
  unfold findLoginsForRealm, lm_searchLoginsAsync, lm_searchLogins,
    lm_findLogins, lm_search.
  sends_with fail.
Qed.

Lemma local_remove_existing (l : list LoginInfo) (u : string) :
  sends_only no_request (remove_existing l u).
Proof.
  induction l as [|x l IH]; cbn [remove_existing]; unfold lm_removeLogin;
    sends_with fail.
Qed.

Lemma local_remove_all (l : list LoginInfo) :
  sends_only no_request (remove_all l).
Proof.
  induction l as [|x l IH]; cbn [remove_all]; unfold lm_removeLogin;
    sends_with fail.
Qed.

Lemma local_saveCredentials (h realm u p : value) :
  sends_only no_request (saveCredentials pf h realm u p).
Proof.
  pose proof local_findLoginsForRealm. pose proof local_remove_existing.
  unfold saveCredentials, lm_addLoginAsync. sends_with fail.
Qed.

Lemma local_getCredentials (h realm : value) :
  sends_only no_request (getCredentials pf h realm).
Proof.
  pose proof local_findLoginsForRealm. unfold getCredentials. sends_with fail.
Qed.

Lemma local_removeCredentials (h realm : value) :
  sends_only no_request (removeCredentials pf h realm).
Proof.
  pose proof local_findLoginsForRealm. pose proof local_remove_all.
  unfold removeCredentials. sends_with fail.
Qed.

Lemma local_remove_realms (o : string) (realms : list string) :
  sends_only no_request (remove_realms pf o realms).
Proof.
  pose proof local_findLoginsForRealm. pose proof local_remove_all.
  induction realms as [|r realms IH]; cbn [remove_realms]; sends_with fail.
Qed.

Lemma local_removeAllForHost (h : value) :
  sends_only no_request (removeAllForHost pf h).
Proof.
  pose proof local_remove_realms. unfold removeAllForHost. sends_with fail.
Qed.

(** X24. Nothing that handles secrets or the configuration talks to the
    network: the four operations of the password-manager API, saving and
    loading the configuration, the deletion of an account and the abort of
    an upload leave the list of requests as it was, in every run. *)
Theorem secrets_and_configuration_stay_local (w : World) (s : State)
    (tr : list request) :
  (forall h realm u p,
     (run (saveCredentials pf h realm u p) w s tr).2 = tr) /\
  (forall h realm, (run (getCredentials pf h realm) w s tr).2 = tr) /\
  (forall h realm, (run (removeCredentials pf h realm) w s tr).2 = tr) /\
  (forall h, (run (removeAllForHost pf h) w s tr).2 = tr) /\
  (forall updateAccount accountId config,
     (run (saveConfig pf updateAccount accountId config) w s tr).2 = tr) /\
  (forall accountId, (run (loadConfig pf accountId) w s tr).2 = tr) /\
  (forall accountId, (run (onAccountDeleted pf accountId) w s tr).2 = tr) /\
  (forall accountId fileId,
     (run (onFileUploadAbort accountId fileId) w s tr).2 = tr).
Proof.
  pose proof local_saveCredentials. pose proof local_getCredentials.
  pose proof local_removeCredentials. pose proof local_removeAllForHost.
  repeat split; intros; apply no_request_trace;
    unfold saveConfig, loadConfig, onAccountDeleted, onFileUploadAbort,
      saveSecret, getSecret, removeSecret, loadAccountConfig;
    sends_with fail.
Qed.

End Properties.

(** ** The reference platform keeps origins stable *)

Lemma forall_string_app (p : ascii -> bool) (a b : string) :
  Reference.forall_string p (a +:+ b) =
  Reference.forall_string p a && Reference.forall_string p b.
Proof.
  induction a as [|c a IH]; [reflexivity|]. simpl.
  now rewrite IH, andb_assoc.
Qed.

Lemma forall_string_impl (p q : ascii -> bool) (s : string) :
  (forall c, p c = true -> q c = true) ->
  Reference.forall_string p s = true -> Reference.forall_string q s = true.
Proof.
  intros Hpq. induction s as [|c r IH]; [reflexivity|]. simpl.
  intros H. apply andb_prop in H as [Hc Hr]. now rewrite (Hpq c Hc), IH.
Qed.

Lemma drop_end_none (p : ascii -> bool) (s : string) :
  Reference.forall_string (fun c => negb (p c)) s = true -> drop_end p s = s.
Proof.
  induction s as [|c r IH]; [reflexivity|]. simpl.
  intros H. apply andb_prop in H as [Hc Hr]. rewrite (IH Hr).
  destruct r; [|reflexivity]. apply negb_true_iff in Hc. now rewrite Hc.
Qed.

Lemma drop_end_app (p : ascii -> bool) (a b : string) :
  b <> "" -> Reference.forall_string (fun c => negb (p c)) b = true ->
  drop_end p (a +:+ b) = a +:+ b.
Proof.
  intros Hb Hall. induction a as [|c a IH]; [now apply drop_end_none|].
  change (String c a +:+ b) with (String c (a +:+ b)).
  change (drop_end p (String c (a +:+ b))) with
    (match drop_end p (a +:+ b) with
     | EmptyString => if p c then EmptyString else String c EmptyString
     | r' => String c r'
     end).
  rewrite IH. destruct (a +:+ b) eqn:E; [|reflexivity].
  destruct a; [destruct (Hb E)|discriminate E].
Qed.

Lemma take_while_app (p : ascii -> bool) (a b : string) :
  Reference.forall_string p a = true -> head_is p b = false ->
  Reference.take_while p (a +:+ b) = a.
Proof.
  intros Ha Hb. induction a as [|c a IH].
  - destruct b as [|c b]; [reflexivity|]. simpl in *. now rewrite Hb.
  - simpl in *. apply andb_prop in Ha as [Hc Ha]. now rewrite Hc, IH.
Qed.

Lemma drop_while_app (p : ascii -> bool) (a b : string) :
  Reference.forall_string p a = true -> head_is p b = false ->
  drop_while p (a +:+ b) = b.
Proof.
  intros Ha Hb. induction a as [|c a IH]; [now apply drop_while_head|].
  simpl in *. apply andb_prop in Ha as [Hc Ha]. now rewrite Hc, IH.
Qed.

Lemma after_last_at_none (s : string) :
  Reference.forall_string (fun c => negb (Ascii.eqb c "@")) s = true ->
  Reference.after_last_at s = None.
Proof.
  induction s as [|c r IH]; [reflexivity|]. simpl.
  intros H. apply andb_prop in H as [Hc Hr]. rewrite (IH Hr).
  apply negb_true_iff in Hc. now rewrite Hc.
Qed.

Lemma map_lower_take_while (p : ascii -> bool) (s : string) :
  Reference.map_string Reference.lower
    (Reference.map_string Reference.lower s)
  = Reference.map_string Reference.lower s.
Proof.
  induction s as [|c r IH]; [reflexivity|]. simpl. rewrite IH. f_equal.
  destruct c as [[] [] [] [] [] [] [] []]; reflexivity.
Qed.

Lemma drop_while_forall (p q : ascii -> bool) (s : string) :
  Reference.forall_string q s = true ->
  Reference.forall_string q (drop_while p s) = true.
Proof.
  induction s as [|c r IH]; [reflexivity|]. simpl. intros H.
  destruct (p c); [apply IH; now apply andb_prop in H|exact H].
Qed.

Lemma drop_while_stops (p : ascii -> bool) (s : string) :
  head_is p (drop_while p s) = false.
Proof.
  induction s as [|c r IH]; [reflexivity|]. simpl.
  destruct (p c) eqn:Hc; [exact IH|exact Hc].
Qed.

Lemma origin_char_facts (c : ascii) :
  origin_char c = true ->
  is_ws c = false /\ is_slash c = false /\
  Reference.is_c0_or_space c = false /\
  Reference.one_of "/\" c = false /\
  Reference.ends_authority c = false /\
  Ascii.eqb c "@" = false.
Proof.
  destruct c as [[] [] [] [] [] [] [] []]; intros H;
    (discriminate H || (repeat split; reflexivity)).
Qed.

Lemma digit_origin_char (c : ascii) :
  is_digit c = true ->
  origin_char c = true /\ Ascii.eqb c ":" = false.
Proof.
  destruct c as [[] [] [] [] [] [] [] []]; intros H;
    (discriminate H || (split; reflexivity)).
Qed.

Lemma host_char_not_colon (c : ascii) :
  Reference.forbidden_host_char c = false -> Ascii.eqb c ":" = false.
Proof.
  destruct c as [[] [] [] [] [] [] [] []]; intros H;
    (discriminate H || reflexivity).
Qed.

Lemma take_while_all (p : ascii -> bool) (s : string) :
  Reference.forall_string p s = true -> Reference.take_while p s = s.
Proof.
  induction s as [|c r IH]; [reflexivity|]. simpl.
  intros H. apply andb_prop in H as [Hc Hr]. now rewrite Hc, IH.
Qed.

Lemma append_char_inj (c : ascii) (s t : string) :
  s +:+ String c "" = t +:+ String c "" -> s = t.
Proof.
  revert t. induction s as [|a s IH]; intros [|b t] H; simpl in H.
  - reflexivity.
  - inversion H as [[Hc Ht]]. destruct t; discriminate Ht.
  - inversion H as [[Hc Hs]]. destruct s; discriminate Hs.
  - inversion H as [[Hc Hs]]. f_equal. now apply IH.
Qed.

(** A port [parse_port] has produced is read back as itself. *)
Lemma parse_port_canonical (sch port_part p : string) :
  Reference.parse_port sch port_part = Some p -> p <> "" ->
  Reference.forall_string is_digit p = true /\
  Reference.parse_port sch (String ":" p) = Some p.
Proof.
  unfold Reference.parse_port.
  destruct port_part as [|c0 digits]; [intros [= <-]; congruence|].
  destruct (Reference.forall_string is_digit digits) eqn:Hd; [|discriminate].
  destruct (drop_while (Ascii.eqb "0") digits) as [|c r] eqn:Hz.
  - destruct (String.length digits =? 0)%nat; intros [= <-] Hp;
      [congruence|]. split; reflexivity.
  - destruct ((String.length (String c r) <=? 5)%nat
              && (parse_digits (String c r) 0 <=? 65535)) eqn:Hr;
      [|discriminate].
    destruct (String.eqb (String c r) (Reference.default_port sch)) eqn:Hdef;
      intros [= <-] Hp; [congruence|].
    assert (Hall : Reference.forall_string is_digit (String c r) = true).
    { rewrite <- Hz. now apply drop_while_forall. }
    split; [exact Hall|]. rewrite Hall.
    rewrite drop_while_head.
    + now rewrite Hr, Hdef.
    + rewrite <- Hz. apply drop_while_stops.
Qed.

(** What [parse] returns for an [http] or [https] URL. *)
Lemma parse_http (input : string) (p : Reference.parts) :
  Reference.parse input = Some p -> Reference.is_http p = true ->
  (Reference.p_scheme p = "https" \/ Reference.p_scheme p = "http") /\
  Reference.p_host p <> "" /\
  Reference.forall_string (fun c => negb (Reference.forbidden_host_char c))
    (Reference.p_host p) = true /\
  Reference.map_string Reference.lower (Reference.p_host p) = Reference.p_host p /\
  canonical_port (Reference.p_scheme p) (Reference.p_port p).
Proof.
  unfold Reference.parse, Reference.is_http.
  destruct (Reference.parse_scheme _) as [[sch rest]|]; [|discriminate].
  destruct (String.eqb sch "https" || String.eqb sch "http") eqn:Hs.
  - match goal with
    | |- context [Reference.map_string Reference.lower ?x] => set (h := x)
    end.
    destruct (String.length (Reference.map_string Reference.lower h) =? 0)%nat
      eqn:Hlen; [discriminate|].
    destruct (Reference.forall_string _ (Reference.map_string Reference.lower h))
      eqn:Hall; [|discriminate].
    cbn [orb negb].
    destruct (Reference.parse_port sch _) as [q|] eqn:Hport; [|discriminate].
    intros [= <-] _. cbn [Reference.p_scheme Reference.p_host Reference.p_port].
    split; [|split; [|split; [|split]]].
    + apply orb_prop in Hs as [H|H]; apply String.eqb_eq in H; auto.
    + intros H. rewrite H in Hlen. discriminate Hlen.
    + exact Hall.
    + apply (map_lower_take_while (fun _ => true)).
    + destruct q as [|c q'] eqn:Hq; [now left|]. right.
      split; [discriminate|]. rewrite <- Hq in *.
      apply (parse_port_canonical _ _ _ Hport). subst q. discriminate.
  - intros [= <-]. cbn [Reference.p_scheme]. rewrite Hs. discriminate.
Qed.

(** The text [scheme://host:port] parses to its three parts. *)
Lemma parse_origin_text (sch host p : string) :
  sch = "https" \/ sch = "http" ->
  host <> "" ->
  Reference.forall_string (fun c => negb (Reference.forbidden_host_char c))
    host = true ->
  Reference.map_string Reference.lower host = host ->
  canonical_port sch p ->
  Reference.parse (sch +:+ "://" +:+ host +:+ port_suffix p)
  = Some {| Reference.p_scheme := sch; Reference.p_userinfo := "";
            Reference.p_host := host; Reference.p_port := p |}.
Proof.
  intros Hsch Hne Hhost Hlow Hport.
  set (hp := host +:+ port_suffix p).
  assert (Hsuf : Reference.forall_string origin_char (port_suffix p) = true /\
                 head_is (fun c => negb (Ascii.eqb c ":")) (port_suffix p) = false /\
                 Reference.parse_port sch (port_suffix p) = Some p).
  { unfold port_suffix. destruct Hport as [-> | (Hp & Hd & Hpp)].
    - repeat split; reflexivity.
    - destruct p as [|c p']; [congruence|]. cbn [String.length Nat.eqb].
      change (":" +:+ String c p') with (String ":" (String c p')).
      split; [|split; [reflexivity|exact Hpp]].
      change (Reference.forall_string origin_char (String ":" (String c p')))
        with (true && Reference.forall_string origin_char (String c p')).
      apply (forall_string_impl is_digit); [|exact Hd].
      intros d Hdig. now apply digit_origin_char. }
  destruct Hsuf as (Hsuf_all & Hsuf_head & Hsuf_port).
  assert (Hhost_o : Reference.forall_string origin_char host = true).
  { apply (forall_string_impl _ _ _ (fun c H => orb_true_intro _ _ (or_introl H)) Hhost). }
  assert (Hall : Reference.forall_string origin_char hp = true).
  { unfold hp. now rewrite forall_string_app, Hhost_o, Hsuf_all. }
  assert (Hhp : hp <> "").
  { unfold hp. destruct host; [congruence|discriminate]. }
  assert (Hprop : forall q : ascii -> bool,
            (forall c, origin_char c = true -> q c = true) ->
            Reference.forall_string q hp = true).
  { intros q Hq. now apply (forall_string_impl origin_char). }
  assert (Hstrip : drop_end Reference.is_c0_or_space
                     (drop_while Reference.is_c0_or_space
                        (sch +:+ "://" +:+ hp)) = sch +:+ "://" +:+ hp).
  { rewrite drop_while_head by (destruct Hsch as [-> | ->]; reflexivity).
    replace (sch +:+ "://" +:+ hp) with ((sch +:+ "://") +:+ hp)
      by (destruct Hsch as [-> | ->]; reflexivity).
    apply drop_end_app; [exact Hhp|]. apply Hprop.
    intros c Hc. now destruct (origin_char_facts c Hc) as (_ & _ & -> & _). }
  assert (Hscheme : Reference.parse_scheme (sch +:+ "://" +:+ hp)
                    = Some (sch, "//" +:+ hp)).
  { destruct Hsch as [-> | ->]; reflexivity. }
  unfold Reference.parse. fold hp. rewrite Hstrip, Hscheme.
  replace (String.eqb sch "https" || String.eqb sch "http") with true
    by (destruct Hsch as [-> | ->]; reflexivity).
  change (drop_while (Reference.one_of "/\") ("//" +:+ hp))
    with (drop_while (Reference.one_of "/\") hp).
  rewrite (drop_while_head (Reference.one_of "/\") hp).
  2:{ destruct hp as [|c r]; [reflexivity|]. simpl in Hall |- *.
      apply andb_prop in Hall as [Hc _].
      now destruct (origin_char_facts c Hc) as (_ & _ & _ & -> & _). }
  rewrite (take_while_all _ hp).
  2:{ apply Hprop. intros c Hc.
      now destruct (origin_char_facts c Hc) as (_ & _ & _ & _ & -> & _). }
  rewrite (after_last_at_none hp).
  2:{ apply Hprop. intros c Hc.
      now destruct (origin_char_facts c Hc) as (_ & _ & _ & _ & _ & ->). }
  assert (Hnc : Reference.forall_string (fun c => negb (Ascii.eqb c ":")) host = true).
  { apply (forall_string_impl _ _ _ (fun c H => proj2 (negb_true_iff _)
             (host_char_not_colon c (proj1 (negb_true_iff _) H))) Hhost). }
  assert (Hui : Reference.userinfo_of hp = "").
  { unfold Reference.userinfo_of.
    rewrite (after_last_at_none hp); [reflexivity|].
    apply Hprop. intros c Hc.
    now destruct (origin_char_facts c Hc) as (_ & _ & _ & _ & _ & ->). }
  rewrite Hui. subst hp.
  rewrite (take_while_app _ host _ Hnc Hsuf_head).
  rewrite (drop_while_app _ host _ Hnc Hsuf_head).
  rewrite Hlow, Hhost, Hsuf_port.
  replace (String.length host =? 0)%nat with false
    by (destruct host; [congruence|reflexivity]).
  reflexivity.
Qed.

Lemma host_port_chars (sch host p : string) :
  host <> "" ->
  Reference.forall_string (fun c => negb (Reference.forbidden_host_char c))
    host = true ->
  canonical_port sch p ->
  host +:+ port_suffix p <> "" /\
  Reference.forall_string origin_char (host +:+ port_suffix p) = true.
Proof.
  intros Hne Hhost Hport. split; [destruct host; [congruence|discriminate]|].
  rewrite forall_string_app.
  rewrite (forall_string_impl _ origin_char _
             (fun c H => orb_true_intro _ _ (or_introl H)) Hhost).
  unfold port_suffix. destruct Hport as [-> | (Hp & Hd & _)]; [reflexivity|].
  destruct p as [|c p']; [congruence|]. cbn [String.length Nat.eqb andb].
  change (":" +:+ String c p') with (String ":" (String c p')).
  change (Reference.forall_string origin_char (String ":" (String c p')))
    with (true && Reference.forall_string origin_char (String c p')).
  apply (forall_string_impl is_digit); [|exact Hd].
  intros d Hdig. now apply digit_origin_char.
Qed.

(** Neither white space nor slashes are removed from the ends of an origin
    text. *)
Lemma origin_text_ends (q : ascii -> bool) (sch hp : string) :
  sch = "https" \/ sch = "http" ->
  hp <> "" -> Reference.forall_string origin_char hp = true ->
  q "h"%char = false ->
  (forall c, origin_char c = true -> q c = false) ->
  drop_end q (drop_while q (sch +:+ "://" +:+ hp)) = sch +:+ "://" +:+ hp.
Proof.
  intros Hsch Hne Hall Hh Hq.
  rewrite drop_while_head by (destruct Hsch as [-> | ->]; exact Hh).
  replace (sch +:+ "://" +:+ hp) with ((sch +:+ "://") +:+ hp)
    by (destruct Hsch as [-> | ->]; reflexivity).
  apply drop_end_app; [exact Hne|].
  apply (forall_string_impl origin_char); [|exact Hall].
  intros c Hc. now rewrite (Hq c Hc).
Qed.

(** The reference parser keeps origins stable. *)
Lemma reference_origin_stable : origin_stable Reference.platform.
Proof.
  intros s u. cbn [URL Reference.platform]. unfold Reference.parse_URL.
  destruct (Reference.parse s) as [p|] eqn:Hparse; [|discriminate].
  intros [= <-]. cbn [protocol origin]. intros Hproto.
  assert (Hsch : Reference.p_scheme p = "https" \/ Reference.p_scheme p = "http").
  { destruct Hproto as [H|H]; [left|right];
      apply (append_char_inj ":"); exact H. }
  assert (Hhttp : Reference.is_http p = true).
  { unfold Reference.is_http. destruct Hsch as [-> | ->]; reflexivity. }
  destruct (parse_http s p Hparse Hhttp) as (_ & Hne & Hhost & Hlow & Hport).
  rewrite Hhttp. unfold Reference.host_port. fold (port_suffix (Reference.p_port p)).
  destruct (host_port_chars _ _ _ Hne Hhost Hport) as [Hhp Hall].
  split; [destruct Hsch as [-> | ->]; discriminate|].
  split; [|split].
  - unfold trim. apply origin_text_ends; auto.
    intros c Hc. now destruct (origin_char_facts c Hc) as (-> & _).
  - replace (Reference.p_scheme p +:+ "://" +:+ Reference.p_host p
             +:+ port_suffix (Reference.p_port p))
      with ((Reference.p_scheme p +:+ "://") +:+ Reference.p_host p
            +:+ port_suffix (Reference.p_port p))
      by (destruct Hsch as [-> | ->]; reflexivity).
    apply drop_end_app; [exact Hhp|].
    apply (forall_string_impl origin_char); [|exact Hall].
    intros c Hc. now destruct (origin_char_facts c Hc) as (_ & -> & _).
  - rewrite (parse_origin_text _ _ _ Hsch Hne Hhost Hlow Hport).
    eexists. split; [reflexivity|]. cbn [protocol origin].
    split; [reflexivity|].
    unfold Reference.is_http. cbn [Reference.p_scheme Reference.p_host Reference.p_port].
    destruct Hsch as [-> | ->]; reflexivity.
Qed.

(** ** The properties on the reference platform *)

(** C6, counterexample to the specification's reading that the probe
    answers [false] when the network fails: with the network down [ping]
    throws. *)
Lemma ping_network_error_throws :
  offline [] (ping_request example_api) = NetworkError /\
  (run (ping example_api) offline empty_state []).1.1 <> inr false /\
  (run (ping example_api) offline empty_state []).1.1
  = inl (TypeError "NetworkError when attempting to fetch resource.").
Proof. split; [reflexivity|]. split; [discriminate|reflexivity]. Qed.


(** An expiry of 61 bits is printed with all the digits before the decimal
    point, [1152921504606847000], and sent as 365. *)
Example createShareLink_long_expiry :
  to_double (2 ^ 60) = 2 ^ 60 /\
  number_to_string (2 ^ 60) = "1152921504606847000" /\
  field "expire_days" (shareLinkBody "lib1" (VStr "/report.pdf") long_expiry)
  = Some (VNum 365).
Proof. repeat split; vm_compute; reflexivity. Qed.

Lemma unknown_realm_rejected_witness :
  (forall r, VStr "Seafile" = VStr r -> allowed_realm r = false) /\
  exists m,
    run (getCredentials Reference.platform (VStr "https://cloud.example.com")
           (VStr "Seafile")) offline empty_state []
    = (inl (Error m), empty_state, []) /\ validation_message m.
Proof.
  assert (H : forall r, VStr "Seafile" = VStr r -> allowed_realm r = false).
  { intros r [= <-]. reflexivity. }
  split; [exact H|].
  exact (proj1 (proj2 (unknown_realm_rejected_before_vault Reference.platform
                         (VStr "https://cloud.example.com") (VStr "Seafile")
                         (VStr "alice") (VStr "secret")
                         offline empty_state [] H))).
Defined.

(** C9 on the reference platform. *)
Lemma validateServerUrl_idempotent_witness :
  origin_stable Reference.platform /\
  validateServerUrl Reference.platform (VStr " HTTPS://Cloud.Example.com:443/// ")
  = inr "https://cloud.example.com" /\
  validateServerUrl Reference.platform (VStr "https://cloud.example.com")
  = validateServerUrl Reference.platform (VStr " HTTPS://Cloud.Example.com:443/// ").
Proof.
  split; [exact reference_origin_stable|]. split; [reflexivity|].
  apply (validateServerUrl_idempotent Reference.platform
           (VStr " HTTPS://Cloud.Example.com:443/// ")
           "https://cloud.example.com" reference_origin_stable).
  reflexivity.
Defined.

(** C1 on scenario A: password stored, nothing cached, no token stored. *)
Lemma getAuthenticatedAPI_three_tiers_witness :
  origin_stable Reference.platform /\
  exists s',
    run (getAuthenticatedAPI Reference.platform "account1")
        example_server example_state []
    = (inr (session "https://cloud.example.com" "tok-1"), s',
       [auth_request "https://cloud.example.com" "alice" "correct horse"]) /\
    List.filter (same_entry "https://cloud.example.com" REALMS_TOKEN "alice")
                (logins s')
    = [new_login "https://cloud.example.com" REALMS_TOKEN "alice" "tok-1"] /\
    apiCache s' !! "account1"
    = Some (session "https://cloud.example.com" "tok-1").
Proof.
  split; [exact reference_origin_stable|].
  destruct (getAuthenticatedAPI_three_tiers Reference.platform "account1"
              example_server example_state [] reference_origin_stable)
    as (_ & _ & H).
  destruct (H example_config "https://cloud.example.com" eq_refl eq_refl)
    as [_ H1].
  destruct (H1 "https://cloud.example.com" eq_refl eq_refl) as [_ H2].
  destruct (H2 eq_refl) as [_ H3].
  destruct (H3 "alice" "correct horse"
              {| status := 200; json := Some (VObj [("token", VStr "tok-1")]) |}
              (VObj [("token", VStr "tok-1")]) "tok-1"
              eq_refl ltac:(discriminate) eq_refl eq_refl eq_refl eq_refl
              ltac:(discriminate))
    as (s' & Hrun & _ & Hlog & Hcache).
  exists s'. split; [exact Hrun|]. split; [exact Hlog|exact Hcache].
Defined.

(** C4 on a server whose ticket points to another host. *)
Lemma getUploadLink_checks_host_witness :
  hostname <$> URL Reference.platform
                 "https://files.example.net/seafhttp/upload-api/7c1f"
  = Some "files.example.net" /\
  hostname <$> URL Reference.platform (serverUrl example_api)
  = Some "cloud.example.com" /\
  run (getUploadLink Reference.platform example_api "lib1"
         (VStr "/Thunderbird-Attachments")) foreign_ticket_server empty_state []
  = (inl (seafileError Reference.platform "UPLOAD_LINK_UNTRUSTED"
            "errorUploadLinkUntrusted" []),
     empty_state,
     [upload_link_request Reference.platform example_api "lib1"
        (VStr "/Thunderbird-Attachments")]).
Proof.
  split; [reflexivity|]. split; [reflexivity|].
  refine (proj1 (proj1 (getUploadLink_checks_host Reference.platform example_api
                   "lib1" (VStr "/Thunderbird-Attachments")
                   (VStr "https://files.example.net/seafhttp/upload-api/7c1f")
                   _ _ _ foreign_ticket_server empty_state []
                   eq_refl eq_refl eq_refl eq_refl eq_refl) _)).
  discriminate.
Defined.

(** C10 on a password manager that holds two old tokens of the user. *)
Lemma saveCredentials_replaces_entry_witness :
  validateHostname Reference.platform (VStr "https://cloud.example.com/")
  = inr "https://cloud.example.com" /\
  validateRealm (VStr REALMS_TOKEN) = inr REALMS_TOKEN /\
  exists s',
    (run (saveCredentials Reference.platform
            (VStr "https://cloud.example.com/") (VStr REALMS_TOKEN)
            (VStr "alice") (VStr "new")) offline crowded_state []).1
    = (inr true, s') /\
    List.filter (same_entry "https://cloud.example.com" REALMS_TOKEN "alice")
                (logins s')
    = [new_login "https://cloud.example.com" REALMS_TOKEN "alice" "new"].
Proof.
  split; [reflexivity|]. split; [reflexivity|].
  destruct (saveCredentials_replaces_entry Reference.platform
              (VStr "https://cloud.example.com/") (VStr REALMS_TOKEN)
              "https://cloud.example.com" REALMS_TOKEN "alice" "new"
              offline crowded_state [] eq_refl eq_refl ltac:(discriminate))
    as (s' & removals & Hrun & Hone & _).
  exists s'. rewrite Hrun. split; [reflexivity|exact Hone].
Defined.

(** ** An abort while the upload is in flight *)

(** The abort listener touches nothing but the table of uploaded files: it
    has no handle on the request in flight. *)
Lemma run_onFileUploadAbort (accountId : string) (fileId : Z) (w : World)
    (s : State) (tr : list request) :
  run (onFileUploadAbort accountId fileId) w s tr
  = (inr tt, set_uploadedFiles (delete fileId) s, tr).
Proof. reflexivity. Qed.

(** C3, what the code does.  No request of the upload listener carries an
    abort signal, and the abort listener only deletes the table entry.  In
    the scenario the abort event arrives while the upload request is in
    flight: the listener goes on to create the share link and returns it,
    the record of the upload is in the table afterwards, and the delete
    event that follows finds it and sends a DELETE request to the server. *)
Theorem abort_during_upload_still_registers :
  (forall pf now accountId id name data w s tr,
     no_signal tr ->
     no_signal (run (onFileUpload pf now accountId id name data) w s tr).2) /\
  (forall accountId fileId w s tr,
     run (onFileUploadAbort accountId fileId) w s tr
     = (inr tt, set_uploadedFiles (delete fileId) s, tr)) /\
  (fun r => (method r, target r, signal r)) <$> nth_error (rev aborted_upload.2) 3
  = Some ("POST", "https://cloud.example.com/seafhttp/upload-api/7c1f?ret-json=1",
          None) /\
  List.length aborted_upload.2 = 5%nat /\
  (exists info, aborted_upload.1.1
                = inr (UploadUrl (VStr "https://cloud.example.com/f/d41d8/") info)) /\
  uploadedFiles aborted_upload.1.2 !! 42
  = Some {| up_repoId := "lib1";
            up_filePath := "/Thunderbird-Attachments/report.pdf";
            up_accountId := "account1";
            up_shareLinkToken := VStr "d41d8" |} /\
  (fun r => (method r, target r)) <$> head delete_after_abort.2
  = Some ("DELETE",
          "https://cloud.example.com/api/v2.1/repos/lib1/file/?p=%2FThunderbird-Attachments%2Freport.pdf").
Proof.
  split; [intros; now apply unsignalled_onFileUpload|].
  split; [intros; apply run_onFileUploadAbort|].
  split; [vm_compute; reflexivity|]. split; [vm_compute; reflexivity|].
  split; [eexists; vm_compute; reflexivity|].
  split; vm_compute; reflexivity.
Qed.

(** ** The scenarios of the specification, run on the reference platform *)

(** Scenario A, second call: the session cached by the first call is
    returned after a single probe. *)
Example second_acquisition_reuses_cache :
  let first := run (getAuthenticatedAPI Reference.platform "account1")
                   example_server example_state [] in
  run (getAuthenticatedAPI Reference.platform "account1")
      example_server first.1.2 first.2
  = (inr (session "https://cloud.example.com" "tok-1"), first.1.2,
     ping_request (session "https://cloud.example.com" "tok-1") :: first.2).
Proof. vm_compute. reflexivity. Qed.

(** Scenario B: the result is the share URL with an expiry seven days
    ahead and no password flag. *)
Example upload_returns_share_link :
  (run (onFileUpload Reference.platform 1000 "account1" 42 "report.pdf"
          "0123456789") example_server example_state []).1.1
  = inr (UploadUrl (VStr "https://cloud.example.com/f/d41d8/")
           {| service_url := VStr "https://cloud.example.com";
              download_expiry_date := Some (1000 + 7 * 86400000);
              download_password_protected := false |}).
Proof. vm_compute. reflexivity. Qed.

(** With the network down the upload ends in an error and registers
    nothing. *)
Example upload_offline_fails :
  let r := run (onFileUpload Reference.platform 1000 "account1" 42 "report.pdf"
                  "0123456789") offline example_state [] in
  r.1.1 = inr (UploadError "NetworkError when attempting to fetch resource.") /\
  uploadedFiles r.1.2 = uploadedFiles example_state.
Proof. split; vm_compute; reflexivity. Qed.

(** A delete event for a file that was never registered does nothing. *)
Example delete_unknown_file_is_noop :
  run (onFileDeleted Reference.platform "account1" 42)
      example_server example_state []
  = (inr tt, example_state, []).
Proof. reflexivity. Qed.

(** ** Further properties on the reference platform *)

Lemma sanitizePath_keeps_clean_path_witness :
  clean_path "/Thunderbird-Attachments/2026" /\
  sanitizePath (VStr "/Thunderbird-Attachments/2026")
  = "/Thunderbird-Attachments/2026".
Proof.
  assert (H : clean_path "/Thunderbird-Attachments/2026") by (repeat split).
  split; [exact H|]. exact (sanitizePath_keeps_clean_path _ H).
Defined.

Lemma validatePositiveInt_in_bounds_witness :
  0 <= 0 <= 365 /\ 0 <= validatePositiveInt (VStr "1000") 365 0 <= 365.
Proof.
  assert (H : 0 <= 0 <= 365) by lia.
  split; [exact H|]. exact (validatePositiveInt_in_bounds (VStr "1000") 365 0 H).
Defined.

Lemma authenticate_refuses_malformed_otp_witness :
  truthy (VStr "12345") = true /\
  (forall t, VStr "12345" = VStr t -> six_digits t = false) /\
  run (authenticate Reference.platform example_api "alice" "correct horse"
         (VStr "12345")) example_server empty_state []
  = (inl (seafileError Reference.platform "2FA_INVALID" "error2faInvalid" []),
     empty_state, []).
Proof.
  assert (H : forall t, VStr "12345" = VStr t -> six_digits t = false).
  { intros t [= <-]. reflexivity. }
  split; [reflexivity|]. split; [exact H|].
  exact (authenticate_refuses_malformed_otp Reference.platform example_api
           "alice" "correct horse" (VStr "12345") example_server empty_state []
           eq_refl H).
Defined.

Lemma authenticate_sends_otp_header_witness :
  six_digits "123456" = true /\
  (run (authenticate Reference.platform example_api "alice" "correct horse"
          (VStr "123456")) example_server empty_state []).2
  = [auth_request_otp "https://cloud.example.com" "alice" "correct horse"
       "123456"].
Proof.
  split; [reflexivity|].
  exact (authenticate_sends_otp_header Reference.platform example_api
           "alice" "correct horse" "123456" example_server empty_state []
           eq_refl).
Defined.

Lemma authenticate_failure_codes_witness :
  otp_accepted (VStr "123456") = true /\
  sign_in_request "https://cloud.example.com" "alice" "correct horse"
    (VStr "123456")
  = auth_request_otp "https://cloud.example.com" "alice" "correct horse"
      "123456" /\
  wrong_code_server [] (sign_in_request "https://cloud.example.com" "alice"
                          "correct horse" (VStr "123456"))
  = Response wrong_code_response /\
  ok wrong_code_response = false /\
  run (authenticate Reference.platform example_api "alice" "correct horse"
         (VStr "123456")) wrong_code_server empty_state []
  = (inl (seafileError Reference.platform "2FA_INVALID" "error2faInvalid" []),
     empty_state,
     [auth_request_otp "https://cloud.example.com" "alice" "correct horse"
        "123456"]).
Proof.
  split; [reflexivity|]. split; [reflexivity|]. split; [reflexivity|].
  split; [reflexivity|].
  destruct (authenticate_failure_codes Reference.platform example_api
              "alice" "correct horse" (VStr "123456") wrong_code_response
              wrong_code_server empty_state [] eq_refl eq_refl eq_refl)
    as (e & Hrun & Hcode & _).
  rewrite Hrun.
  now rewrite (Hcode _ ["Two factor auth token is invalid."] eq_refl eq_refl).
Defined.

Lemma removeCredentials_clears_realm_witness :
  validateHostname Reference.platform (VStr "https://cloud.example.com/")
  = inr "https://cloud.example.com" /\
  validateRealm (VStr REALMS_TOKEN) = inr REALMS_TOKEN /\
  exists s',
    run (removeCredentials Reference.platform
           (VStr "https://cloud.example.com/") (VStr REALMS_TOKEN))
        offline crowded_state []
    = (inr true, s', []) /\
    logins s' = [] /\ found "https://cloud.example.com" REALMS_TOKEN s' = [].
Proof.
  split; [reflexivity|]. split; [reflexivity|].
  destruct (removeCredentials_clears_realm Reference.platform
              (VStr "https://cloud.example.com/") (VStr REALMS_TOKEN)
              "https://cloud.example.com" REALMS_TOKEN offline crowded_state []
              eq_refl eq_refl) as (s' & Hrun & Hlog & Hfound & _).
  exists s'. split; [exact Hrun|]. split; [|exact Hfound].
  rewrite Hlog. reflexivity.
Defined.

Lemma saved_credentials_read_back_witness :
  validateHostname Reference.platform (VStr "https://cloud.example.com/")
  = inr "https://cloud.example.com" /\
  validateRealm (VStr REALMS_TOKEN) = inr REALMS_TOKEN /\
  "alice" <> "" /\
  (run (saveCredentials Reference.platform (VStr "https://cloud.example.com/")
          (VStr REALMS_TOKEN) (VStr "alice") (VStr "new") ;;;
        getCredentials Reference.platform (VStr "https://cloud.example.com/")
          (VStr REALMS_TOKEN)) offline crowded_state []).1.1
  = inr (Some ("bob", "b-1")).
Proof.
  assert (Hu : "alice" <> "") by discriminate.
  split; [reflexivity|]. split; [reflexivity|]. split; [exact Hu|].
  exact (proj1 (saved_credentials_read_back Reference.platform
                  (VStr "https://cloud.example.com/") (VStr REALMS_TOKEN)
                  "https://cloud.example.com" REALMS_TOKEN "alice" "new"
                  offline crowded_state [] eq_refl eq_refl Hu)).
Defined.

Lemma removeAllForHost_clears_extension_logins_witness :
  validateHostname Reference.platform (VStr "https://cloud.example.com/")
  = inr "https://cloud.example.com" /\
  exists s',
    run (removeAllForHost Reference.platform (VStr "https://cloud.example.com/"))
        offline crowded_state []
    = (inr true, s', []) /\
    logins s' = [].
Proof.
  split; [reflexivity|].
  destruct (removeAllForHost_clears_extension_logins Reference.platform
              (VStr "https://cloud.example.com/") "https://cloud.example.com"
              offline crowded_state [] eq_refl) as (s' & Hrun & Hlog & _).
  exists s'. split; [exact Hrun|]. rewrite Hlog. reflexivity.
Defined.

Lemma acquired_session_is_cached_witness :
  let r := run (getAuthenticatedAPI Reference.platform "account1")
               example_server example_state [] in
  r = (inr (session "https://cloud.example.com" "tok-1"), r.1.2, r.2) /\
  apiCache r.1.2 !! "account1"
  = Some (session "https://cloud.example.com" "tok-1").
Proof.
  cbv zeta.
  assert (H : run (getAuthenticatedAPI Reference.platform "account1")
                  example_server example_state []
              = (inr (session "https://cloud.example.com" "tok-1"),
                 (run (getAuthenticatedAPI Reference.platform "account1")
                      example_server example_state []).1.2,
                 (run (getAuthenticatedAPI Reference.platform "account1")
                      example_server example_state []).2)).
  { vm_compute. reflexivity. }
  split; [exact H|].
  exact (acquired_session_is_cached Reference.platform "account1" _
           example_server example_state _ [] _ H).
Defined.

Lemma saved_config_loads_back_witness :
  origin_stable Reference.platform /\
  validateServerUrl Reference.platform (in_serverUrl example_input)
  = inr "https://cloud.example.com" /\
  validateHostname Reference.platform (VStr "https://cloud.example.com")
  = inr "https://cloud.example.com" /\
  in_username example_input <> "" /\
  in_password example_input = VStr "correct horse" /\
  "correct horse" <> "" /\
  other_users (in_username example_input)
    (found "https://cloud.example.com" REALMS_PASSWORD example_state) = [] /\
  exists c,
    (run (saveConfig Reference.platform (inr tt) "account1" example_input ;;;
          loadConfig Reference.platform "account1")
         offline example_state []).1.1 = inr (Some c) /\
    loaded c = storageConfig "https://cloud.example.com" example_input /\
    loaded_password c = "correct horse".
Proof.
  assert (Hu : in_username example_input <> "") by discriminate.
  assert (Ht : "correct horse" <> "") by discriminate.
  split; [exact reference_origin_stable|]. split; [reflexivity|].
  split; [reflexivity|]. split; [exact Hu|]. split; [reflexivity|].
  split; [exact Ht|]. split; [reflexivity|].
  exact (saved_config_loads_back Reference.platform (inr tt) "account1"
           example_input "https://cloud.example.com"
           "https://cloud.example.com" "correct horse" offline example_state []
           reference_origin_stable eq_refl eq_refl Hu eq_refl Ht eq_refl).
Defined.
